(** * Analysis cache and pipeline orchestrator: a shallow embedding

    This development embeds two parts of the application:

    - [services/cacheService.ts]: the FNV-1a fingerprint of a URL list, the
      localStorage-backed analysis cache with its TTL, its entry counter, its
      size limit and its quota recovery;
    - [App.tsx]: the stage list of the analysis pipeline, the cache fast
      path of [handleSubmit] and its failure handler.

    JavaScript values are modelled as the code uses them: a string is its
    sequence of UTF-16 code units (what [charCodeAt] reads), a number that
    holds an integer is a [Z], the 32-bit conversions of the bitwise
    operators are written out, localStorage is a finite map from keys to
    texts, and code that may throw runs in a small state-and-exception
    monad. *)

From Stdlib Require Import ZArith QArith Lia.
From stdpp Require Import strings gmap list sorting.

Local Open Scope Z_scope.
Set Warnings "-clear-no-such-hyp".
Set Default Proof Using "Type".

(** ** JavaScript strings and numbers *)

Module JS.

(** A string is the list of its UTF-16 code units. *)
Definition jsstring := list Z.

(** The code units of an ASCII literal. *)
Definition lit (s : String.string) : jsstring :=
  List.map (fun a => Z.of_N (Ascii.N_of_ascii a)) (String.list_ascii_of_string s).

(** [ToInt32] and [ToUint32] on a number that holds an integer. *)
Definition ToInt32 (x : Z) : Z := (x + 2 ^ 31) `mod` 2 ^ 32 - 2 ^ 31.
Definition ToUint32 (x : Z) : Z := x `mod` 2 ^ 32.

(** [a ^ b]: both operands go through [ToInt32]. *)
Definition bitxor (a b : Z) : Z := Z.lxor (ToInt32 a) (ToInt32 b).

(** [a << k]: the shift count is taken modulo 32 and the result is again
    an int32. *)
Definition shl (a k : Z) : Z :=
  ToInt32 (Z.shiftl (ToInt32 a) (Z.land (ToUint32 k) 31)).

(** [a >>> 0]. *)
Definition ushr0 (a : Z) : Z := ToUint32 a.

(** Comparison of two strings by code units: what the default comparator
    of [Array.prototype.sort] uses. A proper prefix comes first. *)
Fixpoint str_leb (a b : jsstring) : bool :=
  match a, b with
  | [], _ => true
  | _ :: _, [] => false
  | x :: a', y :: b' =>
      if x <? y then true
      else if y <? x then false
      else str_leb a' b'
  end.

Definition str_le (a b : jsstring) : Prop := str_leb a b = true.

(** [Array.prototype.sort] is stable; on a consistent comparator its result
    is the one stable sorted arrangement of the input, which a stable
    insertion sort computes. [leb x y] says that [x] may stay before [y]. *)
Section Sort.
Context {A : Type} (leb : A → A → bool).

Fixpoint insert_sorted (x : A) (l : list A) : list A :=
  match l with
  | [] => [x]
  | y :: l' => if leb x y then x :: y :: l' else y :: insert_sorted x l'
  end.

Fixpoint Array_sort (l : list A) : list A :=
  match l with
  | [] => []
  | x :: l' => insert_sorted x (Array_sort l')
  end.
End Sort.

(** [arr.join(sep)] on an array of strings. *)
Fixpoint Array_join (sep : jsstring) (arr : list jsstring) : jsstring :=
  match arr with
  | [] => []
  | [s] => s
  | s :: arr' => s ++ sep ++ Array_join sep arr'
  end.

(** One digit of [toString(36)]: 0-9 then a-z. *)
Definition digit36 (d : Z) : Z := if d <? 10 then 48 + d else 87 + d.

Fixpoint digits36 (fuel : nat) (n : Z) (acc : jsstring) : jsstring :=
  match fuel with
  | O => acc
  | S fuel' =>
      let acc' := digit36 (n `mod` 36) :: acc in
      if n / 36 =? 0 then acc' else digits36 fuel' (n / 36) acc'
  end.

(** [n.toString(36)] for an integer [n >= 0]. A number below [2 ^ k] has at
    most [k] digits, which bounds the recursion. *)
Definition toString36 (n : Z) : jsstring :=
  digits36 (S (Z.to_nat (Z.log2 n))) n [].

(** The value a base-36 numeral denotes, to read [toString36] back. *)
Definition digit36_val (c : Z) : Z := if c <? 58 then c - 48 else c - 87.

Definition parse36 (s : jsstring) : Z :=
  fold_left (fun acc c => acc * 36 + digit36_val c) s 0.

End JS.

Export JS.

(** ** The fingerprint of a URL list ([cacheService.ts], utility functions) *)

Module Fingerprint.

Definition FNV_OFFSET_BASIS : Z := 2166136261.

(** The body of the loop of [simpleHash]:
    [hash ^= c; hash += (hash << 1) + (hash << 4) + (hash << 7) + (hash << 8) + (hash << 24)].
    The sum is a plain number addition, which is exact here because every
    summand is an int32. *)
Definition hash_step (hash c : Z) : Z :=
  let hash := bitxor hash c in
  hash + (shl hash 1 + shl hash 4 + shl hash 7 + shl hash 8 + shl hash 24).

Definition simpleHash (str : jsstring) : jsstring :=
  let hash := fold_left hash_step str FNV_OFFSET_BASIS in
  toString36 (ushr0 hash).

Definition generateUrlsHash (urls : list jsstring) : jsstring :=
  let sortedUrls := Array_sort str_leb urls in
  let urlString := Array_join (lit "|") sortedUrls in
  simpleHash urlString.

(** What the specification describes: 32-bit FNV-1a, one xor and one
    multiplication by the FNV prime per input unit, modulo [2 ^ 32]. *)
Definition FNV_PRIME : Z := 16777619.

Definition fnv1a32 (units : list Z) : Z :=
  fold_left (fun h c => (Z.lxor h c * FNV_PRIME) `mod` 2 ^ 32) units FNV_OFFSET_BASIS.






(** The characters [toString(36)] writes: [0-9] and [a-z]. *)
Definition is_digit36 (c : Z) : bool :=
  (48 <=? c) && (c <=? 57) || (97 <=? c) && (c <=? 122).

End Fingerprint.

Export Fingerprint.


(** ** Computations that read and write a state and may throw *)

Module Effect.

Section Effect.
Context {St Ex : Type}.

Definition M (A : Type) : Type := St → (Ex + A) * St.

Definition ret {A} (a : A) : M A := fun s => (inr a, s).
Definition throw {A} (e : Ex) : M A := fun s => (inl e, s).
Definition bind {A B} (m : M A) (k : A → M B) : M B :=
  fun s => match m s with
           | (inr a, s') => k a s'
           | (inl e, s') => (inl e, s')
           end.
(** [try { m } catch (e) { handler e }]. *)
Definition try_catch {A} (m : M A) (handler : Ex → M A) : M A :=
  fun s => match m s with
           | (inr a, s') => (inr a, s')
           | (inl e, s') => handler e s'
           end.
Definition gets {A} (f : St → A) : M A := fun s => (inr (f s), s).
Definition modify (f : St → St) : M unit := fun s => (inr tt, f s).
End Effect.

Arguments M : clear implicits.

#[export] Instance M_ret {St Ex} : MRet (M St Ex) := @ret St Ex.
#[export] Instance M_bind {St Ex} : MBind (M St Ex) := fun A B k m => bind m k.

Fixpoint forEach {St Ex A} (l : list A) (body : A → M St Ex unit) : M St Ex unit :=
  match l with
  | [] => ret tt
  | x :: l' => body x ;; forEach l' body
  end.

End Effect.

Export Effect.

(** ** The analysis cache ([cacheService.ts]) *)

Module Cache.

Definition CACHE_PREFIX : jsstring := lit "seo-analyzer-cache-v1".
Definition DEFAULT_TTL_MS : Z := 7 * 24 * 60 * 60 * 1000.
Definition MAX_CACHE_SIZE : Z := 50.

Definition METADATA_KEY : jsstring := CACHE_PREFIX ++ lit ":metadata".

(** [s.startsWith(p)]. *)
Fixpoint startsWith (s p : jsstring) : bool :=
  match p, s with
  | [], _ => true
  | _ :: _, [] => false
  | c :: p', d :: s' => if decide (c = d) then startsWith s' p' else false
  end.

(** What a failing storage call or [JSON.parse] throws. *)
Inductive exn :=
| QuotaExceededError
| StorageError
| SyntaxError.

(** What the host answers to a write: it takes it, or it throws
    [QuotaExceededError], or it throws another error (storage disabled). *)
Inductive write_outcome := Accepted | QuotaExceeded | Refused.

(** The two callbacks the service hands to [setTimeout(..., 0)]. *)
Inductive timer := CleanupExpiredEntries | EnforceCacheLimit.

Section Service.
(** The two payloads are declared in [types.ts], which is not part of the
    sources: they are parameters. *)
Context {SitewideAnalysis SeoAnalysisResult : Type}.

Record CachedAnalysis := {
  domain : jsstring;
  urlsHash : jsstring;
  timestamp : Z;
  ttl : Z;
  sitewide : SitewideAnalysis;
  seo : SeoAnalysisResult
}.

Record CacheMetadata := {
  version : jsstring;
  lastCleanup : Z;
  entries : Z
}.

(** [Partial<CacheMetadata>]: the fields an update sets. *)
Record MetadataUpdate := {
  set_lastCleanup : option Z;
  set_entries : option Z
}.

(** A text kept in localStorage: the JSON of a cache entry, the JSON of
    the metadata, or a text that is no JSON, on which [JSON.parse] throws.
    The empty text is the falsy one. The service writes entries under
    entry keys and the metadata under its own key, and reads each where
    it wrote it. A JSON text of another shape than the one read, which
    [JSON.parse] would return as an object whose fields read as
    [undefined], is not modelled: the typed reads [JSON_parse_entry] and
    [JSON_parse_metadata] fail on it as they do on a text that is no
    JSON. *)
Inductive text :=
| EntryJson (e : CachedAnalysis)
| MetadataJson (m : CacheMetadata)
| OtherText (raw : jsstring).

Definition truthy (t : text) : bool :=
  match t with
  | OtherText [] => false
  | _ => true
  end.

Inductive storage_op :=
| OpSetItem (key : jsstring) (value : text) (r : write_outcome)
| OpRemoveItem (key : jsstring).

(** The state the service runs in: the content of localStorage, the
    callbacks waiting in the timer queue, and the writes and removals
    issued so far (a ghost trace, to count attempts). *)
Record world := {
  store : gmap jsstring text;
  timers : list timer;
  ops : list storage_op
}.

(** The host: its answer to [setItem] on a given content, and the
    [hostname] of a URL ([None] when [new URL] throws). *)
Context (host_write : gmap jsstring text → jsstring → text → write_outcome).
Context (URL_hostname : jsstring → option jsstring).

Abbreviation M := (Effect.M world exn).

(** *** localStorage and JSON *)

Definition getItem (key : jsstring) : M (option text) :=
  fun w => (inr (store w !! key), w).

Definition setItem (key : jsstring) (value : text) : M unit :=
  fun w =>
    let r := host_write (store w) key value in
    let w' := {| store := store w; timers := timers w;
                 ops := ops w ++ [OpSetItem key value r] |} in
    match r with
    | Accepted =>
        (inr tt, {| store := <[key := value]> (store w); timers := timers w;
                    ops := ops w ++ [OpSetItem key value r] |})
    | QuotaExceeded => (inl QuotaExceededError, w')
    | Refused => (inl StorageError, w')
    end.

Definition removeItem (key : jsstring) : M unit :=
  fun w => (inr tt, {| store := delete key (store w); timers := timers w;
                       ops := ops w ++ [OpRemoveItem key] |}).

(** [localStorage.key(i)] for [i] from [0] to [localStorage.length - 1]:
    the keys in the order of the host, which is not specified. *)
Definition storageKeys : M (list jsstring) :=
  fun w => (inr (map_to_list (store w)).*1, w).

Definition setTimeout (t : timer) : M unit :=
  fun w => (inr tt, {| store := store w; timers := timers w ++ [t]; ops := ops w |}).

Definition JSON_parse_entry (t : text) : M CachedAnalysis :=
  match t with
  | EntryJson e => ret e
  | _ => throw SyntaxError
  end.

Definition JSON_parse_metadata (t : text) : M CacheMetadata :=
  match t with
  | MetadataJson m => ret m
  | _ => throw SyntaxError
  end.

(** *** Utility functions *)

Definition extractDomain (url : jsstring) : jsstring :=
  match URL_hostname url with
  | Some hostname => hostname
  | None => url
  end.

Definition generateCacheKey (domain urlsHash : jsstring) : jsstring :=
  CACHE_PREFIX ++ lit ":" ++ domain ++ lit ":" ++ urlsHash.

(** The key filter of every loop over the cache:
    [key && key.startsWith(CACHE_PREFIX) && key !== `${CACHE_PREFIX}:metadata`]. *)
Definition isCacheKey (key : jsstring) : bool :=
  bool_decide (key ≠ []) && startsWith key CACHE_PREFIX
  && bool_decide (key ≠ METADATA_KEY).

Definition getMetadata (now : Z) : M CacheMetadata :=
  r ← try_catch
         (data ← getItem METADATA_KEY;
          match data with
          | Some d =>
              if truthy d
              then (m ← JSON_parse_metadata d; ret (Some m))
              else ret None
          | None => ret None
          end)
         (fun _ => ret None);
  match r with
  | Some m => ret m
  | None => ret {| version := lit "1.0"; lastCleanup := now; entries := 0 |}
  end.

Definition applyUpdate (current : CacheMetadata) (updates : MetadataUpdate)
  : CacheMetadata :=
  {| version := version current;
     lastCleanup := default (lastCleanup current) (set_lastCleanup updates);
     entries := default (entries current) (set_entries updates) |}.

Definition updateMetadata (now : Z) (updates : MetadataUpdate) : M unit :=
  current ← getMetadata now;
  let updated := applyUpdate current updates in
  try_catch (setItem METADATA_KEY (MetadataJson updated)) (fun _ => ret tt).

(** The scan shared by [enforceCacheLimit] and [clearOldestEntries]: the
    key and the timestamp of every cache key whose text parses; a text
    that does not parse is skipped. *)
Definition collectEntry (key : jsstring) : M (list (jsstring * Z)) :=
  if isCacheKey key then
    try_catch
      (data ← getItem key;
       match data with
       | Some d =>
           if truthy d
           then (cached ← JSON_parse_entry d; ret [(key, timestamp cached)])
           else ret []
       | None => ret []
       end)
      (fun _ => ret [])
  else ret [].

Fixpoint collectEntries (keys : list jsstring) : M (list (jsstring * Z)) :=
  match keys with
  | [] => ret []
  | key :: keys' =>
      found ← collectEntry key;
      rest ← collectEntries keys';
      ret (found ++ rest)
  end.

(** [entries.sort((a, b) => a.timestamp - b.timestamp)]. *)
Definition sortByTimestamp (l : list (jsstring * Z)) : list (jsstring * Z) :=
  Array_sort (fun a b => a.2 <=? b.2) l.

(** *** Expiry sweep and size limit *)

(** One round of the scan of [cleanupExpiredEntries]: the key is marked
    when its entry is expired or when its text does not parse. *)
Definition expiredKey (now : Z) (key : jsstring) : M (list jsstring) :=
  if isCacheKey key then
    try_catch
      (data ← getItem key;
       match data with
       | Some d =>
           if truthy d
           then (cached ← JSON_parse_entry d;
                 if now - timestamp cached >? ttl cached
                 then ret [key] else ret [])
           else ret []
       | None => ret []
       end)
      (fun _ => ret [key])
  else ret [].

Fixpoint expiredKeys (now : Z) (keys : list jsstring) : M (list jsstring) :=
  match keys with
  | [] => ret []
  | key :: keys' =>
      found ← expiredKey now key;
      rest ← expiredKeys now keys';
      ret (found ++ rest)
  end.

Definition removeQuietly (key : jsstring) : M unit :=
  try_catch (removeItem key) (fun _ => ret tt).

Definition cleanupExpiredEntries (now : Z) : M unit :=
  metadata ← getMetadata now;
  if now - lastCleanup metadata <? 60 * 60 * 1000 then ret tt
  else
    try_catch
      (keys ← storageKeys;
       keysToRemove ← expiredKeys now keys;
       forEach keysToRemove removeQuietly ;;
       let removedCount := Z.of_nat (length keysToRemove) in
       updateMetadata now
         {| set_lastCleanup := Some now;
            set_entries := Some (Z.max 0 (entries metadata - removedCount)) |})
      (fun _ => ret tt).

Definition enforceCacheLimit (now : Z) : M unit :=
  metadata ← getMetadata now;
  if entries metadata <=? MAX_CACHE_SIZE then ret tt
  else
    try_catch
      (keys ← storageKeys;
       found ← collectEntries keys;
       let sorted := sortByTimestamp found in
       let toRemove := Z.of_nat (length sorted) - MAX_CACHE_SIZE in
       if 0 <? toRemove then
         forEach (take (Z.to_nat toRemove) sorted)
                 (fun e => removeQuietly e.1) ;;
         updateMetadata now
           {| set_lastCleanup := None; set_entries := Some MAX_CACHE_SIZE |}
       else ret tt)
      (fun _ => ret tt).

(** *** The methods of [CacheService] *)

Definition clearOldestEntries (count : Z) : M unit :=
  try_catch
    (keys ← storageKeys;
     found ← collectEntries keys;
     let sorted := sortByTimestamp found in
     let n := Z.min count (Z.of_nat (length sorted)) in
     forEach (take (Z.to_nat n) sorted) (fun e => removeItem e.1))
    (fun _ => ret tt).

Definition getAnalysis (now : Z) (domainUrl : jsstring) (urls : list jsstring)
  : M (option (SitewideAnalysis * SeoAnalysisResult)) :=
  setTimeout CleanupExpiredEntries ;;
  let domain := extractDomain domainUrl in
  let urlsHash := generateUrlsHash urls in
  let cacheKey := generateCacheKey domain urlsHash in
  try_catch
    (cached ← getItem cacheKey;
     match cached with
     | None => ret None
     | Some c =>
         if negb (truthy c) then ret None
         else
           data ← JSON_parse_entry c;
           if now - timestamp data >? ttl data
           then removeItem cacheKey ;; ret None
           else ret (Some (sitewide data, seo data))
     end)
    (fun _ => ret None).

Definition setAnalysis (now : Z) (domainUrl : jsstring) (urls : list jsstring)
    (sitewideAnalysis : SitewideAnalysis) (seoAnalysis : SeoAnalysisResult)
    (ttl : option Z) : M unit :=
  let domain := extractDomain domainUrl in
  let urlsHash := generateUrlsHash urls in
  let cacheKey := generateCacheKey domain urlsHash in
  let cacheEntry :=
    {| domain := domain; urlsHash := urlsHash; timestamp := now;
       ttl := default DEFAULT_TTL_MS ttl;
       sitewide := sitewideAnalysis; seo := seoAnalysis |} in
  try_catch
    (setItem cacheKey (EntryJson cacheEntry) ;;
     metadata ← getMetadata now;
     updateMetadata now
       {| set_lastCleanup := None; set_entries := Some (entries metadata + 1) |} ;;
     setTimeout EnforceCacheLimit)
    (fun e =>
       match e with
       | QuotaExceededError =>
           clearOldestEntries 5 ;;
           try_catch (setItem cacheKey (EntryJson cacheEntry)) (fun _ => ret tt)
       | _ => ret tt
       end).

Definition clearAnalysis (now : Z) (domainUrl : jsstring) (urls : list jsstring)
  : M unit :=
  let domain := extractDomain domainUrl in
  let urlsHash := generateUrlsHash urls in
  let cacheKey := generateCacheKey domain urlsHash in
  try_catch
    (removeItem cacheKey ;;
     metadata ← getMetadata now;
     updateMetadata now
       {| set_lastCleanup := None;
          set_entries := Some (Z.max 0 (entries metadata - 1)) |})
    (fun _ => ret tt).

(** *** The timer queue *)

Definition runTimer (now : Z) (t : timer) : M unit :=
  match t with
  | CleanupExpiredEntries => cleanupExpiredEntries now
  | EnforceCacheLimit => enforceCacheLimit now
  end.

(** The callbacks waiting in the queue run, in order, at time [now]. *)
Definition runTimers (now : Z) : M unit :=
  fun w =>
    forEach (timers w) (runTimer now)
            {| store := store w; timers := []; ops := ops w |}.

(** A run of stores: each call of [setAnalysis] is followed by the
    callbacks it left in the timer queue, as the event loop runs them
    before the next analysis stores its result. *)
Record StoreRequest := {
  at_time : Z;
  req_domainUrl : jsstring;
  req_urls : list jsstring;
  req_sitewide : SitewideAnalysis;
  req_seo : SeoAnalysisResult;
  req_ttl : option Z;
  timers_at : Z
}.

Definition storeThenTimers (r : StoreRequest) : M unit :=
  setAnalysis (at_time r) (req_domainUrl r) (req_urls r)
              (req_sitewide r) (req_seo r) (req_ttl r) ;;
  runTimers (timers_at r).

Definition storeAll (rs : list StoreRequest) : M unit :=
  forEach rs storeThenTimers.

(** *** Views of the store, to state what the service does *)

(** The metadata [getMetadata] reads from a store. *)
Definition metadataAt (now : Z) (st : gmap jsstring text) : CacheMetadata :=
  match st !! METADATA_KEY with
  | Some (MetadataJson m) => m
  | _ => {| version := lit "1.0"; lastCleanup := now; entries := 0 |}
  end.

(** The world after a write whose failure is swallowed, and after
    removals. *)
Definition afterWrite (key : jsstring) (value : text) (w : world) : world :=
  let r := host_write (store w) key value in
  {| store := match r with Accepted => <[key := value]> (store w) | _ => store w end;
     timers := timers w;
     ops := ops w ++ [OpSetItem key value r] |}.

Definition afterRemove (w : world) (key : jsstring) : world :=
  {| store := delete key (store w); timers := timers w;
     ops := ops w ++ [OpRemoveItem key] |}.

Definition afterRemoves (keys : list jsstring) (w : world) : world :=
  foldl afterRemove w keys.

(** The key and timestamp found under one key, and in a scan of keys. *)
Definition entryAt (st : gmap jsstring text) (key : jsstring) : list (jsstring * Z) :=
  if isCacheKey key then
    match st !! key with
    | Some (EntryJson e) => [(key, timestamp e)]
    | _ => []
    end
  else [].

Definition scan (st : gmap jsstring text) : list (jsstring * Z) :=
  flat_map (entryAt st) (map_to_list st).*1.

(** The cache key of a request, and the entry [setAnalysis] writes for
    it. *)
Definition keyOf (domainUrl : jsstring) (urls : list jsstring) : jsstring :=
  generateCacheKey (extractDomain domainUrl) (generateUrlsHash urls).

Definition entryOf (now : Z) (domainUrl : jsstring) (urls : list jsstring)
    (sitewideAnalysis : SitewideAnalysis) (seoAnalysis : SeoAnalysisResult)
    (ttl : option Z) : CachedAnalysis :=
  {| domain := extractDomain domainUrl;
     urlsHash := generateUrlsHash urls;
     timestamp := now;
     ttl := default DEFAULT_TTL_MS ttl;
     sitewide := sitewideAnalysis; seo := seoAnalysis |}.

Definition withTimer (t : timer) (w : world) : world :=
  {| store := store w; timers := timers w ++ [t]; ops := ops w |}.

(** The keys [clearOldestEntries(count)] removes: the first [count]
    entries of the scan sorted by timestamp. *)
Definition victims (count : Z) (st : gmap jsstring text) : list jsstring :=
  (take (Z.to_nat (Z.min count (Z.of_nat (length (sortByTimestamp (scan st))))))
        (sortByTimestamp (scan st))).*1.

(** The key and the timestamp of the entry a request stores. *)
Definition stamped (r : StoreRequest) : jsstring * Z :=
  (keyOf (req_domainUrl r) (req_urls r), at_time r).

(** The storage operations issued between two worlds. *)
Definition issued (w w' : world) : list storage_op :=
  drop (length (ops w)) (ops w').

(** *** [clearCache] *)

(** [s.includes(p)]: [p] occurs in [s]. *)
Fixpoint includes (s p : jsstring) : bool :=
  startsWith s p
  || match s with
     | [] => false
     | _ :: s' => includes s' p
     end.

(** The filter of the loop of [clearCache]:
    [key && key.startsWith(CACHE_PREFIX)] and then
    [pattern === '*' || key.includes(pattern)]. The metadata key passes
    it. *)
Definition matchesPattern (pattern key : jsstring) : bool :=
  bool_decide (key ≠ []) && startsWith key CACHE_PREFIX
  && (bool_decide (pattern = lit "*") || includes key pattern).

(** [clearCache(pattern = '*')]; [None] is the call without argument. *)
Definition clearCache (now : Z) (pattern : option jsstring) : M unit :=
  let pattern := default (lit "*") pattern in
  try_catch
    (keys ← storageKeys;
     let keysToRemove := List.filter (matchesPattern pattern) keys in
     forEach keysToRemove removeQuietly ;;
     updateMetadata now {| set_lastCleanup := Some now; set_entries := Some 0 |})
    (fun _ => ret tt).

(** *** [getStats] *)

(** The result of [getStats]; [None] is [null]. *)
Record CacheStats := {
  stat_entries : Z;
  totalSize : Z;
  oldestEntry : option Z;
  newestEntry : option Z
}.

(** The length of the string [JSON.stringify] makes of an entry and of
    the metadata: the serializer is the host's. *)
Context (JSON_length_entry : CachedAnalysis → Z).
Context (JSON_length_metadata : CacheMetadata → Z).

(** [data.length] of a stored text. *)
Definition text_length (t : text) : Z :=
  match t with
  | EntryJson e => JSON_length_entry e
  | MetadataJson m => JSON_length_metadata m
  | OtherText raw => Z.of_nat (length raw)
  end.

(** [!oldestTimestamp]: [null] and [0] are falsy. *)
Definition unset (t : option Z) : bool :=
  match t with
  | None => true
  | Some v => v =? 0
  end.

(** [totalSize += data.length; entryCount++]. *)
Definition countText (d : text) (s : CacheStats) : CacheStats :=
  {| stat_entries := stat_entries s + 1;
     totalSize := totalSize s + text_length d;
     oldestEntry := oldestEntry s; newestEntry := newestEntry s |}.

(** The two updates that follow [JSON.parse]. *)
Definition noteTimestamp (ts : Z) (s : CacheStats) : CacheStats :=
  {| stat_entries := stat_entries s;
     totalSize := totalSize s;
     oldestEntry :=
       if unset (oldestEntry s) || (ts <? default 0 (oldestEntry s))
       then Some ts else oldestEntry s;
     newestEntry :=
       if unset (newestEntry s) || (ts >? default 0 (newestEntry s))
       then Some ts else newestEntry s |}.

(** While [getStats] runs, its four local variables are part of the
    state: what was added to them before an exception stays added. *)
Abbreviation StatsM := (Effect.M (world * CacheStats) exn).

Definition onStorage {A} (m : M A) : StatsM A :=
  fun s => let out := m s.1 in (out.1, (out.2, s.2)).

Definition onStats (f : CacheStats → CacheStats) : StatsM unit :=
  modify (fun s => (s.1, f s.2)).

(** One round of the loop of [getStats]. *)
Definition statsStep (key : jsstring) : StatsM unit :=
  if isCacheKey key then
    try_catch
      (data ← onStorage (getItem key);
       match data with
       | Some d =>
           if truthy d
           then (onStats (countText d) ;;
                 cached ← onStorage (JSON_parse_entry d);
                 onStats (noteTimestamp (timestamp cached)))
           else ret tt
       | None => ret tt
       end)
      (fun _ => ret tt)
  else ret tt.

Definition noStats : CacheStats :=
  {| stat_entries := 0; totalSize := 0; oldestEntry := None; newestEntry := None |}.

Definition getStats : M CacheStats :=
  fun w =>
    let out := try_catch (keys ← onStorage storageKeys; forEach keys statsStep)
                         (fun _ => ret tt) (w, noStats) in
    (inr out.2.2, out.2.1).

(** *** Further views of the store *)

(** The keys the scan of [cleanupExpiredEntries] marks, under one key and
    in all: an expired entry and a text that does not parse. *)
Definition sweptAt (now : Z) (st : gmap jsstring text) (key : jsstring)
  : list jsstring :=
  if isCacheKey key then
    match st !! key with
    | Some (EntryJson e) => if now - timestamp e >? ttl e then [key] else []
    | Some t => if truthy t then [key] else []
    | None => []
    end
  else [].

Definition swept (now : Z) (st : gmap jsstring text) : list jsstring :=
  flat_map (sweptAt now st) (map_to_list st).*1.

(** The keys [clearCache] removes. *)
Definition cleared (pattern : option jsstring) (st : gmap jsstring text)
  : list jsstring :=
  List.filter (matchesPattern (default (lit "*") pattern)) (map_to_list st).*1.

(** What one round of [getStats] does to the four variables. *)
Definition statsAt (st : gmap jsstring text) (s : CacheStats) (key : jsstring)
  : CacheStats :=
  if isCacheKey key then
    match st !! key with
    | Some (EntryJson e) => noteTimestamp (timestamp e) (countText (EntryJson e) s)
    | Some t => if truthy t then countText t s else s
    | None => s
    end
  else s.

(** The storage as the service leaves it: an entry JSON sits under an
    entry key and the metadata JSON under the metadata key. On such a
    storage no typed read meets a JSON text of another shape. *)
Definition wellKeyedAt (key : jsstring) (t : text) : bool :=
  match t with
  | EntryJson _ => isCacheKey key
  | MetadataJson _ => bool_decide (key = METADATA_KEY)
  | OtherText _ => true
  end.

Definition wellKeyed (st : gmap jsstring text) : Prop :=
  map_Forall (fun key t => wellKeyedAt key t = true) st.

(** The texts [getStats] counts: the non-empty ones under a cache key. *)
Definition counted (st : gmap jsstring text) : list (jsstring * text) :=
  List.filter (fun kv => isCacheKey kv.1 && truthy kv.2) (map_to_list st).

End Service.

Arguments CachedAnalysis : clear implicits.
Arguments text : clear implicits.
Arguments storage_op : clear implicits.
Arguments world : clear implicits.
Arguments StoreRequest : clear implicits.

(** The order of the sort by timestamp. *)
Definition ts_le (a b : jsstring * Z) : Prop := (a.2 <=? b.2) = true.

End Cache.

Export Cache.

(** ** The pipeline of [App.tsx] *)

Module Pipeline.

Module Status.
Inductive t := pending | running | complete | error | skipped.
End Status.

Module LogType.
Inductive t := info | success | warning | error | ai.
End LogType.

Module AppState.
Inductive t := idle | loading | results | error | configure_ai.
End AppState.

Inductive LoadingPhase := crawling | analyzing.

(** What [throw] carries: an [Error] with its message, or another value. *)
Inductive thrown :=
| ErrorObject (message : jsstring)
| NonError.

Record PipelineStage := {
  id : jsstring;
  name : jsstring;
  description : jsstring;
  status : Status.t;
  progress : Q;
  itemsProcessed : option Z;
  totalItems : option Z;
  currentTask : option jsstring;
  startTime : option Z;
  endTime : option Z
}.

(** [Partial<PipelineStage>] as [updateStage] receives it: the fields the
    call sets. *)
Record StageUpdate := {
  set_status : option Status.t;
  set_progress : option Q;
  set_itemsProcessed : option Z;
  set_totalItems : option Z;
  set_currentTask : option jsstring;
  set_startTime : option Z;
  set_endTime : option Z
}.

Definition noUpdate : StageUpdate :=
  {| set_status := None; set_progress := None; set_itemsProcessed := None;
     set_totalItems := None; set_currentTask := None; set_startTime := None;
     set_endTime := None |}.

(** [{ ...s, ...updates }]. *)
Definition applyStageUpdate (s : PipelineStage) (u : StageUpdate) : PipelineStage :=
  {| id := id s; name := name s; description := description s;
     status := default (status s) (set_status u);
     progress := default (progress s) (set_progress u);
     itemsProcessed := match set_itemsProcessed u with Some x => Some x | None => itemsProcessed s end;
     totalItems := match set_totalItems u with Some x => Some x | None => totalItems s end;
     currentTask := match set_currentTask u with Some x => Some x | None => currentTask s end;
     startTime := match set_startTime u with Some x => Some x | None => startTime s end;
     endTime := match set_endTime u with Some x => Some x | None => endTime s end |}.

Record ActivityLogEntry := {
  timestamp : Z;
  message : jsstring;
  type : LogType.t;
  stage : option jsstring
}.

Record CrawlProgress := {
  count : Z;
  total : Z;
  currentSitemap : option jsstring
}.

Definition stageDefinition (id name description : jsstring) : PipelineStage :=
  {| id := id; name := name; description := description;
     status := Status.pending; progress := inject_Z 0;
     itemsProcessed := None; totalItems := None; currentTask := None;
     startTime := None; endTime := None |}.

(** [PIPELINE_STAGE_DEFINITIONS.map(s => ({ ...s, status: 'pending', progress: 0 }))]. *)
Definition initialStages : list PipelineStage :=
  [ stageDefinition (lit "crawl") (lit "Sitemap Discovery")
      (lit "Crawling sitemaps in parallel to extract all page URLs");
    stageDefinition (lit "rank") (lit "URL Prioritization")
      (lit "Scoring and ranking URLs by strategic SEO value");
    stageDefinition (lit "competitor") (lit "Competitor Intelligence")
      (lit "Analyzing competitor content gaps and strategies");
    stageDefinition (lit "technical") (lit "Technical Health Scan")
      (lit "Auditing site architecture, speed, and crawlability");
    stageDefinition (lit "content") (lit "Content Analysis")
      (lit "Evaluating on-page SEO factors and content quality");
    stageDefinition (lit "actionplan") (lit "Action Plan Generation")
      (lit "Creating prioritized implementation roadmap");
    stageDefinition (lit "summary") (lit "Executive Synthesis")
      (lit "Generating 80/20 executive summary with top priorities") ].

Definition HISTORY_STORAGE_KEY : jsstring := lit "seo-analyzer-history-v13".
Definition MAX_URLS_FOR_ANALYSIS : nat := 100.

(** [String(n)] for an integer [n >= 0], in decimal. *)
Fixpoint digits10 (fuel : nat) (n : Z) (acc : jsstring) : jsstring :=
  match fuel with
  | O => acc
  | S fuel' =>
      let acc' := (48 + n `mod` 10) :: acc in
      if n / 10 =? 0 then acc' else digits10 fuel' (n / 10) acc'
  end.

Definition decimal (n : Z) : jsstring :=
  digits10 (S (Z.to_nat (Z.log2 n))) n [].

(** [s.split('\n')]. *)
Fixpoint splitLines (s : jsstring) (current : jsstring) : list jsstring :=
  match s with
  | [] => [current]
  | c :: s' =>
      if c =? 10 then current :: splitLines s' []
      else splitLines s' (current ++ [c])
  end.

(** Two stages that differ at most in their task line. *)
Definition sameButTask (s s' : PipelineStage) : Prop :=
  id s' = id s ∧ name s' = name s ∧ description s' = description s
  ∧ status s' = status s ∧ progress s' = progress s
  ∧ itemsProcessed s' = itemsProcessed s ∧ totalItems s' = totalItems s
  ∧ startTime s' = startTime s ∧ endTime s' = endTime s.

(** The stages the fast path marks without running them. *)
Definition replayedStages : list jsstring :=
  [lit "rank"; lit "competitor"; lit "technical"; lit "content"].

(** [later] has the stages of [earlier], by position and id, and those of
    the replayed stages are complete at 100. *)
Definition replayed (earlier later : list PipelineStage) : Prop :=
  Forall2 (fun s s' =>
             id s' = id s
             ∧ (id s ∈ replayedStages →
                status s' = Status.complete ∧ progress s' = inject_Z 100))
          earlier later.

(** [later] has the stages of [earlier], and status and progress of the
    replayed stages are the same. *)
Definition keepsReplayed (earlier later : list PipelineStage) : Prop :=
  Forall2 (fun s s' =>
             id s' = id s
             ∧ (id s ∈ replayedStages →
                status s' = status s ∧ progress s' = progress s))
          earlier later.

Section App.
(** The types of [types.ts] and of the wizard, which are not part of the
    sources. *)
Context {SitewideAnalysis SeoAnalysisResult ExecutiveSummary DailyActionPlan
         GroundingSource AiConfig AnalysisType Location : Type}.

Record PartialResults := {
  sitewideAnalysis : option SitewideAnalysis;
  seoAnalysis : option SeoAnalysisResult;
  executiveSummary : option ExecutiveSummary;
  actionPlan : option (list DailyActionPlan);
  urlsDiscovered : option Z;
  urlsAnalyzed : option Z
}.

Definition emptyResults : PartialResults :=
  {| sitewideAnalysis := None; seoAnalysis := None; executiveSummary := None;
     actionPlan := None; urlsDiscovered := None; urlsAnalyzed := None |}.

Record WizardSubmitData := {
  sitemapUrl : jsstring;
  url : jsstring;
  competitorSitemaps : jsstring;
  analysisType : AnalysisType;
  targetLocation : Location
}.

Record HistoricalAnalysis := {
  h_id : jsstring;
  h_date : jsstring;
  h_sitemapUrl : jsstring;
  h_competitorSitemaps : list jsstring;
  h_sitewideAnalysis : SitewideAnalysis;
  h_analysis : SeoAnalysisResult;
  h_sources : list GroundingSource;
  h_analysisType : AnalysisType;
  h_location : Location;
  h_actionPlan : list DailyActionPlan;
  h_executiveSummary : ExecutiveSummary
}.

(** *** The collaborators *)

(** What a collaborator call amounts to for the caller: the progress
    callbacks it makes while it is awaited, each with the time since the
    call at which it arrives, the time the call takes, and its result or
    the value it throws. *)
Record Outcome (Progress Result : Type) := {
  reports : list (Z * Progress);
  elapsed : Z;
  settled : thrown + Result
}.
Arguments reports {_ _}.
Arguments elapsed {_ _}.
Arguments settled {_ _}.

(** A progress message of one of the two calls under [Promise.all]. *)
Inductive AnalysisReport :=
| FromSitewideAudit (msg : jsstring)
| FromSeoAnalysis (msg : jsstring).

(** The two analysis calls started together under [Promise.all]: the
    messages of both up to the moment the pair settles, in the order they
    arrive; the pair of results, or the first rejection; and the messages
    that arrive after a rejection, from the call that is still running. *)
Record AnalysesOutcome := {
  during : list (Z * AnalysisReport);
  analyses_elapsed : Z;
  analyses_settled : thrown + (SitewideAnalysis * (SeoAnalysisResult * list GroundingSource));
  late : list AnalysisReport
}.

Record Services := {
  crawlSitemap : jsstring → Outcome CrawlProgress (list jsstring);
  rankUrls : list jsstring → thrown + list jsstring;
  generateAnalyses :
    AiConfig → list jsstring → list jsstring → AnalysisType → Location → AnalysesOutcome;
  createActionPlan :
    AiConfig → SitewideAnalysis → SeoAnalysisResult
    → Outcome jsstring (list DailyActionPlan);
  generateExecutiveSummary :
    AiConfig → SitewideAnalysis → SeoAnalysisResult → Outcome unit ExecutiveSummary
}.

(** What the browser provides. *)
Record Browser := {
  host_write :
    gmap jsstring (text SitewideAnalysis SeoAnalysisResult) → jsstring
    → text SitewideAnalysis SeoAnalysisResult → write_outcome;
  URL_hostname : jsstring → option jsstring;
  URL_href : jsstring → option jsstring;
  String_trim : jsstring → jsstring;
  (** [msg.toLowerCase().includes('competitor')] *)
  mentionsCompetitor : jsstring → bool;
  Date_toISOString : Z → jsstring;
  Date_toLocaleString : Z → jsstring;
  JSON_stringify_history : list HistoricalAnalysis → jsstring;
  DOMException_message : exn → jsstring
}.

(** The collaborator calls a run makes, in order (a ghost trace). *)
Inductive call :=
| CallCrawlSitemap (href : jsstring)
| CallRankUrls (urls : list jsstring)
| CallGenerateSitewideAudit (inputUrls competitorUrls : list jsstring)
| CallGenerateSeoAnalysis (inputUrls : list jsstring)
| CallCreateActionPlan (sitewide : SitewideAnalysis) (seo : SeoAnalysisResult)
| CallGenerateExecutiveSummary (sitewide : SitewideAnalysis) (seo : SeoAnalysisResult).

(** The state of the component, the storage, the clock, the trace, and
    the callbacks still to come. *)
Record App := {
  error : option jsstring;
  analysisHistory : list HistoricalAnalysis;
  selectedAnalysisId : option jsstring;
  appState : AppState.t;
  loadingPhase : LoadingPhase;
  crawlProgress : option CrawlProgress;
  pipelineStages : list PipelineStage;
  activityLog : list ActivityLogEntry;
  partialResults : PartialResults;
  analysisStartTime : Z;
  aiConfig : option AiConfig;
  localStorage : world SitewideAnalysis SeoAnalysisResult;
  clock : Z;
  calls : list call;
  (** callbacks of an analysis call that outlives a rejected [Promise.all] *)
  pendingReports : list AnalysisReport
}.


(** *** State updates *)

Definition map_error f (a : App) : App :=
  {| error := f (error a);
     analysisHistory := analysisHistory a;
     selectedAnalysisId := selectedAnalysisId a;
     appState := appState a;
     loadingPhase := loadingPhase a;
     crawlProgress := crawlProgress a;
     pipelineStages := pipelineStages a;
     activityLog := activityLog a;
     partialResults := partialResults a;
     analysisStartTime := analysisStartTime a;
     aiConfig := aiConfig a;
     localStorage := localStorage a;
     clock := clock a;
     calls := calls a;
     pendingReports := pendingReports a |}.
Definition map_analysisHistory f (a : App) : App :=
  {| error := error a;
     analysisHistory := f (analysisHistory a);
     selectedAnalysisId := selectedAnalysisId a;
     appState := appState a;
     loadingPhase := loadingPhase a;
     crawlProgress := crawlProgress a;
     pipelineStages := pipelineStages a;
     activityLog := activityLog a;
     partialResults := partialResults a;
     analysisStartTime := analysisStartTime a;
     aiConfig := aiConfig a;
     localStorage := localStorage a;
     clock := clock a;
     calls := calls a;
     pendingReports := pendingReports a |}.
Definition map_selectedAnalysisId f (a : App) : App :=
  {| error := error a;
     analysisHistory := analysisHistory a;
     selectedAnalysisId := f (selectedAnalysisId a);
     appState := appState a;
     loadingPhase := loadingPhase a;
     crawlProgress := crawlProgress a;
     pipelineStages := pipelineStages a;
     activityLog := activityLog a;
     partialResults := partialResults a;
     analysisStartTime := analysisStartTime a;
     aiConfig := aiConfig a;
     localStorage := localStorage a;
     clock := clock a;
     calls := calls a;
     pendingReports := pendingReports a |}.
Definition map_appState f (a : App) : App :=
  {| error := error a;
     analysisHistory := analysisHistory a;
     selectedAnalysisId := selectedAnalysisId a;
     appState := f (appState a);
     loadingPhase := loadingPhase a;
     crawlProgress := crawlProgress a;
     pipelineStages := pipelineStages a;
     activityLog := activityLog a;
     partialResults := partialResults a;
     analysisStartTime := analysisStartTime a;
     aiConfig := aiConfig a;
     localStorage := localStorage a;
     clock := clock a;
     calls := calls a;
     pendingReports := pendingReports a |}.
Definition map_loadingPhase f (a : App) : App :=
  {| error := error a;
     analysisHistory := analysisHistory a;
     selectedAnalysisId := selectedAnalysisId a;
     appState := appState a;
     loadingPhase := f (loadingPhase a);
     crawlProgress := crawlProgress a;
     pipelineStages := pipelineStages a;
     activityLog := activityLog a;
     partialResults := partialResults a;
     analysisStartTime := analysisStartTime a;
     aiConfig := aiConfig a;
     localStorage := localStorage a;
     clock := clock a;
     calls := calls a;
     pendingReports := pendingReports a |}.
Definition map_crawlProgress f (a : App) : App :=
  {| error := error a;
     analysisHistory := analysisHistory a;
     selectedAnalysisId := selectedAnalysisId a;
     appState := appState a;
     loadingPhase := loadingPhase a;
     crawlProgress := f (crawlProgress a);
     pipelineStages := pipelineStages a;
     activityLog := activityLog a;
     partialResults := partialResults a;
     analysisStartTime := analysisStartTime a;
     aiConfig := aiConfig a;
     localStorage := localStorage a;
     clock := clock a;
     calls := calls a;
     pendingReports := pendingReports a |}.
Definition map_pipelineStages f (a : App) : App :=
  {| error := error a;
     analysisHistory := analysisHistory a;
     selectedAnalysisId := selectedAnalysisId a;
     appState := appState a;
     loadingPhase := loadingPhase a;
     crawlProgress := crawlProgress a;
     pipelineStages := f (pipelineStages a);
     activityLog := activityLog a;
     partialResults := partialResults a;
     analysisStartTime := analysisStartTime a;
     aiConfig := aiConfig a;
     localStorage := localStorage a;
     clock := clock a;
     calls := calls a;
     pendingReports := pendingReports a |}.
Definition map_activityLog f (a : App) : App :=
  {| error := error a;
     analysisHistory := analysisHistory a;
     selectedAnalysisId := selectedAnalysisId a;
     appState := appState a;
     loadingPhase := loadingPhase a;
     crawlProgress := crawlProgress a;
     pipelineStages := pipelineStages a;
     activityLog := f (activityLog a);
     partialResults := partialResults a;
     analysisStartTime := analysisStartTime a;
     aiConfig := aiConfig a;
     localStorage := localStorage a;
     clock := clock a;
     calls := calls a;
     pendingReports := pendingReports a |}.
Definition map_partialResults f (a : App) : App :=
  {| error := error a;
     analysisHistory := analysisHistory a;
     selectedAnalysisId := selectedAnalysisId a;
     appState := appState a;
     loadingPhase := loadingPhase a;
     crawlProgress := crawlProgress a;
     pipelineStages := pipelineStages a;
     activityLog := activityLog a;
     partialResults := f (partialResults a);
     analysisStartTime := analysisStartTime a;
     aiConfig := aiConfig a;
     localStorage := localStorage a;
     clock := clock a;
     calls := calls a;
     pendingReports := pendingReports a |}.
Definition map_analysisStartTime f (a : App) : App :=
  {| error := error a;
     analysisHistory := analysisHistory a;
     selectedAnalysisId := selectedAnalysisId a;
     appState := appState a;
     loadingPhase := loadingPhase a;
     crawlProgress := crawlProgress a;
     pipelineStages := pipelineStages a;
     activityLog := activityLog a;
     partialResults := partialResults a;
     analysisStartTime := f (analysisStartTime a);
     aiConfig := aiConfig a;
     localStorage := localStorage a;
     clock := clock a;
     calls := calls a;
     pendingReports := pendingReports a |}.
Definition map_aiConfig f (a : App) : App :=
  {| error := error a;
     analysisHistory := analysisHistory a;
     selectedAnalysisId := selectedAnalysisId a;
     appState := appState a;
     loadingPhase := loadingPhase a;
     crawlProgress := crawlProgress a;
     pipelineStages := pipelineStages a;
     activityLog := activityLog a;
     partialResults := partialResults a;
     analysisStartTime := analysisStartTime a;
     aiConfig := f (aiConfig a);
     localStorage := localStorage a;
     clock := clock a;
     calls := calls a;
     pendingReports := pendingReports a |}.
Definition map_localStorage f (a : App) : App :=
  {| error := error a;
     analysisHistory := analysisHistory a;
     selectedAnalysisId := selectedAnalysisId a;
     appState := appState a;
     loadingPhase := loadingPhase a;
     crawlProgress := crawlProgress a;
     pipelineStages := pipelineStages a;
     activityLog := activityLog a;
     partialResults := partialResults a;
     analysisStartTime := analysisStartTime a;
     aiConfig := aiConfig a;
     localStorage := f (localStorage a);
     clock := clock a;
     calls := calls a;
     pendingReports := pendingReports a |}.
Definition map_clock f (a : App) : App :=
  {| error := error a;
     analysisHistory := analysisHistory a;
     selectedAnalysisId := selectedAnalysisId a;
     appState := appState a;
     loadingPhase := loadingPhase a;
     crawlProgress := crawlProgress a;
     pipelineStages := pipelineStages a;
     activityLog := activityLog a;
     partialResults := partialResults a;
     analysisStartTime := analysisStartTime a;
     aiConfig := aiConfig a;
     localStorage := localStorage a;
     clock := f (clock a);
     calls := calls a;
     pendingReports := pendingReports a |}.
Definition map_calls f (a : App) : App :=
  {| error := error a;
     analysisHistory := analysisHistory a;
     selectedAnalysisId := selectedAnalysisId a;
     appState := appState a;
     loadingPhase := loadingPhase a;
     crawlProgress := crawlProgress a;
     pipelineStages := pipelineStages a;
     activityLog := activityLog a;
     partialResults := partialResults a;
     analysisStartTime := analysisStartTime a;
     aiConfig := aiConfig a;
     localStorage := localStorage a;
     clock := clock a;
     calls := f (calls a);
     pendingReports := pendingReports a |}.
Definition map_pendingReports f (a : App) : App :=
  {| error := error a;
     analysisHistory := analysisHistory a;
     selectedAnalysisId := selectedAnalysisId a;
     appState := appState a;
     loadingPhase := loadingPhase a;
     crawlProgress := crawlProgress a;
     pipelineStages := pipelineStages a;
     activityLog := activityLog a;
     partialResults := partialResults a;
     analysisStartTime := analysisStartTime a;
     aiConfig := aiConfig a;
     localStorage := localStorage a;
     clock := clock a;
     calls := calls a;
     pendingReports := f (pendingReports a) |}.

Abbreviation Run := (Effect.M App thrown).

Context (browser : Browser) (services : Services).

Definition Date_now : Run Z := gets clock.

Definition setError (e : option jsstring) : Run unit := modify (map_error (fun _ => e)).
Definition setAppState (s : AppState.t) : Run unit := modify (map_appState (fun _ => s)).
Definition setLoadingPhase (p : LoadingPhase) : Run unit :=
  modify (map_loadingPhase (fun _ => p)).
Definition setCrawlProgress (p : option CrawlProgress) : Run unit :=
  modify (map_crawlProgress (fun _ => p)).
Definition setSelectedAnalysisId (i : option jsstring) : Run unit :=
  modify (map_selectedAnalysisId (fun _ => i)).
Definition setPipelineStages (f : list PipelineStage → list PipelineStage) : Run unit :=
  modify (map_pipelineStages f).
Definition setActivityLog (f : list ActivityLogEntry → list ActivityLogEntry) : Run unit :=
  modify (map_activityLog f).
Definition setPartialResults (f : PartialResults → PartialResults) : Run unit :=
  modify (map_partialResults f).
Definition setAnalysisStartTime (t : Z) : Run unit :=
  modify (map_analysisStartTime (fun _ => t)).
Definition setAnalysisHistory (h : list HistoricalAnalysis) : Run unit :=
  modify (map_analysisHistory (fun _ => h)).

(** *** Pipeline helpers *)

Definition updateStage (stageId : jsstring) (updates : StageUpdate) : Run unit :=
  setPipelineStages
    (map (fun s => if decide (id s = stageId) then applyStageUpdate s updates else s)).

Definition addLog (message : jsstring) (type : LogType.t) (stage : option jsstring)
  : Run unit :=
  now ← Date_now;
  setActivityLog
    (fun prev => prev ++ [{| timestamp := now; message := message;
                             type := type; stage := stage |}]).

Definition resetPipeline : Run unit :=
  setPipelineStages (fun _ => initialStages) ;;
  setActivityLog (fun _ => []) ;;
  setPartialResults (fun _ => emptyResults) ;;
  now ← Date_now;
  setAnalysisStartTime now.

(** *** Calls out of the component *)

Definition recordCall (c : call) : Run unit := modify (map_calls (fun l => l ++ [c])).

(** A call of the cache service or of localStorage, on the storage of the
    state; a storage exception is an [Error] for the caller. *)
Definition withStorage {A} (m : Effect.M (world SitewideAnalysis SeoAnalysisResult) exn A)
  : Run A :=
  fun a =>
    match m (localStorage a) with
    | (inr x, w) => (inr x, map_localStorage (fun _ => w) a)
    | (inl e, w) =>
        (inl (ErrorObject (DOMException_message browser e)),
         map_localStorage (fun _ => w) a)
    end.

(** [await] of a collaborator call: the callbacks waiting in the timer
    queue run, the progress callbacks arrive at their times, and the call
    settles after its duration. *)
Definition await {Progress Result} (o : Outcome Progress Result)
    (onProgress : Progress → Run unit) : Run Result :=
  start ← Date_now;
  withStorage (runTimers (host_write browser) start) ;;
  forEach (reports o)
          (fun r => modify (map_clock (fun _ => start + r.1)) ;; onProgress r.2) ;;
  modify (map_clock (fun _ => start + elapsed o)) ;;
  match settled o with
  | inl e => throw e
  | inr r => ret r
  end.


(** *** The stages of [handleSubmit] *)

Definition markRunning (stageId task : jsstring) : Run unit :=
  now ← Date_now;
  updateStage stageId
    {| set_status := Some Status.running; set_progress := None;
       set_itemsProcessed := None; set_totalItems := None;
       set_currentTask := Some task; set_startTime := Some now;
       set_endTime := None |}.

(** [{ status: 'complete', progress: 100, endTime: Date.now() }]. *)
Definition completedAt (now : Z) : StageUpdate :=
  {| set_status := Some Status.complete; set_progress := Some (inject_Z 100);
     set_itemsProcessed := None; set_totalItems := None;
     set_currentTask := None; set_startTime := None;
     set_endTime := Some now |}.

Definition markComplete (stageId : jsstring) : Run unit :=
  now ← Date_now;
  updateStage stageId (completedAt now).

Definition setCurrentTask (stageId msg : jsstring) : Run unit :=
  updateStage stageId
    {| set_status := None; set_progress := None;
       set_itemsProcessed := None; set_totalItems := None;
       set_currentTask := Some msg; set_startTime := None;
       set_endTime := None |}.

(** The progress callback of the crawl. The source defers its body to the
    next animation frame; the frames are taken to run while the crawl is
    awaited. *)
Definition onCrawlProgress (progress : CrawlProgress) : Run unit :=
  setCrawlProgress (Some progress) ;;
  let progressPercent : Q :=
    if 0 <? total progress
    then Qmult (Qdiv (inject_Z (count progress)) (inject_Z (total progress)))
               (inject_Z 100)
    else inject_Z 0 in
  let sitemap :=
    match currentSitemap progress with
    | Some (c :: s) => c :: s
    | _ => lit "sitemap"
    end in
  updateStage (lit "crawl")
    {| set_status := None; set_progress := Some progressPercent;
       set_itemsProcessed := Some (count progress);
       set_totalItems := Some (total progress);
       set_currentTask := Some (lit "Processing " ++ sitemap ++ lit "...");
       set_startTime := None; set_endTime := None |}.

Definition onAnalysisReport (r : AnalysisReport) : Run unit :=
  match r with
  | FromSitewideAudit msg =>
      if mentionsCompetitor browser msg
      then setCurrentTask (lit "competitor") msg ;;
           addLog msg LogType.ai (Some (lit "competitor"))
      else setCurrentTask (lit "technical") msg ;;
           addLog msg LogType.ai (Some (lit "technical"))
  | FromSeoAnalysis msg =>
      setCurrentTask (lit "content") msg ;;
      addLog msg LogType.ai (Some (lit "content"))
  end.

Definition onActionPlanProgress (msg : jsstring) : Run unit :=
  setCurrentTask (lit "actionplan") msg ;;
  addLog msg LogType.ai (Some (lit "actionplan")).

(** [await Promise.all([generateSitewideAudit(...), generateSeoAnalysis(...)])]:
    on a rejection the call that is still running keeps reporting. *)
Definition awaitAnalyses (o : AnalysesOutcome)
  : Run (SitewideAnalysis * (SeoAnalysisResult * list GroundingSource)) :=
  try_catch
    (await {| reports := during o; elapsed := analyses_elapsed o;
              settled := analyses_settled o |} onAnalysisReport)
    (fun e => modify (map_pendingReports (fun l => l ++ late o)) ;; throw e).

(** Build and save the final analysis: the end of both paths. *)
Definition saveAnalysis (data : WizardSubmitData) (competitorUrls : list jsstring)
    (sitewide : SitewideAnalysis) (analysis : SeoAnalysisResult)
    (sources : list GroundingSource) (plan : list DailyActionPlan)
    (summary : ExecutiveSummary) : Run unit :=
  now ← Date_now;
  let newAnalysis :=
    {| h_id := Date_toISOString browser now;
       h_date := Date_toLocaleString browser now;
       h_sitemapUrl := url data;
       h_competitorSitemaps := competitorUrls;
       h_sitewideAnalysis := sitewide;
       h_analysis := analysis;
       h_sources := sources;
       h_analysisType := analysisType data;
       h_location := targetLocation data;
       h_actionPlan := plan;
       h_executiveSummary := summary |} in
  history ← gets analysisHistory;
  let updatedHistory := take 10 (newAnalysis :: history) in
  setAnalysisHistory updatedHistory ;;
  withStorage (setItem (host_write browser) HISTORY_STORAGE_KEY
                 (OtherText (JSON_stringify_history browser updatedHistory))) ;;
  setSelectedAnalysisId (Some (h_id newAnalysis)) ;;
  setAppState AppState.results.

(** Stages 6 and 7, on the site-wide and per-page results at hand. *)
Definition actionPlanStage (config : AiConfig) (sitewide : SitewideAnalysis)
    (analysis : SeoAnalysisResult) (announce task done : jsstring)
  : Run (list DailyActionPlan) :=
  addLog announce LogType.ai (Some (lit "actionplan")) ;;
  markRunning (lit "actionplan") task ;;
  recordCall (CallCreateActionPlan sitewide analysis) ;;
  plan ← await (createActionPlan services config sitewide analysis)
               onActionPlanProgress;
  markComplete (lit "actionplan") ;;
  addLog done LogType.success (Some (lit "actionplan")) ;;
  setPartialResults
    (fun prev =>
       {| sitewideAnalysis := sitewideAnalysis prev; seoAnalysis := seoAnalysis prev;
          executiveSummary := executiveSummary prev; actionPlan := Some plan;
          urlsDiscovered := urlsDiscovered prev; urlsAnalyzed := urlsAnalyzed prev |}) ;;
  ret plan.

Definition summaryStage (config : AiConfig) (sitewide : SitewideAnalysis)
    (analysis : SeoAnalysisResult) (task : jsstring) : Run ExecutiveSummary :=
  addLog (lit "Synthesizing executive summary...") LogType.ai (Some (lit "summary")) ;;
  markRunning (lit "summary") task ;;
  recordCall (CallGenerateExecutiveSummary sitewide analysis) ;;
  summary ← await (generateExecutiveSummary services config sitewide analysis)
                  (fun _ => ret tt);
  markComplete (lit "summary") ;;
  addLog (lit "Executive summary complete") LogType.success (Some (lit "summary")) ;;
  setPartialResults
    (fun prev =>
       {| sitewideAnalysis := sitewideAnalysis prev; seoAnalysis := seoAnalysis prev;
          executiveSummary := Some summary; actionPlan := actionPlan prev;
          urlsDiscovered := urlsDiscovered prev; urlsAnalyzed := urlsAnalyzed prev |}) ;;
  ret summary.

(** The fast path: the branch [if (cachedAnalysis)]. *)
Definition cachedPath (config : AiConfig) (data : WizardSubmitData)
    (competitorUrls urlsFromSitemap : list jsstring)
    (cachedAnalysis : SitewideAnalysis * SeoAnalysisResult) : Run unit :=
  addLog ([55357; 56960] ++ lit " Cache hit! Using cached analysis...")
         LogType.success None ;;
  forEach [lit "rank"; lit "competitor"; lit "technical"; lit "content"]
          markComplete ;;
  setPartialResults
    (fun _ =>
       {| sitewideAnalysis := Some cachedAnalysis.1;
          seoAnalysis := Some cachedAnalysis.2;
          executiveSummary := None; actionPlan := None;
          urlsDiscovered := Some (Z.of_nat (length urlsFromSitemap));
          urlsAnalyzed := None |}) ;;
  plan ← actionPlanStage config cachedAnalysis.1 cachedAnalysis.2
           (lit "Generating fresh action plan from cache...")
           (lit "Creating implementation roadmap...")
           (lit "Action plan generated");
  summary ← summaryStage config cachedAnalysis.1 cachedAnalysis.2
              (lit "Creating 80/20 analysis...");
  saveAnalysis data competitorUrls cachedAnalysis.1 cachedAnalysis.2 [] plan summary.

(** The full run: what follows the branch. *)
Definition fullPath (config : AiConfig) (data : WizardSubmitData)
    (competitorUrls urlsFromSitemap : list jsstring) : Run unit :=
  addLog (lit "No valid cache found, running full analysis...") LogType.info None ;;
  (* stage 2 *)
  addLog (lit "Prioritizing URLs by SEO value...") LogType.info (Some (lit "rank")) ;;
  markRunning (lit "rank") (lit "Scoring URL importance...") ;;
  recordCall (CallRankUrls urlsFromSitemap) ;;
  rankedUrls ← match rankUrls services urlsFromSitemap with
               | inl e => throw e
               | inr ranked => ret ranked
               end;
  let inputUrls := take MAX_URLS_FOR_ANALYSIS rankedUrls in
  markComplete (lit "rank") ;;
  addLog (lit "Ranked " ++ decimal (Z.of_nat (length rankedUrls))
            ++ lit " URLs, analyzing top " ++ decimal (Z.of_nat (length inputUrls)))
         LogType.success (Some (lit "rank")) ;;
  setPartialResults
    (fun prev =>
       {| sitewideAnalysis := sitewideAnalysis prev; seoAnalysis := seoAnalysis prev;
          executiveSummary := executiveSummary prev; actionPlan := actionPlan prev;
          urlsDiscovered := urlsDiscovered prev;
          urlsAnalyzed := Some (Z.of_nat (length inputUrls)) |}) ;;
  (* stages 3 to 5 *)
  addLog (lit "Starting parallel AI analysis engines...") LogType.ai None ;;
  markRunning (lit "competitor") (lit "Analyzing competitor sitemaps...") ;;
  markRunning (lit "technical") (lit "Auditing technical health...") ;;
  markRunning (lit "content") (lit "Evaluating content quality...") ;;
  recordCall (CallGenerateSitewideAudit inputUrls competitorUrls) ;;
  recordCall (CallGenerateSeoAnalysis inputUrls) ;;
  both ← awaitAnalyses
           (generateAnalyses services config inputUrls competitorUrls
              (analysisType data) (targetLocation data));
  let sitewide := both.1 in
  let analysis := both.2.1 in
  let sources := both.2.2 in
  markComplete (lit "competitor") ;;
  markComplete (lit "technical") ;;
  markComplete (lit "content") ;;
  addLog (lit "Sitewide audit complete") LogType.success (Some (lit "technical")) ;;
  addLog (lit "Content analysis complete") LogType.success (Some (lit "content")) ;;
  setPartialResults
    (fun prev =>
       {| sitewideAnalysis := Some sitewide; seoAnalysis := Some analysis;
          executiveSummary := executiveSummary prev; actionPlan := actionPlan prev;
          urlsDiscovered := urlsDiscovered prev; urlsAnalyzed := urlsAnalyzed prev |}) ;;
  (* cache *)
  addLog (lit "Caching analysis for future use...") LogType.info None ;;
  now ← Date_now;
  withStorage (setAnalysis (host_write browser) (URL_hostname browser) now
                 (url data) urlsFromSitemap sitewide analysis None) ;;
  (* stages 6 and 7 *)
  plan ← actionPlanStage config sitewide analysis
           (lit "Generating implementation roadmap...")
           (lit "Creating daily action items...")
           (lit "Action plan generated successfully");
  summary ← summaryStage config sitewide analysis (lit "Generating 80/20 analysis...");
  addLog ([55356; 57225] ++ lit " Analysis complete! Building final report...")
         LogType.success None ;;
  saveAnalysis data competitorUrls sitewide analysis sources plan summary.

(** Stage 1. *)
Definition crawlStage (href : jsstring) : Run (list jsstring) :=
  addLog (lit "Starting sitemap discovery...") LogType.info (Some (lit "crawl")) ;;
  markRunning (lit "crawl") (lit "Initializing parallel crawler...") ;;
  recordCall (CallCrawlSitemap href) ;;
  allPageUrls ← await (crawlSitemap services href) onCrawlProgress;
  markComplete (lit "crawl") ;;
  addLog (lit "Discovered " ++ decimal (Z.of_nat (length allPageUrls)) ++ lit " URLs")
         LogType.success (Some (lit "crawl")) ;;
  setPartialResults
    (fun prev =>
       {| sitewideAnalysis := sitewideAnalysis prev; seoAnalysis := seoAnalysis prev;
          executiveSummary := executiveSummary prev; actionPlan := actionPlan prev;
          urlsDiscovered := Some (Z.of_nat (length allPageUrls));
          urlsAnalyzed := urlsAnalyzed prev |}) ;;
  ret allPageUrls.

(** What follows the crawl: the empty-crawl check, the cache check and
    one of the two paths. *)
Definition analysisStages (config : AiConfig) (data : WizardSubmitData)
    (competitorUrls urlsFromSitemap : list jsstring) : Run unit :=
  match urlsFromSitemap with
  | [] =>
      throw (ErrorObject (lit "Crawl complete, but no URLs were found. Your sitemap might be empty or in a format that could not be parsed."))
  | _ :: _ =>
      setLoadingPhase analyzing ;;
      setCrawlProgress None ;;
      addLog (lit "Checking for cached analysis...") LogType.info None ;;
      now ← Date_now;
      cachedAnalysis ← withStorage (getAnalysis (URL_hostname browser) now
                                      (url data) urlsFromSitemap);
      match cachedAnalysis with
      | Some cached => cachedPath config data competitorUrls urlsFromSitemap cached
      | None => fullPath config data competitorUrls urlsFromSitemap
      end
  end.

(** The body of the [try] block. *)
Definition runPipeline (config : AiConfig) (data : WizardSubmitData)
    (href : jsstring) (competitorUrls : list jsstring) : Run unit :=
  urlsFromSitemap ← crawlStage href;
  analysisStages config data competitorUrls urlsFromSitemap.

(** The [catch] block. *)
Definition failStage (s : PipelineStage) : PipelineStage :=
  match status s with
  | Status.running =>
      {| id := id s; name := name s; description := description s;
         status := Status.error; progress := progress s;
         itemsProcessed := itemsProcessed s; totalItems := totalItems s;
         currentTask := currentTask s; startTime := startTime s;
         endTime := endTime s |}
  | _ => s
  end.

Definition errorMessageOf (e : thrown) : jsstring :=
  match e with
  | ErrorObject message => message
  | NonError => lit "An unexpected error occurred."
  end.

Definition handleFailure (e : thrown) : Run unit :=
  let errorMessage := errorMessageOf e in
  setError (Some errorMessage) ;;
  addLog ([10060] ++ lit " Analysis failed: " ++ errorMessage) LogType.error None ;;
  setPipelineStages (map failStage) ;;
  setAppState AppState.error.

(** The callbacks of an analysis call that was still running when the run
    failed arrive after the [catch] block. *)
Definition deliverPending : Run unit :=
  pending ← gets pendingReports;
  modify (map_pendingReports (fun _ => [])) ;;
  forEach pending onAnalysisReport.

(** [data.competitorSitemaps.split('\n').map(u => u.trim()).filter(Boolean)]. *)
Definition competitorUrlsOf (data : WizardSubmitData) : list jsstring :=
  filter (fun u => u ≠ [])
         (map (String_trim browser) (splitLines (competitorSitemaps data) [])).

(** The state updates before the [try] block. *)
Definition startRun : Run unit :=
  setAppState AppState.loading ;;
  setLoadingPhase crawling ;;
  setError None ;;
  setSelectedAnalysisId None ;;
  setCrawlProgress None ;;
  resetPipeline ;;
  now ← Date_now;
  setAnalysisStartTime now.

(** What the progress callbacks of the analysis and action plan calls,
    the timers and the passing of time may change between two states: the
    task line of stages, the log, which only grows, the storage and the
    clock. *)
Definition taskDrift (a a' : App) : Prop :=
  error a' = error a
  ∧ analysisHistory a' = analysisHistory a
  ∧ selectedAnalysisId a' = selectedAnalysisId a
  ∧ appState a' = appState a
  ∧ loadingPhase a' = loadingPhase a
  ∧ crawlProgress a' = crawlProgress a
  ∧ Forall2 sameButTask (pipelineStages a) (pipelineStages a')
  ∧ activityLog a `prefix_of` activityLog a'
  ∧ partialResults a' = partialResults a
  ∧ analysisStartTime a' = analysisStartTime a
  ∧ aiConfig a' = aiConfig a
  ∧ calls a' = calls a.

(** What every state update of the crawl stage keeps: the calls made so
    far and the stages, by position and id. *)
Definition keepsCallsAndIds (a a' : App) : Prop :=
  calls a' = calls a
  ∧ map id (pipelineStages a') = map id (pipelineStages a).

(** A computation that ends with the result [r] whatever the state, and
    changes the state by a drift only. *)
Definition drifts {A} (m : Run A) (r : thrown + A) : Prop :=
  ∀ a, ∃ a', m a = (r, a') ∧ taskDrift a a'.

Definition handleSubmit (data : WizardSubmitData) : Run unit :=
  match sitemapUrl data with
  | [] =>
      setError (Some (lit "Please enter your sitemap.xml URL.")) ;;
      setAppState AppState.error
  | _ :: _ =>
      config ← gets aiConfig;
      match config with
      | None =>
          setError (Some (lit "AI Provider is not configured.")) ;;
          setAppState AppState.configure_ai
      | Some config =>
          match URL_href browser (sitemapUrl data) with
          | None =>
              setError (Some (lit "Please enter a valid sitemap URL (e.g., https://example.com/sitemap.xml).")) ;;
              setAppState AppState.error
          | Some href =>
              let competitorUrls := competitorUrlsOf data in
              startRun ;;
              try_catch (runPipeline config data href competitorUrls) handleFailure ;;
              deliverPending
          end
      end
  end.

(** *** Statements about a computation *)

(** From a state in [P], the computation ends in [Q] when it returns and
    in [E] when it throws. *)
Definition triple {A} (P : App → Prop) (m : Run A)
    (Q : A → App → Prop) (E : thrown → App → Prop) : Prop :=
  ∀ a, P a → match m a with
             | (inr x, a') => Q x a'
             | (inl e, a') => E e a'
             end.

(** [I] holds when the computation ends, however it ends, if it held
    before. *)
Definition invariant {A} (I : App → Prop) (m : Run A) : Prop :=
  triple I m (fun _ => I) (fun _ => I).

(** *** What a run has done so far *)

(** The stage list has the seven stages of the definitions, by position
    and id, and the stages of [ids] are complete at 100. *)
Definition stagesDone (ids : list jsstring) (a : App) : Prop :=
  map id (pipelineStages a) = map id initialStages
  ∧ ∀ s, s ∈ pipelineStages a → id s ∈ ids →
         status s = Status.complete ∧ progress s = inject_Z 100.

(** The collaborator calls of a run, in order: a run that ends early has
    made the first calls of the fast path or of the full path, and a run
    that went through ([true]) has made them all. At most
    [MAX_URLS_FOR_ANALYSIS] URLs go to the analyses. *)
Inductive run_trace (href : jsstring) (competitorUrls : list jsstring)
  : bool → list call → Prop :=
| trace_crawl :
    run_trace href competitorUrls false [CallCrawlSitemap href]
| trace_hit_plan sw seo :
    run_trace href competitorUrls false
      [CallCrawlSitemap href; CallCreateActionPlan sw seo]
| trace_hit sw seo :
    run_trace href competitorUrls true
      [CallCrawlSitemap href; CallCreateActionPlan sw seo;
       CallGenerateExecutiveSummary sw seo]
| trace_rank urls :
    run_trace href competitorUrls false [CallCrawlSitemap href; CallRankUrls urls]
| trace_analyses urls ranked :
    run_trace href competitorUrls false
      [CallCrawlSitemap href; CallRankUrls urls;
       CallGenerateSitewideAudit (take MAX_URLS_FOR_ANALYSIS ranked) competitorUrls;
       CallGenerateSeoAnalysis (take MAX_URLS_FOR_ANALYSIS ranked)]
| trace_full_plan urls ranked sw seo :
    run_trace href competitorUrls false
      [CallCrawlSitemap href; CallRankUrls urls;
       CallGenerateSitewideAudit (take MAX_URLS_FOR_ANALYSIS ranked) competitorUrls;
       CallGenerateSeoAnalysis (take MAX_URLS_FOR_ANALYSIS ranked);
       CallCreateActionPlan sw seo]
| trace_full urls ranked sw seo :
    run_trace href competitorUrls true
      [CallCrawlSitemap href; CallRankUrls urls;
       CallGenerateSitewideAudit (take MAX_URLS_FOR_ANALYSIS ranked) competitorUrls;
       CallGenerateSeoAnalysis (take MAX_URLS_FOR_ANALYSIS ranked);
       CallCreateActionPlan sw seo; CallGenerateExecutiveSummary sw seo].

(** A point of a run that started with the calls [c0] made and the
    history [h0]: the stages of [ids] are done, the calls [t] were made
    since, the partial results are [pr], and no error is set. *)
Definition At (c0 : list call) (h0 : list HistoricalAnalysis)
    (ids : list jsstring) (t : list call) (pr : PartialResults) (a : App) : Prop :=
  stagesDone ids a
  ∧ calls a = c0 ++ t
  ∧ partialResults a = pr
  ∧ analysisHistory a = h0
  ∧ error a = None.

(** The state in which the [try] block is left by an exception. *)
Definition Failed (c0 : list call) (href : jsstring) (competitorUrls : list jsstring)
    (a : App) : Prop :=
  stagesDone [] a
  ∧ error a = None
  ∧ ∃ fin t, calls a = c0 ++ t ∧ run_trace href competitorUrls fin t.

(** The seven stages, in the order in which a run completes them. *)
Definition allDone : list jsstring :=
  [lit "summary"; lit "actionplan"; lit "content"; lit "technical";
   lit "competitor"; lit "rank"; lit "crawl"].

(** What a run that went through has published: the analyses, the plan
    and the summary are in the partial results and in the newest entry of
    the history, which is the selected one. *)
Definition Published (config : AiConfig) (data : WizardSubmitData)
    (h0 : list HistoricalAnalysis) (a : App) : Prop :=
  ∃ sw seo plan summary h,
    settled (createActionPlan services config sw seo) = inr plan
    ∧ settled (generateExecutiveSummary services config sw seo) = inr summary
    ∧ sitewideAnalysis (partialResults a) = Some sw
    ∧ seoAnalysis (partialResults a) = Some seo
    ∧ actionPlan (partialResults a) = Some plan
    ∧ executiveSummary (partialResults a) = Some summary
    ∧ analysisHistory a = take 10 (h :: h0)
    ∧ selectedAnalysisId a = Some (h_id h)
    ∧ h_sitemapUrl h = url data
    ∧ h_sitewideAnalysis h = sw ∧ h_analysis h = seo
    ∧ h_actionPlan h = plan ∧ h_executiveSummary h = summary.

(** The state in which the [try] block is left by a run that went
    through. *)
Definition Succeeded (c0 : list call) (h0 : list HistoricalAnalysis)
    (config : AiConfig) (data : WizardSubmitData) (href : jsstring)
    (competitorUrls : list jsstring) (a : App) : Prop :=
  stagesDone allDone a
  ∧ appState a = AppState.results
  ∧ error a = None
  ∧ (∃ t, calls a = c0 ++ t ∧ run_trace href competitorUrls true t)
  ∧ Published config data h0 a.

End App.

Arguments PartialResults : clear implicits.
Arguments WizardSubmitData : clear implicits.
Arguments HistoricalAnalysis : clear implicits.
Arguments AnalysesOutcome : clear implicits.
Arguments Services : clear implicits.
Arguments Browser : clear implicits.
Arguments call : clear implicits.
Arguments App : clear implicits.
Arguments reports {_ _}.
Arguments elapsed {_ _}.
Arguments settled {_ _}.

End Pipeline.

(** ** Concrete runs

    A small site, a storage that accepts every write and one that is full,
    and collaborators that answer with fixed values: the inputs on which
    the statements below are evaluated. The payloads are numbers. *)

Module Scenario.
Import Pipeline.

Definition acceptingHost : gmap jsstring (text Z Z) → jsstring → text Z Z → write_outcome :=
  fun _ _ _ => Accepted.


Definition hostnameOf : jsstring → option jsstring :=
  fun _ => Some (lit "a.com").

Definition site : jsstring := lit "https://a.com".

Definition pages : list jsstring := [lit "https://a.com/1"; lit "https://a.com/2"].

Definition emptyStorage : world Z Z := {| store := ∅; timers := []; ops := [] |}.


(** A storage that holds the analysis of [site] and [pages], made at 900. *)
Definition warmStorage : world Z Z :=
  {| store := {[ keyOf hostnameOf site pages
                 := EntryJson (entryOf hostnameOf 900 site pages 11 22 None) ]};
     timers := []; ops := [] |}.

(** A storage with room for seven texts: a write that would make it hold
    more is answered with a quota error. *)
Definition smallHost : gmap jsstring (text Z Z) → jsstring → text Z Z → write_outcome :=
  fun st key value =>
    if (size (<[key := value]> st) <=? 7)%nat then Accepted else QuotaExceeded.

(** Fifty-one stores, one per millisecond, each of its own URL list and
    each followed by its deferred callbacks. *)
Definition manyStores : list (StoreRequest Z Z) :=
  map (fun i => {| at_time := 1000 + i; req_domainUrl := site;
                   req_urls := [lit "https://a.com/" ++ decimal i];
                   req_sitewide := i; req_seo := i; req_ttl := None;
                   timers_at := 1000 + i |})
      (seqZ 0 51).

(** The storage after the first six of these stores: six entries and the
    metadata. *)
Definition sixEntries : world Z Z :=
  (storeAll acceptingHost hostnameOf (take 6 manyStores) emptyStorage).2.

(** The storage after the fifty-one stores when none of the deferred
    callbacks has run. *)
Definition crowdedStorage : world Z Z :=
  (forEach manyStores
     (fun r => setAnalysis acceptingHost hostnameOf (at_time r) (req_domainUrl r)
                 (req_urls r) (req_sitewide r) (req_seo r) (req_ttl r))
     emptyStorage).2.

Definition otherPages : list jsstring := [lit "https://a.com/3"].

(** A storage that holds an entry made at 900 and an entry made at
    700000000, a text that is no JSON under a cache key, a text under the
    key of the history, which is no cache key, and the metadata, with the
    counter at 3 and no sweep so far. *)
Definition mixedStorage : world Z Z :=
  {| store :=
       <[keyOf hostnameOf site pages
         := EntryJson (entryOf hostnameOf 900 site pages 11 22 None)]>
       (<[keyOf hostnameOf site otherPages
          := EntryJson (entryOf hostnameOf 700000000 site otherPages 33 44 None)]>
        (<[CACHE_PREFIX ++ lit ":b.com:0" := OtherText (lit "{")]>
         (<[Pipeline.HISTORY_STORAGE_KEY := OtherText (lit "[]")]>
          (<[METADATA_KEY
             := MetadataJson {| version := lit "1"; lastCleanup := 0; entries := 3 |}]>
           ∅))));
     timers := []; ops := [] |}.

Definition browser : Browser Z Z Z Z Z Z Z :=
  {| host_write := acceptingHost;
     URL_hostname := hostnameOf;
     URL_href := fun u => Some u;
     String_trim := fun s => s;
     mentionsCompetitor := fun _ => false;
     Date_toISOString := decimal;
     Date_toLocaleString := decimal;
     JSON_stringify_history := fun _ => lit "[]";
     DOMException_message := fun _ => lit "The quota has been exceeded." |}.

Definition services : Services Z Z Z Z Z Z Z Z :=
  {| crawlSitemap := fun _ =>
       {| reports := [(1, {| count := 1; total := 2; currentSitemap := None |})];
          elapsed := 5; settled := inr pages |};
     rankUrls := fun l => inr l;
     generateAnalyses := fun _ _ _ _ _ =>
       {| during := [(1, FromSeoAnalysis (lit "Analyzing pages"))];
          analyses_elapsed := 10; analyses_settled := inr (11, (22, []));
          late := [] |};
     createActionPlan := fun _ _ _ =>
       {| reports := []; elapsed := 3; settled := inr [33] |};
     generateExecutiveSummary := fun _ _ _ =>
       {| reports := []; elapsed := 3; settled := inr 44 |} |}.

(** The same collaborators, but the action plan call is rejected. *)
Definition servicesPlanFails : Services Z Z Z Z Z Z Z Z :=
  {| crawlSitemap := crawlSitemap services;
     rankUrls := rankUrls services;
     generateAnalyses := generateAnalyses services;
     createActionPlan := fun _ _ _ =>
       {| reports := []; elapsed := 3;
          settled := inl (ErrorObject (lit "The model is overloaded.")) |};
     generateExecutiveSummary := generateExecutiveSummary services |}.

(** The same collaborators, but the crawl finds no URL. *)
Definition servicesEmptyCrawl : Services Z Z Z Z Z Z Z Z :=
  {| crawlSitemap := fun _ => {| reports := []; elapsed := 5; settled := inr [] |};
     rankUrls := rankUrls services;
     generateAnalyses := generateAnalyses services;
     createActionPlan := createActionPlan services;
     generateExecutiveSummary := generateExecutiveSummary services |}.

Definition wizardData : WizardSubmitData Z Z :=
  {| sitemapUrl := lit "https://a.com/sitemap.xml"; url := site;
     competitorSitemaps := []; analysisType := 0; targetLocation := 0 |}.

(** A submission without sitemap URL. *)
Definition blankData : WizardSubmitData Z Z :=
  {| sitemapUrl := []; url := site;
     competitorSitemaps := []; analysisType := 0; targetLocation := 0 |}.

(** The application at rest, with a configured provider, at time 1000 and
    with the analysis of the site in the cache. *)
Definition warmApp : App Z Z Z Z Z Z Z Z :=
  {| error := None; analysisHistory := []; selectedAnalysisId := None;
     appState := AppState.idle; loadingPhase := crawling; crawlProgress := None;
     pipelineStages := initialStages; activityLog := [];
     partialResults := emptyResults; analysisStartTime := 0; aiConfig := Some 1;
     localStorage := warmStorage; clock := 1000; calls := [];
     pendingReports := [] |}.

(** The state of a run on [warmApp] when its crawl has returned. *)
Definition afterCrawl (collaborators : Services Z Z Z Z Z Z Z Z) : App Z Z Z Z Z Z Z Z :=
  (crawlStage browser collaborators (sitemapUrl wizardData)
              (startRun warmApp).2).2.

(** The state of the same run when the body of the [try] block is left. *)
Definition afterPipeline (collaborators : Services Z Z Z Z Z Z Z Z) : App Z Z Z Z Z Z Z Z :=
  (runPipeline browser collaborators 1 wizardData (sitemapUrl wizardData)
               (competitorUrlsOf browser wizardData) (startRun warmApp).2).2.

End Scenario.

(** * Properties *)

(** ** 32-bit arithmetic of the hash *)

Lemma ToInt32_range x : - 2 ^ 31 ≤ ToInt32 x < 2 ^ 31.
Proof.
  unfold ToInt32.
  pose proof (Z.mod_pos_bound (x + 2 ^ 31) (2 ^ 32)). lia.
Qed.

Lemma ToInt32_congr x : ∃ k, ToInt32 x = x + k * 2 ^ 32.
Proof.
  exists (- ((x + 2 ^ 31) / 2 ^ 32)). unfold ToInt32.
  rewrite Z.mod_eq by lia. lia.
Qed.

Lemma ToInt32_mod x : ToInt32 x `mod` 2 ^ 32 = x `mod` 2 ^ 32.
Proof.
  destruct (ToInt32_congr x) as [k ->]. apply Z.mod_add. lia.
Qed.

Lemma ToInt32_id x : - 2 ^ 31 ≤ x < 2 ^ 31 → ToInt32 x = x.
Proof.
  intros Hx. unfold ToInt32.
  rewrite Z.mod_small by lia. lia.
Qed.

Lemma lxor_mod_pow2 a b n :
  0 ≤ n → Z.lxor a b `mod` 2 ^ n = Z.lxor (a `mod` 2 ^ n) (b `mod` 2 ^ n).
Proof.
  intros Hn. apply Z.bits_inj'. intros i Hi.
  rewrite Z.testbit_mod_pow2, !Z.lxor_spec, !Z.testbit_mod_pow2 by lia.
  destruct (i <? n); reflexivity.
Qed.

(** The xor of two int32 values is an int32 again, so the result of [^]
    needs no further wrapping. *)
Lemma lxor_small a b n :
  0 ≤ n → 0 ≤ a < 2 ^ n → 0 ≤ b < 2 ^ n → 0 ≤ Z.lxor a b < 2 ^ n.
Proof.
  intros Hn Ha Hb.
  assert (H0 : 0 ≤ Z.lxor a b) by (apply Z.lxor_nonneg; lia).
  split; [exact H0 |].
  destruct (Z.eq_dec (Z.lxor a b) 0) as [-> | Hnz]; [lia |].
  apply Z.log2_lt_pow2; [lia |].
  pose proof (Z.log2_lxor a b ltac:(lia) ltac:(lia)) as Hlog.
  destruct (Z.eq_dec n 0) as [-> | Hn0].
  { assert (a = 0) as -> by lia. assert (b = 0) as -> by lia. done. }
  assert (Hl : ∀ c, 0 ≤ c < 2 ^ n → Z.log2 c < n).
  { intros c Hc. destruct (Z.eq_dec c 0) as [-> | ?]; [simpl; lia |].
    apply Z.log2_lt_pow2; lia. }
  pose proof (Hl a Ha). pose proof (Hl b Hb). lia.
Qed.

Lemma lxor_int32 x y :
  - 2 ^ 31 ≤ x < 2 ^ 31 → - 2 ^ 31 ≤ y < 2 ^ 31 → - 2 ^ 31 ≤ Z.lxor x y < 2 ^ 31.
Proof.
  intros Hx Hy.
  destruct (Z_lt_le_dec x 0) as [Hxn | Hxp], (Z_lt_le_dec y 0) as [Hyn | Hyp].
  - rewrite <- Z.lxor_lnot_lnot.
    pose proof (lxor_small (Z.lnot x) (Z.lnot y) 31).
    rewrite !Z.lnot_eq_pred_opp in *. lia.
  - pose proof (lxor_small (Z.lnot x) y 31) as H.
    rewrite <- Z.lnot_lxor_l in H. rewrite !Z.lnot_eq_pred_opp in H. lia.
  - pose proof (lxor_small x (Z.lnot y) 31) as H.
    rewrite <- Z.lnot_lxor_r in H. rewrite !Z.lnot_eq_pred_opp in H. lia.
  - pose proof (lxor_small x y 31). lia.
Qed.

Lemma bitxor_range a b : - 2 ^ 31 ≤ bitxor a b < 2 ^ 31.
Proof. apply lxor_int32; apply ToInt32_range. Qed.

Lemma bitxor_mod a b :
  bitxor a b `mod` 2 ^ 32 = Z.lxor (a `mod` 2 ^ 32) b `mod` 2 ^ 32.
Proof.
  unfold bitxor.
  rewrite lxor_mod_pow2, !ToInt32_mod by lia.
  rewrite (lxor_mod_pow2 (a `mod` 2 ^ 32) b) by lia.
  by rewrite Z.mod_mod by lia.
Qed.

Lemma shl_congr a k :
  0 ≤ k < 32 → ∃ j, shl a k = a * 2 ^ k + j * 2 ^ 32.
Proof.
  intros Hk. unfold shl, ToUint32.
  assert (Z.land (k `mod` 2 ^ 32) 31 = k) as ->.
  { rewrite Z.mod_small by lia.
    change 31 with (Z.ones 5). rewrite Z.land_ones by lia.
    apply Z.mod_small. lia. }
  rewrite Z.shiftl_mul_pow2 by lia.
  destruct (ToInt32_congr a) as [i ->].
  destruct (ToInt32_congr ((a + i * 2 ^ 32) * 2 ^ k)) as [j ->].
  exists (i * 2 ^ k + j). lia.
Qed.

(** One round of the loop is one FNV-1a round modulo [2 ^ 32]:
    [1 + 2 + 16 + 128 + 256 + 2 ^ 24] is the FNV prime. *)
Lemma hash_step_mod h c :
  hash_step h c `mod` 2 ^ 32
  = (Z.lxor (h `mod` 2 ^ 32) c * FNV_PRIME) `mod` 2 ^ 32.
Proof.
  unfold hash_step.
  set (x := bitxor h c).
  destruct (shl_congr x 1) as [j1 ->]; [lia |].
  destruct (shl_congr x 4) as [j4 ->]; [lia |].
  destruct (shl_congr x 7) as [j7 ->]; [lia |].
  destruct (shl_congr x 8) as [j8 ->]; [lia |].
  destruct (shl_congr x 24) as [j24 ->]; [lia |].
  replace (x + (x * 2 ^ 1 + j1 * 2 ^ 32 + (x * 2 ^ 4 + j4 * 2 ^ 32)
              + (x * 2 ^ 7 + j7 * 2 ^ 32) + (x * 2 ^ 8 + j8 * 2 ^ 32)
              + (x * 2 ^ 24 + j24 * 2 ^ 32)))
    with (x * FNV_PRIME + (j1 + j4 + j7 + j8 + j24) * 2 ^ 32)
    by (unfold FNV_PRIME; lia).
  rewrite Z.mod_add by lia.
  rewrite <- Z.mul_mod_idemp_l by lia.
  subst x. rewrite bitxor_mod.
  by rewrite Z.mul_mod_idemp_l by lia.
Qed.

(** Every intermediate value of the accumulator is an integer of magnitude
    below [2 ^ 53], so the additions of the loop are exact on numbers. *)
Lemma hash_step_exact h c : - 2 ^ 53 < hash_step h c < 2 ^ 53.
Proof.
  unfold hash_step.
  pose proof (bitxor_range h c).
  set (x := bitxor h c) in *.
  unfold shl.
  pose proof (ToInt32_range (Z.shiftl (ToInt32 x) (Z.land (ToUint32 1) 31))).
  pose proof (ToInt32_range (Z.shiftl (ToInt32 x) (Z.land (ToUint32 4) 31))).
  pose proof (ToInt32_range (Z.shiftl (ToInt32 x) (Z.land (ToUint32 7) 31))).
  pose proof (ToInt32_range (Z.shiftl (ToInt32 x) (Z.land (ToUint32 8) 31))).
  pose proof (ToInt32_range (Z.shiftl (ToInt32 x) (Z.land (ToUint32 24) 31))).
  lia.
Qed.

Lemma fold_hash_step_mod s h :
  fold_left hash_step s h `mod` 2 ^ 32
  = fold_left (fun h c => (Z.lxor h c * FNV_PRIME) `mod` 2 ^ 32) s (h `mod` 2 ^ 32).
Proof.
  revert h. induction s as [| c s IH]; intros h; simpl; [done |].
  by rewrite IH, hash_step_mod.
Qed.

Lemma simpleHash_fnv1a32 s : simpleHash s = toString36 (fnv1a32 s).
Proof.
  unfold simpleHash, ushr0, ToUint32, fnv1a32.
  by rewrite fold_hash_step_mod.
Qed.

(** [toString36] writes a numeral that reads back as the number, so two
    fingerprints are equal exactly when the two 32-bit hashes are. *)
Lemma digit36_val_digit36 d : 0 ≤ d < 36 → digit36_val (digit36 d) = d.
Proof.
  intros Hd. unfold digit36_val, digit36.
  destruct (Z.ltb_spec d 10).
  - destruct (Z.ltb_spec (48 + d) 58); lia.
  - destruct (Z.ltb_spec (87 + d) 58); lia.
Qed.

Lemma digits36_S fuel n acc :
  digits36 (S fuel) n acc
  = if n / 36 =? 0 then digit36 (n `mod` 36) :: acc
    else digits36 fuel (n / 36) (digit36 (n `mod` 36) :: acc).
Proof. reflexivity. Qed.

Lemma digits36_spec fuel : ∀ n acc,
  0 ≤ n < 2 ^ Z.of_nat (S fuel) →
  ∃ ds, digits36 (S fuel) n acc = ds ++ acc ∧
        ∀ a, fold_left (fun acc c => acc * 36 + digit36_val c) ds a
             = a * 36 ^ Z.of_nat (length ds) + n.
Proof.
  induction fuel as [| fuel IH]; intros n acc Hn.
  - exists [digit36 (n `mod` 36)]. simpl.
    assert (n / 36 = 0) as -> by (apply Z.div_small; simpl in Hn; lia).
    split; [done |]. intros a.
    rewrite digit36_val_digit36 by (apply Z.mod_pos_bound; lia).
    rewrite Z.mod_small by (simpl in Hn; lia). lia.
  - rewrite digits36_S.
    pose proof (Z.mod_pos_bound n 36 ltac:(lia)) as Hmod.
    pose proof (Z.div_mod n 36 ltac:(lia)) as Hdiv.
    destruct (Z.eqb_spec (n / 36) 0) as [Hq | Hq].
    + exists [digit36 (n `mod` 36)]. split; [done |]. intros a. simpl.
      rewrite digit36_val_digit36 by done. lia.
    + destruct (IH (n / 36) (digit36 (n `mod` 36) :: acc)) as (ds & Heq & Hval).
      { split; [apply Z.div_pos; lia |].
        apply Z.div_lt_upper_bound; [lia |].
        rewrite (Nat2Z.inj_succ (S fuel)), Z.pow_succ_r in Hn by lia. lia. }
      exists (ds ++ [digit36 (n `mod` 36)]). split.
      * rewrite Heq. by rewrite <- app_assoc.
      * intros a. rewrite fold_left_app, Hval. simpl.
        rewrite digit36_val_digit36 by done.
        rewrite length_app, Nat2Z.inj_add. simpl length.
        rewrite Z.pow_add_r by lia. lia.
Qed.

Lemma parse36_toString36 n : 0 ≤ n → parse36 (toString36 n) = n.
Proof.
  intros Hn. unfold parse36, toString36.
  destruct (digits36_spec (Z.to_nat (Z.log2 n)) n []) as (ds & -> & Hval).
  - split; [done |].
    rewrite Nat2Z.inj_succ, Z2Nat.id by apply Z.log2_nonneg.
    destruct (Z.eq_dec n 0) as [-> | ?]; [done |].
    apply Z.log2_spec. lia.
  - rewrite app_nil_r, Hval. lia.
Qed.

Lemma toString36_inj n m : 0 ≤ n → 0 ≤ m → toString36 n = toString36 m → n = m.
Proof.
  intros Hn Hm Heq.
  rewrite <- (parse36_toString36 n), <- (parse36_toString36 m) by done.
  by rewrite Heq.
Qed.

Lemma fnv1a32_range s : 0 ≤ fnv1a32 s < 2 ^ 32.
Proof.
  unfold fnv1a32.
  assert (H : ∀ h, 0 ≤ h < 2 ^ 32 →
    0 ≤ fold_left (fun h c => (Z.lxor h c * FNV_PRIME) `mod` 2 ^ 32) s h < 2 ^ 32).
  { induction s as [| c s IH]; intros h Hh; simpl; [done |].
    apply IH. apply Z.mod_pos_bound. lia. }
  apply H. unfold FNV_OFFSET_BASIS. lia.
Qed.

(** ** The order on strings and the sort *)

Lemma str_leb_refl a : str_leb a a = true.
Proof.
  induction a as [| x a IH]; simpl; [done |].
  by rewrite Z.ltb_irrefl.
Qed.

Lemma str_leb_total a b : str_leb a b = true ∨ str_leb b a = true.
Proof.
  revert b. induction a as [| x a IH]; intros [| y b]; simpl; auto.
  destruct (Z.ltb_spec x y), (Z.ltb_spec y x); auto; lia.
Qed.

Lemma str_leb_antisym a b : str_leb a b = true → str_leb b a = true → a = b.
Proof.
  revert b. induction a as [| x a IH]; intros [| y b]; simpl; try done.
  destruct (Z.ltb_spec x y), (Z.ltb_spec y x); try done; try lia.
  intros Hab Hba. assert (x = y) as -> by lia. f_equal. by apply IH.
Qed.

Lemma str_leb_trans a b c :
  str_leb a b = true → str_leb b c = true → str_leb a c = true.
Proof.
  revert b c. induction a as [| x a IH]; intros [| y b] [| z c]; simpl; try done.
  destruct (Z.ltb_spec x y), (Z.ltb_spec y x), (Z.ltb_spec y z), (Z.ltb_spec z y),
    (Z.ltb_spec x z), (Z.ltb_spec z x); try done; try lia.
  apply IH.
Qed.

#[export] Instance str_le_refl : Reflexive str_le.
Proof. intros a. apply str_leb_refl. Qed.
#[export] Instance str_le_trans : Transitive str_le.
Proof. intros a b c. apply str_leb_trans. Qed.
#[export] Instance str_le_antisym : AntiSymm (=) str_le.
Proof. intros a b. apply str_leb_antisym. Qed.
#[export] Instance str_le_total : Total str_le.
Proof. intros a b. apply str_leb_total. Qed.

Section SortFacts.
Context {A : Type} (leb : A → A → bool).
Let R : relation A := fun x y => leb x y = true.

Lemma insert_sorted_Permutation x l : insert_sorted leb x l ≡ₚ x :: l.
Proof.
  induction l as [| y l IH]; simpl; [done |].
  destruct (leb x y); [done |].
  rewrite IH. apply perm_swap.
Qed.

Lemma Array_sort_Permutation l : Array_sort leb l ≡ₚ l.
Proof.
  induction l as [| x l IH]; simpl; [done |].
  by rewrite insert_sorted_Permutation, IH.
Qed.

Lemma length_Array_sort l : length (Array_sort leb l) = length l.
Proof. apply Permutation_length, Array_sort_Permutation. Qed.

Context `{!Total R}.

Lemma HdRel_insert_sorted a x l :
  R a x → HdRel R a l → HdRel R a (insert_sorted leb x l).
Proof.
  intros Hax Hal. destruct l as [| y l]; simpl; [by constructor |].
  destruct (leb x y); constructor; [done |].
  by inversion Hal.
Qed.

Lemma Sorted_insert_sorted x l :
  Sorted R l → Sorted R (insert_sorted leb x l).
Proof using Type*.
  induction 1 as [| y l Hl IH Hhd]; simpl; [by repeat constructor |].
  destruct (leb x y) eqn:Hxy.
  - constructor; [by constructor |]. by constructor.
  - constructor; [done |].
    apply HdRel_insert_sorted; [| done].
    destruct (total R x y) as [Hc | Hc]; [| done].
    unfold R in Hc. congruence.
Qed.

Lemma Sorted_Array_sort l : Sorted R (Array_sort leb l).
Proof using Type*.
  induction l as [| x l IH]; simpl; [constructor |].
  by apply Sorted_insert_sorted.
Qed.
End SortFacts.

(** Sorting by code units forgets the order of the input. *)
Lemma Array_sort_str_perm (l l' : list jsstring) :
  l ≡ₚ l' → Array_sort str_leb l = Array_sort str_leb l'.
Proof.
  intros Hperm.
  apply (Sorted_unique str_le).
  - apply (Sorted_Array_sort str_leb).
  - apply (Sorted_Array_sort str_leb).
  - by rewrite !Array_sort_Permutation.
Qed.

(** ** The fingerprint *)

(** The fingerprint is the base-36 numeral of the FNV-1a hash of the sorted
    and joined list. *)
Lemma generateUrlsHash_fnv1a32 urls :
  generateUrlsHash urls
  = toString36 (fnv1a32 (Array_join (lit "|") (Array_sort str_leb urls))).
Proof. unfold generateUrlsHash. apply simpleHash_fnv1a32. Qed.

(** Two fingerprints are equal exactly when the two 32-bit hashes are. *)
Lemma generateUrlsHash_eq_iff urls urls' :
  generateUrlsHash urls = generateUrlsHash urls'
  ↔ fnv1a32 (Array_join (lit "|") (Array_sort str_leb urls))
    = fnv1a32 (Array_join (lit "|") (Array_sort str_leb urls')).
Proof.
  rewrite !generateUrlsHash_fnv1a32. split; [| by intros ->].
  apply toString36_inj; apply fnv1a32_range.
Qed.


(** C1, the claim as stated fails: the list is hashed as given, a repeated
    URL is not removed, and the fingerprint of [url; url] is not the
    fingerprint of [url]. *)
Lemma generateUrlsHash_duplicate_counterexample :
  let url := lit "https://a.com/1" in
  let urls := [url] in
  url ∈ urls ∧ generateUrlsHash (url :: urls) ≠ generateUrlsHash urls.
Proof.
  split; [by apply list_elem_of_here |].
  vm_compute. discriminate.
Qed.

(** C1, amended: the fingerprint of a list of URLs is the same for every
    permutation of the list. Duplicates are not removed, so the fingerprint
    stands for the set of URLs when the list is duplicate-free. *)
Theorem generateUrlsHash_permutation (urls urls' : list jsstring) :
  urls ≡ₚ urls' → generateUrlsHash urls = generateUrlsHash urls'.
Proof.
  intros Hperm. unfold generateUrlsHash.
  by rewrite (Array_sort_str_perm urls urls').
Qed.

Lemma generateUrlsHash_permutation_witness :
  generateUrlsHash [lit "https://a.com/1"; lit "https://a.com/2"]
  = generateUrlsHash [lit "https://a.com/2"; lit "https://a.com/1"].
Proof.
  apply (generateUrlsHash_permutation
           [lit "https://a.com/1"; lit "https://a.com/2"]
           [lit "https://a.com/2"; lit "https://a.com/1"]).
  apply perm_swap.
Defined.

(** Two duplicate-free lists with the same members have the same
    fingerprint: this is the case of the orchestrator, whose list is the
    content of a [Set]. *)
Corollary generateUrlsHash_same_set (urls urls' : list jsstring) :
  NoDup urls → NoDup urls' → (∀ u, u ∈ urls ↔ u ∈ urls') →
  generateUrlsHash urls = generateUrlsHash urls'.
Proof.
  intros Hnd Hnd' Hmem. unfold generateUrlsHash.
  rewrite (Array_sort_str_perm urls urls'); [done |].
  by apply NoDup_Permutation.
Qed.

(** The example of the specification: a one-element set and a two-element
    set get different fingerprints. *)
Example generateUrlsHash_example_differs :
  generateUrlsHash [lit "https://a.com/1"]
  ≠ generateUrlsHash [lit "https://a.com/1"; lit "https://a.com/2"].
Proof. vm_compute. discriminate. Qed.




(** ** The cache: what each function does to the world *)

Ltac munfold :=
  unfold mbind, mret, M_bind, M_ret, bind, ret, throw, try_catch in *.

Section StoreFacts.
Context {SA SR : Type}.
Implicit Types (w : world SA SR) (st : gmap jsstring (text SA SR)).
Implicit Types (key : jsstring) (now : Z).

Lemma getMetadata_run now w :
  getMetadata now w = (inr (metadataAt now (store w)), w).
Proof.
  unfold getMetadata, metadataAt, getItem. munfold.
  destruct (store w !! METADATA_KEY) as [[e | m | [| c raw]] |]; reflexivity.
Qed.

Lemma collectEntry_run key w :
  collectEntry key w = (inr (entryAt (store w) key), w).
Proof.
  unfold collectEntry, entryAt, getItem. munfold.
  destruct (isCacheKey key); [| done].
  destruct (store w !! key) as [[e | m | [| c raw]] |]; reflexivity.
Qed.

Lemma collectEntries_run keys w :
  collectEntries keys w = (inr (flat_map (entryAt (store w)) keys), w).
Proof.
  induction keys as [| key keys IH]; [done |].
  cbn [collectEntries flat_map]. munfold.
  by rewrite collectEntry_run, IH.
Qed.

Lemma storageKeys_scan w :
  (keys ← storageKeys; collectEntries keys) w = (inr (scan (store w)), w).
Proof.
  unfold storageKeys. munfold. apply collectEntries_run.
Qed.

Lemma forEach_removeItem_run (l : list (jsstring * Z)) w :
  forEach l (fun e => removeItem e.1) w = (inr tt, afterRemoves l.*1 w).
Proof.
  revert w. induction l as [| e l IH]; intros w; [done |].
  cbn [forEach]. munfold. unfold removeItem at 1.
  rewrite IH. reflexivity.
Qed.

Lemma forEach_removeQuietly_run (l : list (jsstring * Z)) w :
  forEach l (fun e => removeQuietly e.1) w = (inr tt, afterRemoves l.*1 w).
Proof.
  revert w. induction l as [| e l IH]; intros w; [done |].
  cbn [forEach]. munfold. unfold removeQuietly at 1, removeItem at 1. munfold.
  rewrite IH. reflexivity.
Qed.

Lemma store_afterRemoves keys w :
  store (afterRemoves keys w) = foldl (fun st k => delete k st) (store w) keys.
Proof.
  revert w. induction keys as [| k keys IH]; intros w; [done |].
  simpl. by rewrite IH.
Qed.

Lemma timers_afterRemoves keys w : timers (afterRemoves keys w) = timers w.
Proof.
  revert w. induction keys as [| k keys IH]; intros w; [done |].
  simpl. by rewrite IH.
Qed.

Lemma ops_afterRemoves keys w :
  ops (afterRemoves keys w) = ops w ++ map OpRemoveItem keys.
Proof.
  revert w. induction keys as [| k keys IH]; intros w; simpl.
  - by rewrite app_nil_r.
  - rewrite IH. simpl. by rewrite <- app_assoc.
Qed.

Lemma lookup_foldl_delete st keys k :
  foldl (fun st k => delete k st) st keys !! k
  = if decide (k ∈ keys) then None else st !! k.
Proof.
  revert st. induction keys as [| k' keys IH]; intros st; cbn [foldl].
  - by rewrite decide_False by apply not_elem_of_nil.
  - rewrite IH. destruct (decide (k ∈ keys)) as [Hin | Hnin].
    + by rewrite decide_True by (by right).
    + destruct (decide (k = k')) as [-> | Hne].
      * rewrite decide_True by (by left). apply lookup_delete_eq.
      * rewrite decide_False by (by intros [-> | ?]%elem_of_cons).
        by apply lookup_delete_ne.
Qed.

Lemma clearOldestEntries_run count w :
  clearOldestEntries count w = (inr tt, afterRemoves (victims count (store w)) w).
Proof.
  unfold clearOldestEntries, victims, storageKeys, scan. munfold.
  rewrite collectEntries_run. cbn [store].
  by rewrite forEach_removeItem_run.
Qed.

(** *** Cache keys *)

Lemma startsWith_app (p s : jsstring) : startsWith (p ++ s) p = true.
Proof.
  induction p as [| c p IH]; simpl; [by destruct s |].
  by rewrite decide_True.
Qed.

Lemma generateCacheKey_not_metadata (d h : jsstring) :
  generateCacheKey d h ≠ METADATA_KEY.
Proof.
  unfold generateCacheKey, METADATA_KEY. intros Heq.
  apply app_inv_head in Heq.
  assert (Hin : 58 ∈ drop 1 (lit ":" ++ d ++ lit ":" ++ h)).
  { change (drop 1 (lit ":" ++ d ++ lit ":" ++ h)) with (d ++ 58 :: h).
    rewrite elem_of_app. right. by left. }
  rewrite Heq in Hin. vm_compute in Hin.
  repeat (apply elem_of_cons in Hin as [Hin | Hin]; [discriminate |]).
  by apply elem_of_nil in Hin.
Qed.

Lemma isCacheKey_generateCacheKey (d h : jsstring) :
  isCacheKey (generateCacheKey d h) = true.
Proof.
  unfold isCacheKey. rewrite !andb_true_iff, !bool_decide_eq_true.
  split; [split |].
  - unfold generateCacheKey, CACHE_PREFIX. by vm_compute.
  - apply startsWith_app.
  - apply generateCacheKey_not_metadata.
Qed.

Lemma isCacheKey_metadata : isCacheKey METADATA_KEY = false.
Proof.
  unfold isCacheKey. rewrite (bool_decide_eq_false_2 (METADATA_KEY ≠ METADATA_KEY)).
  - apply andb_false_r.
  - by intros H.
Qed.

(** *** The scan of the cache entries *)

Lemma elem_of_entryAt st key k ts :
  (k, ts) ∈ entryAt st key
  ↔ k = key ∧ isCacheKey k = true
    ∧ ∃ e, st !! k = Some (EntryJson e) ∧ timestamp e = ts.
Proof.
  unfold entryAt. split.
  - destruct (isCacheKey key) eqn:Hck; [| by intros ?%elem_of_nil].
    destruct (st !! key) as [[e | m | raw] |] eqn:Hl;
      try (by intros ?%elem_of_nil).
    intros Hin%list_elem_of_singleton. injection Hin as -> ->. eauto.
  - intros (-> & Hck & e & Hl & <-). rewrite Hck, Hl. by left.
Qed.

Lemma elem_of_flat_map_entryAt st (l : list jsstring) k ts :
  (k, ts) ∈ flat_map (entryAt st) l
  ↔ k ∈ l ∧ isCacheKey k = true
    ∧ ∃ e, st !! k = Some (EntryJson e) ∧ timestamp e = ts.
Proof.
  induction l as [| x l IH]; cbn [flat_map].
  - split; [by intros ?%elem_of_nil | by intros [?%elem_of_nil _]].
  - rewrite elem_of_app, IH, elem_of_entryAt, elem_of_cons. naive_solver.
Qed.

Lemma elem_of_scan st k ts :
  (k, ts) ∈ scan st
  ↔ isCacheKey k = true ∧ ∃ e, st !! k = Some (EntryJson e) ∧ timestamp e = ts.
Proof.
  unfold scan. rewrite elem_of_flat_map_entryAt. split; [naive_solver |].
  intros (Hck & e & Hl & Hts). split; [| eauto].
  apply list_elem_of_fmap. exists (k, EntryJson e). split; [done |].
  by apply elem_of_map_to_list.
Qed.

Lemma NoDup_flat_map_entryAt st (l : list jsstring) :
  NoDup l → NoDup (flat_map (entryAt st) l).*1.
Proof.
  induction 1 as [| x l Hx Hl IH]; cbn [flat_map]; [constructor |].
  rewrite fmap_app. apply NoDup_app. split; [| split; [| done]].
  - unfold entryAt. destruct (isCacheKey x); [| constructor].
    destruct (st !! x) as [[e | m | raw] |]; try constructor.
    + by intros ?%elem_of_nil.
    + constructor.
  - intros k Hk1 Hk2. apply Hx.
    apply list_elem_of_fmap in Hk1 as ([k1 t1] & -> & Hin1).
    apply list_elem_of_fmap in Hk2 as ([k2 t2] & Heq & Hin2).
    simpl in Heq. subst k2.
    apply elem_of_entryAt in Hin1 as (-> & _).
    by apply elem_of_flat_map_entryAt in Hin2 as (Hin2 & _).
Qed.

Lemma NoDup_scan_keys st : NoDup (scan st).*1.
Proof. apply NoDup_flat_map_entryAt, NoDup_fst_map_to_list. Qed.

Lemma NoDup_scan st : NoDup (scan st).
Proof. eapply NoDup_fmap_1, NoDup_scan_keys. Qed.

(** Two entries of a scan with the same key are the same entry. *)
Lemma scan_key_inj st k ts ts' :
  (k, ts) ∈ scan st → (k, ts') ∈ scan st → ts = ts'.
Proof.
  rewrite !elem_of_scan. intros (_ & e & He & <-) (_ & e' & He' & <-).
  congruence.
Qed.

Lemma scan_Permutation st (l : list (jsstring * Z)) :
  NoDup l → (∀ k ts, (k, ts) ∈ l ↔ (k, ts) ∈ scan st) → scan st ≡ₚ l.
Proof.
  intros Hnd Hmem. apply NoDup_Permutation; [apply NoDup_scan | done |].
  intros [k ts]. by rewrite Hmem.
Qed.

(** The metadata key is not a cache key: writing the metadata leaves the
    scan as it is. *)
Lemma elem_of_scan_insert_metadata st (v : text SA SR) k ts :
  (k, ts) ∈ scan (<[METADATA_KEY := v]> st) ↔ (k, ts) ∈ scan st.
Proof.
  rewrite !elem_of_scan.
  split; intros (Hck & e & Hl & Hts); (split; [done |]); exists e; (split; [| done]).
  - rewrite lookup_insert_ne in Hl; [done |].
    intros <-. by rewrite isCacheKey_metadata in Hck.
  - rewrite lookup_insert_ne; [done |].
    intros <-. by rewrite isCacheKey_metadata in Hck.
Qed.

Lemma elem_of_scan_insert_entry st key e k ts :
  isCacheKey key = true →
  (k, ts) ∈ scan (<[key := EntryJson e]> st)
  ↔ (k = key ∧ ts = timestamp e) ∨ (k ≠ key ∧ (k, ts) ∈ scan st).
Proof.
  intros Hkey. rewrite !elem_of_scan. split.
  - intros (Hck & e' & Hl & Hts).
    destruct (decide (k = key)) as [-> | Hne].
    + rewrite lookup_insert_eq in Hl. injection Hl as <-. by left.
    + rewrite lookup_insert_ne in Hl by done. right. eauto.
  - intros [[-> ->] | (Hne & Hck & e' & Hl & Hts)].
    + split; [done |]. exists e. by rewrite lookup_insert_eq.
    + split; [done |]. exists e'. by rewrite lookup_insert_ne.
Qed.

Lemma elem_of_scan_deletes st (keys : list jsstring) k ts :
  (k, ts) ∈ scan (foldl (fun st k => delete k st) st keys)
  ↔ (k ∉ keys) ∧ (k, ts) ∈ scan st.
Proof.
  rewrite !elem_of_scan, lookup_foldl_delete.
  destruct (decide (k ∈ keys)); naive_solver.
Qed.

Lemma issued_app w (l : list (storage_op SA SR)) w' :
  ops w' = ops w ++ l → issued w w' = l.
Proof. intros H. unfold issued. rewrite H. apply drop_app_length. Qed.

Lemma scan_insert_entry_Permutation st key e :
  isCacheKey key = true →
  scan (<[key := EntryJson e]> st)
  ≡ₚ (key, timestamp e) :: filter (fun x => x.1 ≠ key) (scan st).
Proof.
  intros Hkey. apply scan_Permutation.
  - constructor.
    + rewrite list_elem_of_filter. by intros [? _].
    + apply NoDup_filter, NoDup_scan.
  - intros k ts.
    rewrite elem_of_scan_insert_entry, elem_of_cons, list_elem_of_filter by done.
    simpl. naive_solver.
Qed.

Lemma scan_split st key ts :
  (key, ts) ∈ scan st →
  scan st ≡ₚ (key, ts) :: filter (fun x => x.1 ≠ key) (scan st).
Proof.
  intros Hin. apply scan_Permutation.
  - constructor.
    + rewrite list_elem_of_filter. by intros [? _].
    + apply NoDup_filter, NoDup_scan.
  - intros k ts'. rewrite elem_of_cons, list_elem_of_filter. simpl. split.
    + intros [[= -> ->] | [_ ?]]; done.
    + intros Hin'. destruct (decide (k = key)) as [-> | Hne]; [| by right].
      left. f_equal. by apply (scan_key_inj st key).
Qed.

Lemma scan_filter_absent st key :
  (∀ ts, (key, ts) ∉ scan st) →
  filter (fun x => x.1 ≠ key) (scan st) ≡ₚ scan st.
Proof.
  intros Habs. symmetry. apply scan_Permutation.
  - apply NoDup_filter, NoDup_scan.
  - intros k ts. rewrite list_elem_of_filter. simpl. split; [| naive_solver].
    intros [_ ?]. done.
Qed.

Lemma length_scan_insert_fresh st key e :
  isCacheKey key = true → (∀ ts, (key, ts) ∉ scan st) →
  length (scan (<[key := EntryJson e]> st)) = S (length (scan st)).
Proof.
  intros Hkey Habs.
  rewrite (scan_insert_entry_Permutation st key e Hkey). simpl.
  by rewrite (scan_filter_absent st key Habs).
Qed.


Lemma scan_insert_metadata st (v : text SA SR) :
  scan (<[METADATA_KEY := v]> st) ≡ₚ scan st.
Proof.
  apply NoDup_Permutation; [apply NoDup_scan | apply NoDup_scan |].
  intros [k ts]. apply elem_of_scan_insert_metadata.
Qed.


(** The counter does not depend on the time of the reading. *)
Lemma entries_metadataAt now now' st :
  entries (metadataAt now st) = entries (metadataAt now' st).
Proof.
  unfold metadataAt.
  by destruct (st !! METADATA_KEY) as [[e | m | raw] |].
Qed.

Lemma metadataAt_insert_metadata now st m :
  metadataAt now (<[METADATA_KEY := MetadataJson m]> st) = m.
Proof. unfold metadataAt. by rewrite lookup_insert_eq. Qed.

Lemma metadataAt_insert_ne now st key (v : text SA SR) :
  key ≠ METADATA_KEY → metadataAt now (<[key := v]> st) = metadataAt now st.
Proof. intros Hne. unfold metadataAt. by rewrite lookup_insert_ne. Qed.


End StoreFacts.

Section CacheFacts.
Context {SA SR : Type}.
Context (host : gmap jsstring (text SA SR) → jsstring → text SA SR → write_outcome).
Context (hostname : jsstring → option jsstring).
Implicit Types (w : world SA SR) (st : gmap jsstring (text SA SR)).
Implicit Types (key : jsstring) (now : Z).

Lemma setItem_quiet_run key (v : text SA SR) w :
  try_catch (setItem host key v) (fun _ => ret tt) w
  = (inr tt, afterWrite host key v w).
Proof.
  unfold setItem, afterWrite. munfold.
  destruct (host (store w) key v); reflexivity.
Qed.

Lemma setItem_run key (v : text SA SR) w :
  setItem host key v w
  = (match host (store w) key v with
     | Accepted => inr tt
     | QuotaExceeded => inl QuotaExceededError
     | Refused => inl StorageError
     end, afterWrite host key v w).
Proof.
  unfold setItem, afterWrite.
  destruct (host (store w) key v); reflexivity.
Qed.

Lemma updateMetadata_run now u w :
  updateMetadata host now u w
  = (inr tt, afterWrite host METADATA_KEY
               (MetadataJson (applyUpdate (metadataAt now (store w)) u)) w).
Proof.
  unfold updateMetadata. munfold.
  rewrite getMetadata_run. apply setItem_quiet_run.
Qed.

Lemma getAnalysis_run now domainUrl urls w :
  getAnalysis hostname now domainUrl urls w
  = let key := keyOf hostname domainUrl urls in
    let w1 := withTimer CleanupExpiredEntries w in
    match store w !! key with
    | Some (EntryJson e) =>
        if now - timestamp e >? ttl e
        then (inr None, afterRemove w1 key)
        else (inr (Some (sitewide e, seo e)), w1)
    | _ => (inr None, w1)
    end.
Proof.
  unfold getAnalysis, keyOf, setTimeout, getItem, removeItem. munfold.
  cbn [store].
  destruct (store w !! _) as [[e | m | [| c raw]] |]; try reflexivity.
  cbn. destruct (now - timestamp e >? ttl e); reflexivity.
Qed.

Lemma setAnalysis_run now domainUrl urls sw sr ttl w :
  setAnalysis host hostname now domainUrl urls sw sr ttl w
  = let key := keyOf hostname domainUrl urls in
    let E := EntryJson (entryOf hostname now domainUrl urls sw sr ttl) in
    let w1 := afterWrite host key E w in
    match host (store w) key E with
    | Accepted =>
        let m := metadataAt now (store w1) in
        let u := {| set_lastCleanup := None; set_entries := Some (entries m + 1) |} in
        (inr tt, withTimer EnforceCacheLimit
                   (afterWrite host METADATA_KEY (MetadataJson (applyUpdate m u)) w1))
    | QuotaExceeded =>
        (inr tt, afterWrite host key E (afterRemoves (victims 5 (store w1)) w1))
    | Refused => (inr tt, w1)
    end.
Proof.
  unfold setAnalysis, keyOf, entryOf.
  set (key := generateCacheKey _ _). set (E := EntryJson _).
  unfold try_catch at 1. unfold mbind, M_bind. unfold bind at 1.
  rewrite setItem_run.
  destruct (host (store w) key E) eqn:Hw; cbn zeta.
  - unfold bind. rewrite getMetadata_run, updateMetadata_run. reflexivity.
  - unfold bind. rewrite clearOldestEntries_run, setItem_quiet_run. reflexivity.
  - reflexivity.
Qed.

Lemma clearAnalysis_run now domainUrl urls w :
  clearAnalysis host hostname now domainUrl urls w
  = let w1 := afterRemove w (keyOf hostname domainUrl urls) in
    let m := metadataAt now (store w1) in
    let u := {| set_lastCleanup := None;
                set_entries := Some (Z.max 0 (entries m - 1)) |} in
    (inr tt, afterWrite host METADATA_KEY (MetadataJson (applyUpdate m u)) w1).
Proof.
  unfold clearAnalysis, keyOf, removeItem. munfold.
  rewrite getMetadata_run, updateMetadata_run. reflexivity.
Qed.

Lemma enforceCacheLimit_run now w :
  enforceCacheLimit host now w
  = let sorted := sortByTimestamp (scan (store w)) in
    let toRemove := Z.of_nat (length sorted) - MAX_CACHE_SIZE in
    if (entries (metadataAt now (store w)) <=? MAX_CACHE_SIZE) || negb (0 <? toRemove)
    then (inr tt, w)
    else
      let w1 := afterRemoves (take (Z.to_nat toRemove) sorted).*1 w in
      let u := {| set_lastCleanup := None; set_entries := Some MAX_CACHE_SIZE |} in
      (inr tt, afterWrite host METADATA_KEY
                 (MetadataJson (applyUpdate (metadataAt now (store w1)) u)) w1).
Proof.
  unfold enforceCacheLimit. unfold mbind, M_bind, bind at 1.
  rewrite getMetadata_run.
  destruct (entries (metadataAt now (store w)) <=? MAX_CACHE_SIZE); [done |].
  cbn [orb]. unfold storageKeys, scan. munfold.
  rewrite collectEntries_run. cbn [store].
  destruct (0 <? _); cbn [negb]; [| done].
  rewrite forEach_removeQuietly_run, updateMetadata_run. reflexivity.
Qed.

Lemma runTimers_enforce now w :
  timers w = [EnforceCacheLimit] →
  runTimers host now w
  = enforceCacheLimit host now {| store := store w; timers := []; ops := ops w |}.
Proof.
  intros Ht. unfold runTimers. rewrite Ht. cbn [forEach runTimer]. munfold.
  by destruct (enforceCacheLimit _ _ _) as [[e | []] w'].
Qed.

Lemma isCacheKey_keyOf domainUrl urls :
  isCacheKey (keyOf hostname domainUrl urls) = true.
Proof. apply isCacheKey_generateCacheKey. Qed.

Lemma keyOf_not_metadata domainUrl urls :
  keyOf hostname domainUrl urls ≠ METADATA_KEY.
Proof. apply generateCacheKey_not_metadata. Qed.

(** *** Simple facts about the world transformers *)

Lemma ops_afterWrite key (v : text SA SR) w :
  ops (afterWrite host key v w)
  = ops w ++ [OpSetItem key v (host (store w) key v)].
Proof. reflexivity. Qed.

Lemma store_afterWrite_accepted key (v : text SA SR) w :
  host (store w) key v = Accepted →
  store (afterWrite host key v w) = <[key := v]> (store w).
Proof. intros H. unfold afterWrite. cbn [store]. by rewrite H. Qed.

Lemma store_afterWrite_rejected key (v : text SA SR) w :
  host (store w) key v ≠ Accepted →
  store (afterWrite host key v w) = store w.
Proof.
  intros H. unfold afterWrite. cbn [store].
  by destruct (host (store w) key v).
Qed.

Lemma lookup_afterWrite_ne key (v : text SA SR) w k :
  k ≠ key → store (afterWrite host key v w) !! k = store w !! k.
Proof.
  intros Hne. unfold afterWrite. cbn [store].
  destruct (host (store w) key v); [| done | done].
  by apply lookup_insert_ne.
Qed.

Lemma setAnalysis_returns now domainUrl urls sw sr ttl w :
  (setAnalysis host hostname now domainUrl urls sw sr ttl w).1 = inr tt.
Proof.
  rewrite setAnalysis_run. cbn zeta.
  by destruct (host (store w) _ _).
Qed.

(** *** The lookup *)


(** *** Store, then lookup *)


End CacheFacts.

(** ** The sort by timestamp *)

#[export] Instance ts_le_total : Total ts_le.
Proof.
  intros a b. unfold ts_le.
  destruct (Z.leb_spec a.2 b.2), (Z.leb_spec b.2 a.2); auto; lia.
Qed.

#[export] Instance ts_le_trans : Transitive ts_le.
Proof.
  intros a b c. unfold ts_le. rewrite !Z.leb_le. lia.
Qed.

Lemma sortByTimestamp_Permutation l : sortByTimestamp l ≡ₚ l.
Proof. apply Array_sort_Permutation. Qed.

Lemma length_sortByTimestamp l : length (sortByTimestamp l) = length l.
Proof. apply length_Array_sort. Qed.

Lemma sortByTimestamp_StronglySorted l : StronglySorted ts_le (sortByTimestamp l).
Proof.
  apply Sorted_StronglySorted; [apply _ |].
  apply (Sorted_Array_sort (fun a b : jsstring * Z => a.2 <=? b.2)).
Qed.

(** What the sort puts first is not younger than what it puts after. *)
Lemma sortByTimestamp_take_drop l n a b :
  a ∈ take n (sortByTimestamp l) → b ∈ drop n (sortByTimestamp l) → a.2 ≤ b.2.
Proof.
  intros Ha Hb.
  pose proof (sortByTimestamp_StronglySorted l) as Hs.
  rewrite <- (take_drop n (sortByTimestamp l)) in Hs.
  apply Z.leb_le.
  exact (StronglySorted_app_1_elem_of ts_le _ _ a b Hs Ha Hb).
Qed.

Lemma elem_of_take_drop {A} (l : list A) n x :
  x ∈ l → x ∈ take n l ∨ x ∈ drop n l.
Proof.
  intros Hx. rewrite <- (take_drop n l) in Hx.
  by apply elem_of_app in Hx.
Qed.

Lemma elem_of_take_l {A} (l : list A) n x : x ∈ take n l → x ∈ l.
Proof.
  intros Hx. rewrite <- (take_drop n l). apply elem_of_app. by left.
Qed.

Lemma elem_of_drop_l {A} (l : list A) n x : x ∈ drop n l → x ∈ l.
Proof.
  intros Hx. rewrite <- (take_drop n l). apply elem_of_app. by right.
Qed.

Section CacheClaims.
Context {SA SR : Type}.
Context (host : gmap jsstring (text SA SR) → jsstring → text SA SR → write_outcome).
Context (hostname : jsstring → option jsstring).
Implicit Types (w : world SA SR) (st : gmap jsstring (text SA SR)).
Implicit Types (key : jsstring) (now : Z).

(** The keys [clearOldestEntries] removes are keys of the oldest entries. *)
Lemma victims_oldest count st k ts k' ts' :
  (k, ts) ∈ scan st → k ∈ victims count st →
  (k', ts') ∈ scan st → k' ∉ victims count st →
  ts ≤ ts'.
Proof.
  unfold victims. set (n := Z.to_nat _).
  intros Hk Hkv Hk' Hk'v.
  apply list_elem_of_fmap in Hkv as ([k0 ts0] & Heq & Hin). simpl in Heq. subst k0.
  assert (ts0 = ts) as ->.
  { apply (scan_key_inj st k); [| done].
    rewrite <- (sortByTimestamp_Permutation (scan st)).
    by eapply elem_of_take_l. }
  assert (Hd : (k', ts') ∈ drop n (sortByTimestamp (scan st))).
  { rewrite <- (sortByTimestamp_Permutation (scan st)) in Hk'.
    destruct (elem_of_take_drop _ n _ Hk') as [Ht | Hd]; [| done].
    destruct Hk'v. apply list_elem_of_fmap. by exists (k', ts'). }
  exact (sortByTimestamp_take_drop _ _ _ _ Hin Hd).
Qed.

Lemma length_victims count st :
  0 ≤ count →
  Z.of_nat (length (victims count st)) = Z.min count (Z.of_nat (length (scan st))).
Proof.
  intros Hc. unfold victims.
  rewrite length_fmap, length_take, length_sortByTimestamp. lia.
Qed.

Lemma victims_in_scan count st k :
  k ∈ victims count st → ∃ ts, (k, ts) ∈ scan st.
Proof.
  unfold victims. intros ([k0 ts] & Heq & Hin)%list_elem_of_fmap.
  simpl in Heq. subst k0. exists ts.
  rewrite <- (sortByTimestamp_Permutation (scan st)).
  by eapply elem_of_take_l.
Qed.

(** *** Quota recovery *)

(** C6: [setAnalysis] never throws. When the host answers the write of
    the entry with a quota error, the call removes the (at most) five
    oldest entries of the cache, oldest by timestamp, and then issues the
    same write exactly once more; whatever the host answers to the retry,
    the call returns normally, and a refused retry leaves the store as the
    removals left it. *)
Theorem setAnalysis_quota_recovery now domainUrl urls sw sr ttl w :
  let key := keyOf hostname domainUrl urls in
  let E := EntryJson (entryOf hostname now domainUrl urls sw sr ttl) in
  let out := setAnalysis host hostname now domainUrl urls sw sr ttl w in
  out.1 = inr tt
  ∧ (host (store w) key E = QuotaExceeded →
     let removed := victims 5 (store w) in
     let st' := foldl (fun st k => delete k st) (store w) removed in
     issued w out.2
     = [OpSetItem key E QuotaExceeded] ++ map OpRemoveItem removed
         ++ [OpSetItem key E (host st' key E)]
     ∧ Z.of_nat (length removed) = Z.min 5 (Z.of_nat (length (scan (store w))))
     ∧ (∀ k, k ∈ removed → ∃ ts, (k, ts) ∈ scan (store w))
     ∧ (∀ k ts k' ts', (k, ts) ∈ scan (store w) → k ∈ removed →
                       (k', ts') ∈ scan (store w) → k' ∉ removed → ts ≤ ts')
     ∧ store out.2
       = match host st' key E with Accepted => <[key := E]> st' | _ => st' end
     ∧ timers out.2 = timers w).
Proof.
  intros key E out. subst out. rewrite setAnalysis_run. cbn zeta. fold key E.
  split; [by destruct (host (store w) key E) |].
  intros Hq. rewrite Hq. cbn [snd].
  assert (Hst : store (afterWrite host key E w) = store w).
  { apply store_afterWrite_rejected. by rewrite Hq. }
  rewrite Hst.
  set (removed := victims 5 (store w)).
  set (st' := foldl _ (store w) removed).
  set (w' := afterRemoves removed (afterWrite host key E w)).
  assert (Hst' : store w' = st').
  { subst w'. by rewrite store_afterRemoves, Hst. }
  split; [| split; [| split; [| split; [| split]]]].
  - apply issued_app. rewrite ops_afterWrite. subst w'.
    rewrite ops_afterRemoves, ops_afterWrite, Hq, Hst'.
    by rewrite <- !app_assoc.
  - by apply length_victims.
  - apply victims_in_scan.
  - apply victims_oldest.
  - unfold afterWrite. cbn [store]. by rewrite Hst'.
  - unfold afterWrite. cbn [timers]. subst w'.
    by rewrite timers_afterRemoves.
Qed.

(** *** The entry counter *)

Lemma setAnalysis_accepted now domainUrl urls sw sr ttl w :
  (∀ st k v, host st k v = Accepted) →
  let key := keyOf hostname domainUrl urls in
  let E := EntryJson (entryOf hostname now domainUrl urls sw sr ttl) in
  let m := metadataAt now (store w) in
  let w1 := (setAnalysis host hostname now domainUrl urls sw sr ttl w).2 in
  store w1
  = <[METADATA_KEY := MetadataJson
        {| version := version m; lastCleanup := lastCleanup m;
           entries := entries m + 1 |}]> (<[key := E]> (store w))
  ∧ timers w1 = timers w ++ [EnforceCacheLimit].
Proof.
  intros Hacc key E m w1. subst w1.
  rewrite setAnalysis_run. cbn zeta. fold key E. rewrite Hacc. cbn [snd].
  unfold withTimer. cbn [store timers].
  rewrite !store_afterWrite_accepted by apply Hacc.
  rewrite metadataAt_insert_ne by apply keyOf_not_metadata.
  done.
Qed.



End CacheClaims.

(** ** The size limit *)

Section SizeLimit.
Context {SA SR : Type}.
Context (host : gmap jsstring (text SA SR) → jsstring → text SA SR → write_outcome).
Context (hostname : jsstring → option jsstring).
Context (Haccept : ∀ st k v, host st k v = Accepted).
Implicit Types (w : world SA SR) (st : gmap jsstring (text SA SR)).
Implicit Types (r : StoreRequest SA SR).

Let counter w : Z := entries (metadataAt 0 (store w)).

(** One store followed by its deferred size check, on a cache whose
    counter is exact and within the limit, for a key that holds no entry:
    below the limit the entry is added; at the limit the entry is added and
    an entry of least timestamp is removed. *)
Lemma storeThenTimers_step r w :
  timers w = [] →
  counter w = Z.of_nat (length (scan (store w))) →
  (length (scan (store w)) ≤ 50)%nat →
  (∀ ts, ((stamped hostname r).1, ts) ∉ scan (store w)) →
  let out := storeThenTimers host hostname r w in
  let old := scan (store w) in
  let new := scan (store out.2) in
  out.1 = inr tt
  ∧ timers out.2 = []
  ∧ counter out.2 = Z.of_nat (length new)
  ∧ ((length old < 50)%nat ∧ new ≡ₚ stamped hostname r :: old
     ∨ length old = 50%nat
       ∧ ∃ v, stamped hostname r :: old ≡ₚ v :: new ∧ ∀ y, y ∈ new → v.2 ≤ y.2).
Proof using Haccept.
  intros Htimers Hcount Hlen Hfresh out old new.
  fold old in Hcount, Hlen, Hfresh.
  set (key := keyOf hostname (req_domainUrl r) (req_urls r)).
  set (E := entryOf hostname (at_time r) (req_domainUrl r) (req_urls r)
              (req_sitewide r) (req_seo r) (req_ttl r)).
  destruct (setAnalysis_accepted host hostname (at_time r) (req_domainUrl r)
              (req_urls r) (req_sitewide r) (req_seo r) (req_ttl r) w Haccept)
    as [Hstore1 Htimers1].
  cbn zeta in Hstore1. fold key E in Hstore1.
  pose proof (setAnalysis_returns host hostname (at_time r)
                (req_domainUrl r) (req_urls r) (req_sitewide r) (req_seo r)
                (req_ttl r) w) as Hret.
  set (o1 := setAnalysis host hostname (at_time r) (req_domainUrl r)
               (req_urls r) (req_sitewide r) (req_seo r) (req_ttl r) w) in *.
  assert (Hkey : isCacheKey key = true) by apply isCacheKey_keyOf.
  assert (Hscan1 : scan (store o1.2) ≡ₚ stamped hostname r :: old).
  { rewrite Hstore1, scan_insert_metadata.
    rewrite (scan_insert_entry_Permutation _ key E Hkey).
    by rewrite (scan_filter_absent _ key Hfresh). }
  assert (Hlen1 : length (scan (store o1.2)) = S (length old))
    by (by rewrite Hscan1).
  assert (Hcount1 : entries (metadataAt (timers_at r) (store o1.2))
                    = Z.of_nat (length old) + 1).
  { rewrite Hstore1, metadataAt_insert_metadata. cbn [entries].
    rewrite (entries_metadataAt (at_time r) 0).
    unfold counter in Hcount. lia. }
  rewrite Htimers in Htimers1. cbn [app] in Htimers1.
  assert (Hout : out = enforceCacheLimit host (timers_at r)
                         {| store := store o1.2; timers := []; ops := ops o1.2 |}).
  { subst out. unfold storeThenTimers. munfold. fold o1.
    destruct o1 as [[e | []] w1]; [done |].
    by apply runTimers_enforce. }
  rewrite enforceCacheLimit_run in Hout. cbn zeta in Hout. cbn [store] in Hout.
  rewrite Hcount1, length_sortByTimestamp, Hlen1 in Hout.
  unfold MAX_CACHE_SIZE in Hout.
  destruct (decide (length old < 50)%nat) as [Hlt | Hfull].
  - (* below the limit: the size check changes nothing *)
    assert (Hle : (Z.of_nat (length old) + 1 <=? 50) = true)
      by (apply Z.leb_le; lia).
    rewrite Hle in Hout. cbn [orb] in Hout.
    subst new. rewrite Hout. cbn [fst snd store timers].
    split; [done |]. split; [done |]. split.
    + unfold counter. cbn [store].
      rewrite (entries_metadataAt 0 (timers_at r)), Hcount1, Hlen1. lia.
    + left. by split.
  - (* at the limit: the oldest entry goes *)
    assert (Hlen50 : length old = 50%nat) by lia.
    assert (Hle : (Z.of_nat (length old) + 1 <=? 50) = false)
      by (apply Z.leb_gt; lia).
    assert (Hpos : (0 <? Z.of_nat (S (length old)) - 50) = true)
      by (apply Z.ltb_lt; lia).
    rewrite Hle, Hpos in Hout. cbn [orb negb] in Hout.
    assert (Hone : Z.to_nat (Z.of_nat (S (length old)) - 50) = 1%nat) by lia.
    rewrite Hone in Hout.
    pose proof (length_sortByTimestamp (scan (store o1.2))) as Hsl.
    rewrite Hlen1 in Hsl.
    destruct (sortByTimestamp (scan (store o1.2))) as [| v sorted] eqn:Hsorted;
      [done |].
    cbn [take fmap list_fmap] in Hout.
    assert (Hv : v ∈ scan (store o1.2)).
    { rewrite <- (sortByTimestamp_Permutation (scan (store o1.2))), Hsorted.
      by left. }
    set (st2 := delete v.1 (store o1.2)).
    assert (Hscan2 : ∀ k ts, (k, ts) ∈ scan st2
                             ↔ k ≠ v.1 ∧ (k, ts) ∈ scan (store o1.2)).
    { intros k ts.
      change st2 with (foldl (fun st k => delete k st) (store o1.2) [v.1]).
      by rewrite elem_of_scan_deletes, list_elem_of_singleton. }
    assert (Hstore3 : store out.2
                      = <[METADATA_KEY := MetadataJson
                            (applyUpdate (metadataAt (timers_at r) st2)
                               {| set_lastCleanup := None; set_entries := Some 50 |})]> st2).
    { rewrite Hout. cbn [snd].
      rewrite store_afterWrite_accepted by apply Haccept. done. }
    assert (Hnew : new ≡ₚ filter (fun x => x.1 ≠ v.1) (scan (store o1.2))).
    { subst new. rewrite Hstore3, scan_insert_metadata.
      apply scan_Permutation; [apply NoDup_filter, NoDup_scan |].
      intros k ts. rewrite list_elem_of_filter, Hscan2. done. }
    assert (Hsplit : scan (store o1.2) ≡ₚ v :: new).
    { rewrite Hnew. destruct v as [kv tv]. by apply scan_split. }
    split; [by rewrite Hout |]. split; [by rewrite Hout |]. split.
    + unfold counter. rewrite Hstore3, metadataAt_insert_metadata.
      cbn [entries applyUpdate set_entries default].
      assert (Hl : length (scan (store o1.2)) = S (length new))
        by (by rewrite Hsplit).
      unfold id. lia.
    + right. split; [done |]. exists v. split.
      * by rewrite <- Hscan1.
      * intros y Hy.
        apply (sortByTimestamp_take_drop (scan (store o1.2)) 1 v y).
        -- rewrite Hsorted. by left.
        -- rewrite Hsorted. cbn [drop].
           assert (Hy' : y ∈ v :: sorted).
           { rewrite <- Hsorted, sortByTimestamp_Permutation, Hsplit. by right. }
           apply elem_of_cons in Hy' as [-> | ?]; [| done].
           exfalso.
           assert (Hnd : NoDup (v :: new)) by (rewrite <- Hsplit; apply NoDup_scan).
           by apply NoDup_cons_1_1 in Hnd.
Qed.

(** The invariant of a run of stores. [seen] lists, by key and timestamp,
    the entries the cache held at the start and the entries stored since:
    the cache holds entries of [seen], as many as the limit allows, the
    counter is exact, and an entry of [seen] that is gone is not younger
    than any entry still held. *)
Lemma storeAll_invariant rs : ∀ w (seen : list (jsstring * Z)),
  timers w = [] →
  counter w = Z.of_nat (length (scan (store w))) →
  (∀ x, x ∈ scan (store w) → x ∈ seen) →
  length (scan (store w)) = (length seen `min` 50)%nat →
  (∀ x y, x ∈ seen → x ∉ scan (store w) → y ∈ scan (store w) → x.2 ≤ y.2) →
  NoDup (seen.*1 ++ map (fun r => (stamped hostname r).1) rs) →
  let out := storeAll host hostname rs w in
  let kept := scan (store out.2) in
  let all := seen ++ map (stamped hostname) rs in
  out.1 = inr tt
  ∧ timers out.2 = []
  ∧ counter out.2 = Z.of_nat (length kept)
  ∧ length kept = (length all `min` 50)%nat
  ∧ (∀ x, x ∈ kept → x ∈ all)
  ∧ (∀ x y, x ∈ all → x ∉ kept → y ∈ kept → x.2 ≤ y.2).
Proof using Haccept.
  induction rs as [| r rs IH]; intros w seen Htimers Hcount Hsub Hlen Hold Hnd.
  - cbn zeta. cbn [storeAll forEach map]. rewrite app_nil_r.
    unfold ret. cbn [fst snd]. done.
  - cbn zeta. cbn [map].
    assert (Hfresh : ∀ ts, ((stamped hostname r).1, ts) ∉ scan (store w)).
    { intros ts Hin. apply Hsub in Hin.
      apply NoDup_app in Hnd as (_ & Hdisj & _).
      apply (Hdisj (stamped hostname r).1).
      - apply list_elem_of_fmap. by exists ((stamped hostname r).1, ts).
      - by left. }
    destruct (storeThenTimers_step r w Htimers Hcount ltac:(lia) Hfresh)
      as (Hret1 & Htimers1 & Hcount1 & Hcase).
    set (o1 := storeThenTimers host hostname r w) in *.
    set (old := scan (store w)) in *.
    set (new := scan (store o1.2)) in *.
    set (n := stamped hostname r) in *.
    assert (Hstep : storeAll host hostname (r :: rs) w
                    = storeAll host hostname rs o1.2).
    { unfold storeAll. cbn [forEach]. munfold. fold o1.
      destruct o1 as [[e | []] w1]; [done | done]. }
    rewrite Hstep.
    assert (Hnd1 : NoDup ((seen ++ [n]).*1
                          ++ map (fun r => (stamped hostname r).1) rs)).
    { rewrite fmap_app, <- app_assoc. done. }
    assert (Hall : (seen ++ [n]) ++ map (stamped hostname) rs
                   = seen ++ n :: map (stamped hostname) rs)
      by (by rewrite <- app_assoc).
    rewrite <- Hall.
    apply (IH o1.2 (seen ++ [n])); [done | done | | | | done];
      fold new; destruct Hcase as [[Hlt Hperm] | (Hfull & v & Hperm & Hv)].
    + (* members, below the limit *)
      intros x Hx. rewrite Hperm in Hx. rewrite elem_of_app.
      apply elem_of_cons in Hx as [-> | Hx]; [right; by left | left; by apply Hsub].
    + (* members, at the limit *)
      intros x Hx. rewrite elem_of_app.
      assert (Hx' : x ∈ n :: old) by (rewrite Hperm; by right).
      apply elem_of_cons in Hx' as [-> | Hx']; [right; by left | left; by apply Hsub].
    + (* size, below the limit *)
      rewrite Hperm, length_app. cbn [length]. lia.
    + (* size, at the limit *)
      assert (Hl : length (n :: old) = length (v :: new)) by (by rewrite Hperm).
      rewrite length_app. cbn [length] in *. lia.
    + (* nothing was dropped so far, and nothing is dropped now *)
      intros x y Hx Hnx Hy. exfalso. apply Hnx. rewrite Hperm.
      apply elem_of_app in Hx as [Hx | ->%list_elem_of_singleton]; [| by left].
      right.
      assert (Hsame : old ≡ₚ seen).
      { apply submseteq_length_Permutation; [| lia].
        apply NoDup_submseteq; [apply NoDup_scan | done]. }
      by rewrite Hsame.
    + (* the entry dropped now is the oldest; the ones dropped before are older *)
      intros x y Hx Hnx Hy.
      assert (Hndv : NoDup (v :: new)) by (rewrite <- Hperm; constructor;
        [by intros Hin; destruct (Hfresh n.2); destruct n | apply NoDup_scan]).
      destruct (decide (x = v)) as [-> | Hxv]; [by apply Hv |].
      assert (Hxold : x ∉ n :: old).
      { rewrite Hperm. by intros [-> | ?]%elem_of_cons. }
      apply elem_of_app in Hx as [Hx | ->%list_elem_of_singleton];
        [| destruct Hxold; by left].
      assert (Hy' : y ∈ n :: old) by (rewrite Hperm; by right).
      assert (Hxo : x ∉ old) by (intros ?; apply Hxold; by right).
      apply elem_of_cons in Hy' as [-> | Hy']; [| by apply (Hold x y)].
      assert (Hv' : v ∈ n :: old) by (rewrite Hperm; by left).
      apply elem_of_cons in Hv' as [-> | Hv'].
      * by apply NoDup_cons_1_1 in Hndv.
      * transitivity v.2; [by apply (Hold x v) | by apply Hv].
Qed.

(** C7: on a cache whose counter is exact and within the limit (a fresh
    cache is one), when the storage accepts the writes, storing more than
    50 entries under distinct new keys, each store followed by its deferred
    size check, leaves exactly 50 entries; every entry that is gone has a
    timestamp at most that of every entry that remains. *)
Theorem storeAll_keeps_most_recent rs w :
  timers w = [] →
  entries (metadataAt 0 (store w)) = Z.of_nat (length (scan (store w))) →
  (length (scan (store w)) ≤ 50)%nat →
  NoDup ((scan (store w)).*1 ++ map (fun r => (stamped hostname r).1) rs) →
  (50 < length rs)%nat →
  let out := storeAll host hostname rs w in
  let kept := scan (store out.2) in
  let all := scan (store w) ++ map (stamped hostname) rs in
  out.1 = inr tt
  ∧ Z.of_nat (length kept) = MAX_CACHE_SIZE
  ∧ entries (metadataAt 0 (store out.2)) = MAX_CACHE_SIZE
  ∧ (∀ x, x ∈ kept → x ∈ all)
  ∧ (∀ x y, x ∈ all → x ∉ kept → y ∈ kept → x.2 ≤ y.2).
Proof using Haccept.
  intros Htimers Hcount Hlen Hnd Hmany.
  destruct (storeAll_invariant rs w (scan (store w)))
    as (Hret & _ & Hcounter & Hkept & Hsub & Hold); try done.
  - lia.
  - cbn zeta. split; [done |].
    rewrite length_app, length_map in Hkept.
    unfold counter in Hcounter. unfold MAX_CACHE_SIZE.
    split; [lia |]. split; [lia | done].
Qed.

End SizeLimit.

(** ** The deferred callbacks never throw *)

Section TimerFacts.
Context {SA SR : Type}.
Context (host : gmap jsstring (text SA SR) → jsstring → text SA SR → write_outcome).
Implicit Types (w : world SA SR).

Lemma try_catch_unit_safe (m : Effect.M (world SA SR) exn unit) w :
  ∃ w', try_catch m (fun _ => ret tt) w = (inr tt, w').
Proof.
  unfold try_catch, ret. destruct (m w) as [[e | []] w']; eauto.
Qed.

Lemma cleanupExpiredEntries_safe now w :
  ∃ w', cleanupExpiredEntries host now w = (inr tt, w').
Proof.
  unfold cleanupExpiredEntries. unfold mbind, M_bind. unfold bind at 1.
  rewrite getMetadata_run.
  destruct (now - lastCleanup (metadataAt now (store w)) <? 60 * 60 * 1000).
  - by exists w.
  - apply try_catch_unit_safe.
Qed.

Lemma enforceCacheLimit_safe now w :
  ∃ w', enforceCacheLimit host now w = (inr tt, w').
Proof.
  rewrite enforceCacheLimit_run. cbn zeta.
  destruct (_ || _); eauto.
Qed.

Lemma forEach_runTimer_safe now (l : list timer) w :
  ∃ w', forEach l (runTimer host now) w = (inr tt, w').
Proof.
  revert w. induction l as [| t l IH]; intros w; [by exists w |].
  cbn [forEach]. munfold.
  assert (∃ w1, runTimer host now t w = (inr tt, w1)) as [w1 ->].
  { destruct t; [apply cleanupExpiredEntries_safe | apply enforceCacheLimit_safe]. }
  apply IH.
Qed.

Lemma runTimers_safe now w : ∃ w', runTimers host now w = (inr tt, w').
Proof. unfold runTimers. apply forEach_runTimer_safe. Qed.


(** The sweep runs at most once per hour: within an hour of the last
    one it returns at once and leaves the storage as it is. *)
Theorem cleanupExpiredEntries_throttled now w :
  now - lastCleanup (metadataAt now (store w)) < 60 * 60 * 1000 →
  cleanupExpiredEntries host now w = (inr tt, w).
Proof.
  intros Hrecent. unfold cleanupExpiredEntries.
  unfold mbind, M_bind. unfold bind at 1. rewrite getMetadata_run.
  by destruct (Z.ltb_spec (now - lastCleanup (metadataAt now (store w)))
                 (60 * 60 * 1000)); [| lia].
Qed.

End TimerFacts.

(** ** The sweep, the size check and the two maintenance calls *)

Section MaintenanceViews.
Context {SA SR : Type}.
Implicit Types (w : world SA SR) (st : gmap jsstring (text SA SR)).
Implicit Types (key k : jsstring) (now : Z).

Lemma elem_of_sweptAt now st key k :
  k ∈ sweptAt now st key
  ↔ k = key ∧ isCacheKey k = true
    ∧ ((∃ e, st !! k = Some (EntryJson e) ∧ now - timestamp e > ttl e)
       ∨ (∃ t, st !! k = Some t ∧ (∀ e, t ≠ EntryJson e) ∧ truthy t = true)).
Proof.
  unfold sweptAt. destruct (isCacheKey key) eqn:Hc.
  - destruct (st !! key) as [[e | m | raw] |] eqn:Hl.
    + destruct (Z.gtb_spec (now - timestamp e) (ttl e)).
      * rewrite list_elem_of_singleton. split.
        -- intros ->. repeat split; try done. left. exists e. split; [done | lia].
        -- by intros [-> _].
      * split; [by intros ?%elem_of_nil |].
        intros (-> & _ & [(e' & He' & ?) | (t & Ht & Hne & _)]).
        -- rewrite Hl in He'. injection He' as <-. lia.
        -- rewrite Hl in Ht. injection Ht as <-. by destruct (Hne e).
    + cbn. rewrite list_elem_of_singleton. split.
      * intros ->. repeat split; try done. right. by exists (MetadataJson m).
      * by intros [-> _].
    + destruct (truthy (OtherText raw)) eqn:Ht.
      * rewrite list_elem_of_singleton. split.
        -- intros ->. repeat split; try done. right. by exists (OtherText raw).
        -- by intros [-> _].
      * split; [by intros ?%elem_of_nil |].
        intros (-> & _ & [(e' & He' & ?) | (t & Ht' & _ & Htr)]).
        -- by rewrite Hl in He'.
        -- rewrite Hl in Ht'. injection Ht' as <-. congruence.
    + split; [by intros ?%elem_of_nil |].
      intros (-> & _ & [(e' & He' & ?) | (t & Ht' & _)]); by rewrite Hl in *.
  - split; [by intros ?%elem_of_nil |]. intros (-> & ? & _). congruence.
Qed.

Lemma elem_of_flat_map_sweptAt now st (l : list jsstring) k :
  k ∈ flat_map (sweptAt now st) l
  ↔ k ∈ l ∧ isCacheKey k = true
    ∧ ((∃ e, st !! k = Some (EntryJson e) ∧ now - timestamp e > ttl e)
       ∨ (∃ t, st !! k = Some t ∧ (∀ e, t ≠ EntryJson e) ∧ truthy t = true)).
Proof.
  induction l as [| x l IH]; cbn [flat_map].
  - split; [by intros ?%elem_of_nil | by intros [?%elem_of_nil _]].
  - rewrite elem_of_app, IH, elem_of_sweptAt, elem_of_cons. naive_solver.
Qed.

Lemma elem_of_swept now st k :
  k ∈ swept now st
  ↔ isCacheKey k = true
    ∧ ((∃ e, st !! k = Some (EntryJson e) ∧ now - timestamp e > ttl e)
       ∨ (∃ t, st !! k = Some t ∧ (∀ e, t ≠ EntryJson e) ∧ truthy t = true)).
Proof.
  unfold swept. rewrite elem_of_flat_map_sweptAt. split; [naive_solver |].
  intros (Hc & Hcase). split; [| done].
  assert (∃ t, st !! k = Some t) as [t Ht] by naive_solver.
  apply list_elem_of_fmap. exists (k, t). split; [done |].
  by apply elem_of_map_to_list.
Qed.





Lemma NoDup_sorted_keys st : NoDup (sortByTimestamp (scan st)).*1.
Proof.
  rewrite (sortByTimestamp_Permutation (scan st)). apply NoDup_scan_keys.
Qed.

(** What is left after the first [n] entries of the sorted scan are
    removed is the rest of the sorted scan. *)
Lemma scan_after_eviction st (n : nat) :
  scan (foldl (fun st k => delete k st) st (take n (sortByTimestamp (scan st))).*1)
  ≡ₚ drop n (sortByTimestamp (scan st)).
Proof.
  set (sorted := sortByTimestamp (scan st)).
  assert (Hnd : NoDup sorted)
    by (subst sorted; rewrite sortByTimestamp_Permutation; apply NoDup_scan).
  pose proof (NoDup_sorted_keys st) as Hndk. fold sorted in Hndk.
  rewrite <- (take_drop n sorted) in Hnd, Hndk.
  rewrite fmap_app in Hndk.
  apply NoDup_app in Hnd as (_ & _ & Hndd).
  apply NoDup_app in Hndk as (_ & Hdisj & _).
  apply scan_Permutation; [done |].
  intros k ts. rewrite elem_of_scan_deletes. split.
  - intros Hin. apply elem_of_drop_l in Hin as Hin'.
    split.
    + intros Hk. apply (Hdisj k Hk). apply list_elem_of_fmap. by exists (k, ts).
    + subst sorted. by rewrite sortByTimestamp_Permutation in Hin'.
  - intros [Hk Hin].
    rewrite <- (sortByTimestamp_Permutation (scan st)) in Hin. fold sorted in Hin.
    destruct (elem_of_take_drop _ n _ Hin) as [Ht | Hd]; [| done].
    destruct Hk. apply list_elem_of_fmap. by exists (k, ts).
Qed.

(** *** Keys outside the cache *)

Lemma startsWith_isCacheKey k : isCacheKey k = true → startsWith k CACHE_PREFIX = true.
Proof.
  unfold isCacheKey. intros H.
  apply andb_true_iff in H as [H _]. by apply andb_true_iff in H as [_ H].
Qed.

Lemma startsWith_metadata : startsWith METADATA_KEY CACHE_PREFIX = true.
Proof. apply startsWith_app. Qed.

Lemma foreign_foldl_delete st (keys : list jsstring) k :
  startsWith k CACHE_PREFIX = false →
  (∀ k', k' ∈ keys → startsWith k' CACHE_PREFIX = true) →
  foldl (fun st k => delete k st) st keys !! k = st !! k.
Proof.
  intros Hk Hkeys. rewrite lookup_foldl_delete.
  destruct (decide (k ∈ keys)) as [Hin | _]; [| done].
  apply Hkeys in Hin. congruence.
Qed.

Lemma elem_of_cleared pattern st k :
  k ∈ cleared pattern st
  ↔ matchesPattern (default (lit "*") pattern) k = true ∧ is_Some (st !! k).
Proof.
  unfold cleared. rewrite list_elem_of_In, filter_In, <- list_elem_of_In.
  rewrite list_elem_of_fmap. split.
  - intros [([k' t] & -> & Hin%elem_of_map_to_list) Hm]. split; [done |]. by exists t.
  - intros [Hm [t Ht]]. split; [| done].
    exists (k, t). split; [done |]. by apply elem_of_map_to_list.
Qed.

Lemma startsWith_matchesPattern p k :
  matchesPattern p k = true → startsWith k CACHE_PREFIX = true.
Proof.
  unfold matchesPattern. intros H.
  apply andb_true_iff in H as [H _]. by apply andb_true_iff in H as [_ H].
Qed.

Lemma matchesPattern_star k :
  matchesPattern (lit "*") k = true ↔ k ≠ [] ∧ startsWith k CACHE_PREFIX = true.
Proof.
  unfold matchesPattern.
  rewrite (bool_decide_eq_true_2 (lit "*" = lit "*")) by done.
  rewrite orb_true_l, andb_true_r, andb_true_iff, bool_decide_eq_true. done.
Qed.

End MaintenanceViews.

Section MaintenanceFacts.
Context {SA SR : Type}.
Context (host : gmap jsstring (text SA SR) → jsstring → text SA SR → write_outcome).
Context (hostname : jsstring → option jsstring).
Implicit Types (w : world SA SR) (st : gmap jsstring (text SA SR)).
Implicit Types (key k : jsstring) (now : Z).

Lemma expiredKey_run now key w :
  expiredKey now key w = (inr (sweptAt now (store w) key), w).
Proof.
  unfold expiredKey, sweptAt, getItem. munfold.
  destruct (isCacheKey key); [| done].
  destruct (store w !! key) as [[e | m | [| c raw]] |]; try reflexivity.
  cbn. by destruct (now - timestamp e >? ttl e).
Qed.

Lemma expiredKeys_run now keys w :
  expiredKeys now keys w = (inr (flat_map (sweptAt now (store w)) keys), w).
Proof.
  induction keys as [| key keys IH]; [done |].
  cbn [expiredKeys flat_map]. munfold.
  by rewrite expiredKey_run, IH.
Qed.

Lemma forEach_removeQuietly_keys (keys : list jsstring) w :
  forEach keys removeQuietly w = (inr tt, afterRemoves keys w).
Proof.
  revert w. induction keys as [| k keys IH]; intros w; [done |].
  cbn [forEach]. munfold. unfold removeQuietly at 1, removeItem at 1. munfold.
  rewrite IH. reflexivity.
Qed.

Lemma cleanupExpiredEntries_run now w :
  cleanupExpiredEntries host now w
  = let m := metadataAt now (store w) in
    if now - lastCleanup m <? 60 * 60 * 1000 then (inr tt, w)
    else
      let doomed := swept now (store w) in
      let w1 := afterRemoves doomed w in
      let u := {| set_lastCleanup := Some now;
                  set_entries :=
                    Some (Z.max 0 (entries m - Z.of_nat (length doomed))) |} in
      (inr tt, afterWrite host METADATA_KEY
                 (MetadataJson (applyUpdate (metadataAt now (store w1)) u)) w1).
Proof.
  unfold cleanupExpiredEntries. unfold mbind, M_bind. unfold bind at 1.
  rewrite getMetadata_run. cbn zeta.
  destruct (now - lastCleanup (metadataAt now (store w)) <? 60 * 60 * 1000);
    [done |].
  unfold try_catch, storageKeys. unfold bind at 1. unfold bind at 1.
  rewrite expiredKeys_run. unfold bind at 1.
  rewrite forEach_removeQuietly_keys.
  by rewrite updateMetadata_run.
Qed.

(** *** What the sweep removes *)


(** *** The size check *)

(** [enforceCacheLimit] acts only when the counter of the metadata is
    above 50 and more than 50 entries are stored: then it removes the
    oldest entries so that exactly 50 stay, touches no key that is not a
    cache key, and sets the counter to 50 when the host takes the write.
    When the counter is at most 50 it changes nothing, however many
    entries are stored. *)
Theorem enforceCacheLimit_effect now w :
  wellKeyed (store w) →
  let out := enforceCacheLimit host now w in
  let n := length (scan (store w)) in
  let counter := entries (metadataAt now (store w)) in
  out.1 = inr tt
  ∧ (counter ≤ 50 ∨ (n ≤ 50)%nat → out.2 = w)
  ∧ (50 < counter → (50 < n)%nat →
     length (scan (store out.2)) = 50%nat
     ∧ (∀ x, x ∈ scan (store out.2) → x ∈ scan (store w))
     ∧ (∀ x y, x ∈ scan (store w) → x ∉ scan (store out.2) →
               y ∈ scan (store out.2) → x.2 ≤ y.2)
     ∧ (∀ k, isCacheKey k = false → k ≠ METADATA_KEY →
             store out.2 !! k = store w !! k)
     ∧ ((∀ st v, host st METADATA_KEY v = Accepted) →
        entries (metadataAt now (store out.2)) = 50)).
Proof.
  intros _ out n counter. subst out.
  rewrite enforceCacheLimit_run. cbn zeta.
  rewrite length_sortByTimestamp. fold n counter. unfold MAX_CACHE_SIZE.
  set (sorted := sortByTimestamp (scan (store w))).
  set (k := Z.to_nat (Z.of_nat n - 50)).
  destruct (Z.leb_spec counter 50) as [Hle | Hgt]; cbn [orb].
  { split; [done |]. split; [done |]. intros ?. lia. }
  destruct (Z.ltb_spec 0 (Z.of_nat n - 50)) as [Hpos | Hnpos]; cbn [negb].
  2: { split; [done |]. split; [done |]. intros _ ?. lia. }
  cbn [fst snd].
  set (w1 := afterRemoves (take k sorted).*1 w).
  assert (Hst1 : store w1
                 = foldl (fun st k => delete k st) (store w) (take k sorted).*1)
    by apply store_afterRemoves.
  assert (Hscan1 : scan (store w1) ≡ₚ drop k sorted)
    by (rewrite Hst1; apply scan_after_eviction).
  assert (Hscan : ∀ x, x ∈ scan (store (afterWrite host METADATA_KEY
                         (MetadataJson
                            (applyUpdate (metadataAt now (store w1))
                               {| set_lastCleanup := None; set_entries := Some 50 |}))
                         w1))
                       ↔ x ∈ drop k sorted).
  { intros [kx ts]. rewrite <- Hscan1. unfold afterWrite. cbn [store].
    destruct (host _ _ _); [| done | done].
    apply elem_of_scan_insert_metadata. }
  split; [done |]. split; [intros [? | ?]; lia |].
  intros _ _. split; [| split; [| split; [| split]]].
  - assert (Hlen : length (scan (store (afterWrite host METADATA_KEY
                         (MetadataJson
                            (applyUpdate (metadataAt now (store w1))
                               {| set_lastCleanup := None; set_entries := Some 50 |}))
                         w1)))
                   = length (drop k sorted)).
    { apply Permutation_length, NoDup_Permutation; [apply NoDup_scan | | done].
      rewrite <- Hscan1. apply NoDup_scan. }
    rewrite Hlen, length_drop. subst sorted.
    rewrite length_sortByTimestamp. fold n. lia.
  - intros x Hx%Hscan%elem_of_drop_l. subst sorted.
    by rewrite sortByTimestamp_Permutation in Hx.
  - intros x y Hx Hnx Hy%Hscan.
    apply (sortByTimestamp_take_drop (scan (store w)) k x y); [| done].
    rewrite <- (sortByTimestamp_Permutation (scan (store w))) in Hx.
    destruct (elem_of_take_drop _ k _ Hx) as [Ht | Hd]; [done |].
    destruct Hnx. by apply Hscan.
  - intros kx Hc Hne. rewrite (lookup_afterWrite_ne host) by done.
    rewrite Hst1, lookup_foldl_delete.
    destruct (decide (kx ∈ (take k sorted).*1)) as [Hin | Hnin]; [| done].
    apply list_elem_of_fmap in Hin as ([k' ts] & -> & Hin).
    apply elem_of_take_l in Hin. subst sorted.
    rewrite sortByTimestamp_Permutation in Hin.
    apply elem_of_scan in Hin as [Hc' _]. cbn in Hc. congruence.
  - intros Hacc. rewrite (store_afterWrite_accepted host) by apply Hacc.
    by rewrite metadataAt_insert_metadata.
Qed.

(** *** [clearCache] *)

Lemma clearCache_run now pattern w :
  clearCache host now pattern w
  = let w1 := afterRemoves (cleared pattern (store w)) w in
    let u := {| set_lastCleanup := Some now; set_entries := Some 0 |} in
    (inr tt, afterWrite host METADATA_KEY
               (MetadataJson (applyUpdate (metadataAt now (store w1)) u)) w1).
Proof.
  unfold clearCache, cleared. cbn zeta.
  unfold try_catch, storageKeys, mbind, M_bind. unfold bind at 1. unfold bind at 1.
  rewrite forEach_removeQuietly_keys.
  by rewrite updateMetadata_run.
Qed.

(** [clearCache] never throws. It removes the keys that start with the
    cache prefix and contain the pattern (all of them for the pattern
    ['*'] and for the call without argument) and no other key; then it
    writes the metadata with the counter at zero and the time of the call,
    also when entries that do not contain the pattern are still stored.
    Without pattern no entry is left. *)
Theorem clearCache_clears now pattern w :
  let out := clearCache host now pattern w in
  let p := default (lit "*") pattern in
  out.1 = inr tt
  ∧ (∀ k, k ≠ METADATA_KEY →
          store out.2 !! k = if matchesPattern p k then None else store w !! k)
  ∧ (p = lit "*" → scan (store out.2) = [])
  ∧ ((∀ st v, host st METADATA_KEY v = Accepted) →
     entries (metadataAt now (store out.2)) = 0
     ∧ lastCleanup (metadataAt now (store out.2)) = now).
Proof.
  intros out p. subst out. rewrite clearCache_run. cbn zeta. cbn [fst snd].
  set (w1 := afterRemoves (cleared pattern (store w)) w).
  assert (Hl : ∀ k, store w1 !! k
                    = if matchesPattern p k then None else store w !! k).
  { intros k. subst w1. rewrite store_afterRemoves, lookup_foldl_delete.
    destruct (decide (k ∈ cleared pattern (store w))) as [Hin | Hnin].
    - apply elem_of_cleared in Hin as [Hm _]. fold p in Hm. by rewrite Hm.
    - destruct (matchesPattern p k) eqn:Hm; [| done].
      destruct (store w !! k) as [t |] eqn:Ht; [| done].
      destruct Hnin. apply elem_of_cleared. by split. }
  split; [done |]. split; [| split].
  - intros k Hk. by rewrite (lookup_afterWrite_ne host).
  - intros Hp.
    apply elem_of_nil_inv. intros [k ts] Hin.
    apply elem_of_scan in Hin as (Hc & e & He & _).
    assert (Hne : k ≠ METADATA_KEY).
    { intros ->. pose proof isCacheKey_metadata. congruence. }
    rewrite (lookup_afterWrite_ne host) in He by done.
    rewrite Hl in He.
    assert (Hm : matchesPattern p k = true).
    { rewrite Hp. apply matchesPattern_star. split.
      - intros ->. by vm_compute in Hc.
      - by apply startsWith_isCacheKey. }
    by rewrite Hm in He.
  - intros Hacc. rewrite (store_afterWrite_accepted host) by apply Hacc.
    by rewrite metadataAt_insert_metadata.
Qed.

(** *** Keys outside the cache *)

Lemma foreign_afterWrite key (v : text SA SR) w k :
  startsWith k CACHE_PREFIX = false → startsWith key CACHE_PREFIX = true →
  store (afterWrite host key v w) !! k = store w !! k.
Proof.
  intros Hk Hkey. apply lookup_afterWrite_ne. intros ->. congruence.
Qed.

Lemma foreign_afterRemoves (keys : list jsstring) w k :
  startsWith k CACHE_PREFIX = false →
  (∀ k', k' ∈ keys → startsWith k' CACHE_PREFIX = true) →
  store (afterRemoves keys w) !! k = store w !! k.
Proof.
  intros Hk Hkeys. rewrite store_afterRemoves. by apply foreign_foldl_delete.
Qed.

Lemma startsWith_keyOf domainUrl urls :
  startsWith (keyOf hostname domainUrl urls) CACHE_PREFIX = true.
Proof. apply startsWith_isCacheKey, isCacheKey_keyOf. Qed.

Lemma startsWith_sorted_scan st (n : nat) k :
  k ∈ (take n (sortByTimestamp (scan st))).*1 → startsWith k CACHE_PREFIX = true.
Proof.
  intros ([k' ts] & -> & Hin%elem_of_take_l)%list_elem_of_fmap.
  rewrite sortByTimestamp_Permutation in Hin.
  apply elem_of_scan in Hin as [Hc _]. by apply startsWith_isCacheKey.
Qed.

Lemma foreign_cleanupExpiredEntries now w k :
  startsWith k CACHE_PREFIX = false →
  store (cleanupExpiredEntries host now w).2 !! k = store w !! k.
Proof.
  intros Hk. rewrite cleanupExpiredEntries_run. cbn zeta.
  destruct (_ <? _); [done |]. cbn [snd].
  rewrite foreign_afterWrite by (done || apply startsWith_metadata).
  apply foreign_afterRemoves; [done |].
  intros k' (Hc & _)%elem_of_swept. by apply startsWith_isCacheKey.
Qed.

Lemma foreign_enforceCacheLimit now w k :
  startsWith k CACHE_PREFIX = false →
  store (enforceCacheLimit host now w).2 !! k = store w !! k.
Proof.
  intros Hk. rewrite enforceCacheLimit_run. cbn zeta.
  destruct (_ || _); [done |]. cbn [snd].
  rewrite foreign_afterWrite by (done || apply startsWith_metadata).
  apply foreign_afterRemoves; [done |]. apply startsWith_sorted_scan.
Qed.

Lemma foreign_forEach_runTimer now (l : list timer) w k :
  startsWith k CACHE_PREFIX = false →
  store (forEach l (runTimer host now) w).2 !! k = store w !! k.
Proof.
  intros Hk. revert w. induction l as [| t l IH]; intros w; [done |].
  cbn [forEach]. unfold mbind, M_bind, bind.
  assert (Hstep : store (runTimer host now t w).2 !! k = store w !! k).
  { destruct t; [by apply foreign_cleanupExpiredEntries
                | by apply foreign_enforceCacheLimit]. }
  destruct (runTimer host now t w) as [[e | []] w1]; [done |].
  cbn [snd] in Hstep. by rewrite IH.
Qed.

(** The service reads and writes only keys that start with its prefix:
    whatever a key outside the cache holds (the history of the
    application, its settings) is left as it is by the lookup, the store
    with its quota recovery, the two removals and the deferred
    callbacks. *)
Theorem cache_keeps_foreign_keys k now domainUrl urls sw sr ttl pattern w :
  startsWith k CACHE_PREFIX = false →
  store (getAnalysis hostname now domainUrl urls w).2 !! k = store w !! k
  ∧ store (setAnalysis host hostname now domainUrl urls sw sr ttl w).2 !! k
    = store w !! k
  ∧ store (clearAnalysis host hostname now domainUrl urls w).2 !! k = store w !! k
  ∧ store (clearCache host now pattern w).2 !! k = store w !! k
  ∧ store (runTimers host now w).2 !! k = store w !! k.
Proof.
  intros Hk.
  pose proof (startsWith_keyOf domainUrl urls) as Hkey.
  pose proof (@startsWith_metadata) as Hmeta.
  assert (Hne : k ≠ keyOf hostname domainUrl urls) by (intros ->; congruence).
  split; [| split; [| split; [| split]]].
  - rewrite getAnalysis_run. cbn zeta.
    destruct (store w !! keyOf hostname domainUrl urls) as [[e | m | raw] |];
      [| done | done | done].
    destruct (_ >? _); [| done].
    cbn [snd afterRemove withTimer store]. by apply lookup_delete_ne.
  - rewrite setAnalysis_run. cbn zeta.
    destruct (host (store w) _ _) eqn:Hw; cbn [snd].
    + unfold withTimer. cbn [store]. by rewrite !foreign_afterWrite.
    + rewrite foreign_afterWrite, foreign_afterRemoves, foreign_afterWrite; try done.
      intros k' Hin. unfold victims in Hin.
      by apply startsWith_sorted_scan in Hin.
    + by rewrite foreign_afterWrite.
  - rewrite clearAnalysis_run. cbn zeta. cbn [snd].
    rewrite foreign_afterWrite by done.
    cbn [afterRemove store]. by apply lookup_delete_ne.
  - rewrite clearCache_run. cbn zeta. cbn [snd].
    rewrite foreign_afterWrite by done.
    apply foreign_afterRemoves; [done |].
    intros k' [Hm _]%elem_of_cleared. by apply startsWith_matchesPattern in Hm.
  - unfold runTimers. by rewrite foreign_forEach_runTimer.
Qed.

End MaintenanceFacts.

(** ** The statistics *)

Section StatsFacts.
Context {SA SR : Type}.
Context (JSON_length_entry : CachedAnalysis SA SR → Z).
Context (JSON_length_metadata : CacheMetadata → Z).
Implicit Types (w : world SA SR) (st : gmap jsstring (text SA SR)).
Implicit Types (s : CacheStats) (kv : jsstring * text SA SR).

Let getStats' := getStats JSON_length_entry JSON_length_metadata.
Let size (t : text SA SR) : Z := text_length JSON_length_entry JSON_length_metadata t.
Let statsAt' := statsAt JSON_length_entry JSON_length_metadata.

(** One round of the loop, on a key and the text the store holds under
    it. *)
Let statsOn s kv : CacheStats :=
  if isCacheKey kv.1 then
    match kv.2 with
    | EntryJson e =>
        noteTimestamp (timestamp e)
          (countText JSON_length_entry JSON_length_metadata kv.2 s)
    | t => if truthy t
           then countText JSON_length_entry JSON_length_metadata t s else s
    end
  else s.

(** The timestamps the loop meets. *)
Let stamps (l : list (jsstring * text SA SR)) : list Z :=
  flat_map (fun kv => if isCacheKey kv.1
                      then match kv.2 with
                           | EntryJson e => [timestamp e]
                           | _ => []
                           end
                      else []) l.

(** The update of [oldestEntry] and of [newestEntry], for a comparison. *)
Let pick (lt : Z → Z → bool) (acc : option Z) (t : Z) : option Z :=
  if unset acc || lt t (default 0 acc) then Some t else acc.

Lemma statsStep_run key w s :
  statsStep JSON_length_entry JSON_length_metadata key (w, s)
  = (inr tt, (w, statsAt' (store w) s key)).
Proof.
  unfold statsStep, statsAt', statsAt, onStorage, onStats, getItem, modify. munfold.
  destruct (isCacheKey key); [| done]. cbn.
  destruct (store w !! key) as [[e | m | [| c raw]] |]; reflexivity.
Qed.

Lemma forEach_statsStep_run keys w s :
  forEach keys (statsStep JSON_length_entry JSON_length_metadata) (w, s)
  = (inr tt, (w, foldl (statsAt' (store w)) s keys)).
Proof.
  revert s. induction keys as [| key keys IH]; intros s; [done |].
  cbn [forEach foldl]. unfold mbind, M_bind, bind.
  by rewrite statsStep_run, IH.
Qed.

Lemma getStats_run w :
  getStats' w
  = (inr (foldl (statsAt' (store w)) noStats (map_to_list (store w)).*1), w).
Proof.
  unfold getStats', getStats. unfold try_catch, mbind, M_bind, bind, onStorage, storageKeys.
  cbn [fst snd]. by rewrite forEach_statsStep_run.
Qed.

Lemma foldl_statsAt st (l : list (jsstring * text SA SR)) s :
  (∀ kv, kv ∈ l → st !! kv.1 = Some kv.2) →
  foldl (statsAt' st) s l.*1 = foldl statsOn s l.
Proof.
  revert s. induction l as [| kv l IH]; intros s Hl; [done |].
  cbn [fmap list_fmap foldl]. rewrite <- IH by (intros; apply Hl; by right).
  f_equal. unfold statsAt', statsAt, statsOn.
  rewrite (Hl kv) by (by left). by destruct (kv.2).
Qed.

Lemma stat_entries_foldl (l : list (jsstring * text SA SR)) s :
  stat_entries (foldl statsOn s l)
  = stat_entries s
    + Z.of_nat (length (List.filter (fun kv => isCacheKey kv.1 && truthy kv.2) l)).
Proof.
  revert s. induction l as [| [k t] l IH]; intros s; cbn [foldl List.filter].
  - cbn. lia.
  - rewrite IH. unfold statsOn. cbn [fst snd].
    destruct (isCacheKey k); cbn [andb]; [| lia].
    destruct t as [e | m | [| c raw]]; cbn; lia.
Qed.

Lemma totalSize_foldl (l : list (jsstring * text SA SR)) s :
  totalSize (foldl statsOn s l)
  = totalSize s
    + foldr Z.add 0
        (map (fun kv => size kv.2)
             (List.filter (fun kv => isCacheKey kv.1 && truthy kv.2) l)).
Proof.
  revert s. induction l as [| [k t] l IH]; intros s; cbn [foldl List.filter].
  - cbn. lia.
  - rewrite IH. unfold statsOn. cbn [fst snd].
    destruct (isCacheKey k); cbn [andb]; [| lia].
    destruct t as [e | m | [| c raw]]; cbn; unfold size; cbn; lia.
Qed.

Lemma oldestEntry_foldl (l : list (jsstring * text SA SR)) s :
  oldestEntry (foldl statsOn s l)
  = foldl (pick Z.ltb) (oldestEntry s) (stamps l).
Proof.
  revert s. induction l as [| [k t] l IH]; intros s; [done |].
  cbn [foldl stamps flat_map]. rewrite foldl_app, IH. f_equal.
  unfold statsOn. cbn [fst snd].
  destruct (isCacheKey k); [| done].
  destruct t as [e | m | raw]; [done | |]; cbn [foldl];
    by match goal with |- context [if ?b then _ else _] => destruct b end.
Qed.

Lemma newestEntry_foldl (l : list (jsstring * text SA SR)) s :
  newestEntry (foldl statsOn s l)
  = foldl (pick Z.gtb) (newestEntry s) (stamps l).
Proof.
  revert s. induction l as [| [k t] l IH]; intros s; [done |].
  cbn [foldl stamps flat_map]. rewrite foldl_app, IH. f_equal.
  unfold statsOn. cbn [fst snd].
  destruct (isCacheKey k); [| done].
  destruct t as [e | m | raw]; [done | |]; cbn [foldl];
    by match goal with |- context [if ?b then _ else _] => destruct b end.
Qed.

(** The fold of [pick] keeps the least element for [<] and the greatest
    for [>], as long as no timestamp is zero. *)
Lemma foldl_pick (lt : Z → Z → bool) (le : Z → Z → Prop) :
  (∀ x, le x x) → (∀ x y z, le x y → le y z → le x z) →
  (∀ t o, lt t o = true → le t o) → (∀ t o, lt t o = false → le o t) →
  ∀ (ts : list Z) (acc : option Z),
    (∀ o, acc = Some o → 0 < o) → (∀ t, t ∈ ts → 0 < t) →
    let r := foldl (pick lt) acc ts in
    (r = None ↔ acc = None ∧ ts = [])
    ∧ (∀ o, r = Some o →
         0 < o ∧ (acc = Some o ∨ o ∈ ts)
         ∧ (∀ o', acc = Some o' → le o o') ∧ (∀ t, t ∈ ts → le o t)).
Proof.
  intros Hrefl Htrans Hlt Hge.
  induction ts as [| t ts IH]; intros acc Hacc Hts; cbn [foldl].
  - cbn zeta. split; [naive_solver |].
    intros o Ho. split; [by apply Hacc |]. split; [by left |].
    split; [intros o' Ho'; rewrite Ho in Ho'; injection Ho' as <-; apply Hrefl |].
    by intros t ?%elem_of_nil.
  - assert (Ht : 0 < t) by (apply Hts; by left).
    assert (Hts' : ∀ t', t' ∈ ts → 0 < t') by (intros; apply Hts; by right).
    assert (Hpick : ∃ v, pick lt acc t = Some v ∧ 0 < v ∧ le v t
                         ∧ (v = t ∨ acc = Some v)
                         ∧ ∀ o', acc = Some o' → le v o').
    { unfold pick. destruct acc as [o |]; cbn [unset default orb].
      - specialize (Hacc o eq_refl).
        destruct (Z.eqb_spec o 0) as [? | _]; [lia |]. cbn [orb]. unfold id.
        destruct (lt t o) eqn:E.
        + exists t. split; [done |]. split; [done |]. split; [apply Hrefl |].
          split; [by left |]. intros o' [= <-]. by apply Hlt.
        + exists o. split; [done |]. split; [done |]. split; [by apply Hge |].
          split; [by right |]. intros o' [= <-]. apply Hrefl.
      - exists t. split; [done |]. split; [done |]. split; [apply Hrefl |].
        split; [by left |]. by intros o' [=]. }
    destruct Hpick as (v & Hv & Hvpos & Hvt & Hvsrc & Hvacc).
    rewrite Hv.
    destruct (IH (Some v)) as [Hnone Hsome]; [by intros o [= <-] | done |].
    cbn zeta in *. split.
    + split; [| by intros [_ [=]]]. intros Hr. by apply Hnone in Hr as [[=] _].
    + intros o Ho. destruct (Hsome o Ho) as (Hpos & Hsrc & Hle & Hall).
      specialize (Hle v eq_refl).
      split; [done |]. split.
      * destruct Hsrc as [[= <-] | Hin].
        -- destruct Hvsrc as [-> | ->]; [right; by left | by left].
        -- right. by right.
      * split.
        -- intros o' Ho'. eapply Htrans; [exact Hle | by apply Hvacc].
        -- intros t' [-> | Hin]%elem_of_cons; [| by apply Hall].
           by eapply Htrans.
Qed.

Lemma elem_of_stamps st t :
  t ∈ stamps (map_to_list st) ↔ ∃ k, (k, t) ∈ scan st.
Proof.
  unfold stamps. rewrite list_elem_of_In, in_flat_map. split.
  - intros ([k x] & Hin%list_elem_of_In%elem_of_map_to_list & Ht).
    cbn [fst snd] in Ht. exists k. apply elem_of_scan.
    destruct (isCacheKey k); [| done].
    destruct x as [e | m | raw]; [| done | done].
    destruct Ht as [<- | []]. split; [done |]. by exists e.
  - intros (k & (Hc & e & He & <-)%elem_of_scan).
    exists (k, EntryJson e). split.
    + by apply list_elem_of_In, elem_of_map_to_list.
    + cbn [fst snd]. rewrite Hc. by left.
Qed.

Lemma stamps_nil st : stamps (map_to_list st) = [] ↔ scan st = [].
Proof.
  split; intros Hnil.
  - apply elem_of_nil_inv. intros [k t] Hin.
    assert (Ht : t ∈ stamps (map_to_list st)) by (apply elem_of_stamps; eauto).
    rewrite Hnil in Ht. by apply elem_of_nil in Ht.
  - apply elem_of_nil_inv. intros t (k & Hin)%elem_of_stamps.
    rewrite Hnil in Hin. by apply elem_of_nil in Hin.
Qed.

(** [getStats] never throws and changes nothing. It counts every
    non-empty text under a cache key, also one that is no JSON, and adds
    up their lengths; the oldest and the newest timestamp it reports are
    the least and the greatest timestamp of the entries, and [null] when
    there is no entry (timestamps are taken to be positive, as those of
    [Date.now()] are: the code reads a zero as not yet set). *)
Theorem getStats_reports w :
  wellKeyed (store w) →
  (∀ k ts, (k, ts) ∈ scan (store w) → 0 < ts) →
  ∃ s, getStats JSON_length_entry JSON_length_metadata w = (inr s, w)
    ∧ stat_entries s = Z.of_nat (length (counted (store w)))
    ∧ totalSize s
      = foldr Z.add 0
          (map (fun kv => text_length JSON_length_entry JSON_length_metadata kv.2)
               (counted (store w)))
    ∧ (oldestEntry s = None ↔ scan (store w) = [])
    ∧ (∀ o, oldestEntry s = Some o →
         (∃ k, (k, o) ∈ scan (store w))
         ∧ ∀ k ts, (k, ts) ∈ scan (store w) → o ≤ ts)
    ∧ (newestEntry s = None ↔ scan (store w) = [])
    ∧ (∀ n, newestEntry s = Some n →
         (∃ k, (k, n) ∈ scan (store w))
         ∧ ∀ k ts, (k, ts) ∈ scan (store w) → ts ≤ n).
Proof.
  intros _ Hpos. eexists. split; [apply getStats_run |].
  rewrite (foldl_statsAt (store w))
    by (intros [k t] Hin; by apply elem_of_map_to_list).
  assert (Hst : ∀ t, t ∈ stamps (map_to_list (store w)) → 0 < t).
  { intros t (k & Hin)%elem_of_stamps. by apply (Hpos k). }
  split; [by rewrite stat_entries_foldl |].
  split; [by rewrite totalSize_foldl |].
  rewrite oldestEntry_foldl, newestEntry_foldl. cbn [noStats oldestEntry newestEntry].
  pose proof (foldl_pick Z.ltb Z.le
                ltac:(intros; lia) ltac:(intros; lia)
                ltac:(intros t o H%Z.ltb_lt; lia)
                ltac:(intros t o H%Z.ltb_ge; lia)
                (stamps (map_to_list (store w))) None
                ltac:(done) Hst) as [Hon Hos].
  pose proof (foldl_pick Z.gtb (fun a b => b ≤ a)
                ltac:(cbn beta; intros; lia) ltac:(cbn beta; intros; lia)
                ltac:(cbn beta; intros t o H; apply Z.gtb_lt in H; lia)
                ltac:(cbn beta; intros t o H; destruct (Z.gtb_spec t o); [done | lia])
                (stamps (map_to_list (store w))) None
                ltac:(done) Hst) as [Hnn Hns].
  cbn zeta in *.
  split; [rewrite Hon, stamps_nil; naive_solver |]. split.
  { intros o Ho. destruct (Hos o Ho) as (_ & [[=] | Hin] & _ & Hall).
    split; [by apply elem_of_stamps |].
    intros k ts Hk. apply Hall, elem_of_stamps. eauto. }
  split; [rewrite Hnn, stamps_nil; naive_solver |].
  intros n Hn. destruct (Hns n Hn) as (_ & [[=] | Hin] & _ & Hall).
  split; [by apply elem_of_stamps |].
  intros k ts Hk. apply Hall, elem_of_stamps. eauto.
Qed.

End StatsFacts.

(** ** The shape of a fingerprint and of a cache key *)

Lemma is_digit36_digit36 d : 0 ≤ d < 36 → is_digit36 (digit36 d) = true.
Proof.
  intros Hd. unfold is_digit36, digit36.
  destruct (Z.ltb_spec d 10).
  - apply orb_true_iff. left. apply andb_true_iff. split; apply Z.leb_le; lia.
  - apply orb_true_iff. right. apply andb_true_iff. split; apply Z.leb_le; lia.
Qed.

Lemma Forall_digits36 fuel : ∀ n acc,
  Forall (fun c => is_digit36 c = true) acc →
  Forall (fun c => is_digit36 c = true) (digits36 fuel n acc).
Proof.
  induction fuel as [| fuel IH]; intros n acc Hacc; [done |].
  rewrite digits36_S.
  assert (Hd : is_digit36 (digit36 (n `mod` 36)) = true)
    by (apply is_digit36_digit36, Z.mod_pos_bound; lia).
  destruct (n / 36 =? 0); [by constructor |].
  apply IH. by constructor.
Qed.

Lemma length_digits36 fuel : ∀ n acc (k : nat),
  0 ≤ n < 36 ^ Z.of_nat (S k) →
  (length acc < length (digits36 (S fuel) n acc) ≤ S k + length acc)%nat.
Proof.
  induction fuel as [| fuel IH]; intros n acc k Hn; rewrite digits36_S.
  - destruct (n / 36 =? 0); cbn [digits36 length]; lia.
  - destruct (Z.eqb_spec (n / 36) 0) as [Hq | Hq]; [cbn [length]; lia |].
    destruct k as [| k].
    { destruct Hq. apply Z.div_small. cbn in Hn. lia. }
    specialize (IH (n / 36) (digit36 (n `mod` 36) :: acc) k).
    cbn [length] in IH.
    assert (0 ≤ n / 36 < 36 ^ Z.of_nat (S k)).
    { split; [apply Z.div_pos; lia |].
      apply Z.div_lt_upper_bound; [lia |].
      rewrite (Nat2Z.inj_succ (S k)), Z.pow_succ_r in Hn by lia. lia. }
    specialize (IH ltac:(done)). lia.
Qed.

Lemma Forall_simpleHash (str : jsstring) :
  Forall (fun c => is_digit36 c = true) (simpleHash str).
Proof. rewrite simpleHash_fnv1a32. apply Forall_digits36. constructor. Qed.

(** The fingerprint is a numeral of one to seven characters among [0-9]
    and [a-z], and read in base 36 it is the 32-bit hash of the string. *)
Theorem simpleHash_format (str : jsstring) :
  (1 ≤ length (simpleHash str) ≤ 7)%nat
  ∧ Forall (fun c => is_digit36 c = true) (simpleHash str)
  ∧ parse36 (simpleHash str) = fnv1a32 str.
Proof.
  rewrite simpleHash_fnv1a32.
  pose proof (fnv1a32_range str) as Hr.
  split; [| split].
  - unfold toString36.
    pose proof (length_digits36 (Z.to_nat (Z.log2 (fnv1a32 str))) (fnv1a32 str) [] 6)
      as Hlen.
    cbn [length] in Hlen. apply Hlen.
    split; [lia |]. eapply Z.lt_trans; [apply Hr |]. by vm_compute.
  - rewrite <- simpleHash_fnv1a32. apply Forall_simpleHash.
  - apply parse36_toString36. lia.
Qed.

Lemma no_colon_digit36 (h : jsstring) :
  Forall (fun c => is_digit36 c = true) h → 58 ∉ h.
Proof.
  intros Hall Hin. rewrite Forall_forall in Hall.
  specialize (Hall 58 Hin). by vm_compute in Hall.
Qed.

Lemma app_cons_inj_last {A} (c : A) : ∀ l1 l2 h1 h2,
  c ∉ h1 → c ∉ h2 → l1 ++ c :: h1 = l2 ++ c :: h2 → l1 = l2 ∧ h1 = h2.
Proof.
  induction l1 as [| a l1 IH]; intros [| b l2] h1 h2 H1 H2 Heq; cbn in Heq.
  - by injection Heq.
  - injection Heq as <- ->. destruct H1. apply elem_of_app. right. by left.
  - injection Heq as -> <-. destruct H2. apply elem_of_app. right. by left.
  - injection Heq as -> Heq. destruct (IH l2 h1 h2 H1 H2 Heq) as [-> ->]. done.
Qed.

(** Two requests get the same cache key exactly when they have the same
    domain and the same fingerprint: a colon in the domain (the raw string
    stands for the domain when it is not a URL) cannot make the keys of two
    different pairs meet. *)
Theorem generateCacheKey_inj (domain domain' : jsstring) (urls urls' : list jsstring) :
  generateCacheKey domain (generateUrlsHash urls)
  = generateCacheKey domain' (generateUrlsHash urls')
  ↔ domain = domain' ∧ generateUrlsHash urls = generateUrlsHash urls'.
Proof.
  split; [| by intros [-> ->]].
  unfold generateCacheKey. intros Heq.
  apply app_inv_head in Heq. apply app_inv_head in Heq.
  change (lit ":" ++ ?h) with (58 :: h) in Heq.
  apply app_cons_inj_last in Heq; [done | |];
    apply no_colon_digit36; unfold generateUrlsHash; apply Forall_simpleHash.
Qed.

(** ** The pipeline *)

Import Pipeline.

#[export] Instance Status_eq_dec : EqDecision Status.t.
Proof. solve_decision. Defined.

Section PipelineFacts.
Context {SA SR ES AP GS AC AT Loc : Type}.
Context (browser : Browser SA SR ES AP GS AT Loc).
Context (services : Services SA SR ES AP GS AC AT Loc).
Implicit Types (a : App SA SR ES AP GS AC AT Loc) (s : PipelineStage).
Implicit Types (e : thrown).
Abbreviation RunM := (Effect.M (App SA SR ES AP GS AC AT Loc) thrown).

(** *** The failure handler *)

Lemma failStage_not_running s : status s ≠ Status.running → failStage s = s.
Proof. unfold failStage. by destruct (status s). Qed.

Lemma failStage_running s :
  status s = Status.running →
  status (failStage s) = Status.error
  ∧ id (failStage s) = id s ∧ name (failStage s) = name s
  ∧ description (failStage s) = description s
  ∧ progress (failStage s) = progress s
  ∧ itemsProcessed (failStage s) = itemsProcessed s
  ∧ totalItems (failStage s) = totalItems s
  ∧ currentTask (failStage s) = currentTask s
  ∧ startTime (failStage s) = startTime s ∧ endTime (failStage s) = endTime s.
Proof. unfold failStage. intros ->. done. Qed.

Lemma handleFailure_run e a :
  handleFailure e a
  = (inr tt,
     map_appState (fun _ => AppState.error)
       (map_pipelineStages (map failStage)
          (map_activityLog
             (fun prev => prev ++ [{| timestamp := clock a;
                                      message := [10060] ++ lit " Analysis failed: "
                                                 ++ errorMessageOf e;
                                      type := LogType.error; stage := None |}])
             (map_error (fun _ => Some (errorMessageOf e)) a)))).
Proof. reflexivity. Qed.

(** C10: the failure handler changes a stage only when it is running. A
    stage that is pending, complete or skipped (or already in error) when
    the handler runs is the same stage afterwards, with its status, its
    progress and its times; a running stage becomes an error stage and
    keeps every other field. *)
Theorem handleFailure_changes_only_running e a (i : nat) s :
  pipelineStages a !! i = Some s →
  (status s ≠ Status.running →
   pipelineStages (handleFailure e a).2 !! i = Some s)
  ∧ (status s = Status.running →
     pipelineStages (handleFailure e a).2 !! i = Some (failStage s)
     ∧ status (failStage s) = Status.error
     ∧ progress (failStage s) = progress s
     ∧ startTime (failStage s) = startTime s
     ∧ endTime (failStage s) = endTime s)
  ∧ length (pipelineStages (handleFailure e a).2) = length (pipelineStages a).
Proof.
  intros Hs. rewrite handleFailure_run. cbn [snd pipelineStages map_appState
    map_pipelineStages map_activityLog map_error].
  change (map failStage (pipelineStages a)) with (failStage <$> pipelineStages a).
  rewrite list_lookup_fmap, Hs, length_fmap. cbn [fmap option_fmap option_map].
  split; [| split; [| done]].
  - intros Hne. by rewrite failStage_not_running.
  - intros Hrun. split; [done |].
    destruct (failStage_running s Hrun) as (? & _ & _ & _ & ? & _ & _ & _ & ? & ?).
    done.
Qed.

(** *** What callbacks and timers may change *)

Lemma sameButTask_refl s : sameButTask s s.
Proof. by repeat split. Qed.

Lemma sameButTask_trans s1 s2 s3 :
  sameButTask s1 s2 → sameButTask s2 s3 → sameButTask s1 s3.
Proof. unfold sameButTask. naive_solver congruence. Qed.

Lemma Forall2_sameButTask_refl (l : list PipelineStage) : Forall2 sameButTask l l.
Proof. apply Forall_Forall2_diag, Forall_forall. intros ? _. apply sameButTask_refl. Qed.

Lemma Forall2_sameButTask_trans (l1 l2 l3 : list PipelineStage) :
  Forall2 sameButTask l1 l2 → Forall2 sameButTask l2 l3 → Forall2 sameButTask l1 l3.
Proof.
  intros H12. revert l3. induction H12 as [| s1 s2 l1 l2 Hs _ IH]; intros l3 H23.
  - by inversion H23.
  - inversion H23 as [| ? s3 ? l3' Hs' H23' ]; subst. constructor.
    + by eapply sameButTask_trans.
    + by apply IH.
Qed.

Lemma taskDrift_refl a : taskDrift a a.
Proof.
  unfold taskDrift. repeat split; try done.
  apply Forall2_sameButTask_refl.
Qed.

Lemma taskDrift_trans a1 a2 a3 : taskDrift a1 a2 → taskDrift a2 a3 → taskDrift a1 a3.
Proof.
  unfold taskDrift.
  intros (? & ? & ? & ? & ? & ? & Hst & Hlog & ? & ? & ? & ?)
         (? & ? & ? & ? & ? & ? & Hst' & Hlog' & ? & ? & ? & ?).
  repeat split; try congruence.
  - by eapply Forall2_sameButTask_trans.
  - by etrans.
Qed.

Lemma drifts_ret {A} (x : A) : drifts (ret x : RunM A) (inr x).
Proof. intros a. exists a. split; [done | apply taskDrift_refl]. Qed.

Lemma drifts_throw {A} e : drifts (throw e : RunM A) (inl e).
Proof. intros a. exists a. split; [done | apply taskDrift_refl]. Qed.

Lemma drifts_bind {A B} (m : RunM A) (k : A → RunM B) x r :
  drifts m (inr x) → drifts (k x) r → drifts (m ≫= k) r.
Proof.
  intros Hm Hk a. destruct (Hm a) as (a1 & Hm1 & Hd1).
  destruct (Hk a1) as (a2 & Hk2 & Hd2).
  exists a2. split; [| by eapply taskDrift_trans].
  unfold mbind, M_bind, bind. by rewrite Hm1.
Qed.

Lemma drifts_forEach {P} (cb : P → RunM unit) (l : list P) :
  (∀ p, drifts (cb p) (inr tt)) → drifts (forEach l cb) (inr tt).
Proof.
  intros Hcb. induction l as [| p l IH]; [apply drifts_ret |].
  cbn [forEach]. by eapply drifts_bind.
Qed.

Lemma Forall2_map_sameButTask (f : PipelineStage → PipelineStage)
    (l : list PipelineStage) :
  (∀ s, sameButTask s (f s)) → Forall2 sameButTask l (map f l).
Proof.
  intros Hf. induction l as [| s l IH]; constructor; [apply Hf | done].
Qed.

Lemma drifts_setCurrentTask stageId msg :
  drifts (setCurrentTask stageId msg : RunM unit) (inr tt).
Proof.
  intros a. eexists. split; [reflexivity |].
  unfold taskDrift. cbn. repeat split; try done.
  apply Forall2_map_sameButTask. intros s.
  destruct (decide (id s = stageId)); [| apply sameButTask_refl].
  by repeat split.
Qed.

Lemma drifts_addLog msg t st : drifts (addLog msg t st : RunM unit) (inr tt).
Proof.
  intros a. eexists. split; [reflexivity |].
  unfold taskDrift. cbn. repeat split; try done.
  - apply Forall2_sameButTask_refl.
  - by apply prefix_app_r.
Qed.

Lemma drifts_map_clock f : drifts (modify (map_clock f) : RunM unit) (inr tt).
Proof.
  intros a. eexists. split; [reflexivity |].
  unfold taskDrift. cbn. repeat split; try done.
  apply Forall2_sameButTask_refl.
Qed.

Lemma drifts_onAnalysisReport r :
  drifts (onAnalysisReport browser r : RunM unit) (inr tt).
Proof.
  destruct r as [msg | msg]; cbn [onAnalysisReport].
  - destruct (mentionsCompetitor browser msg);
      (eapply drifts_bind; [apply drifts_setCurrentTask | apply drifts_addLog]).
  - eapply drifts_bind; [apply drifts_setCurrentTask | apply drifts_addLog].
Qed.

Lemma drifts_onActionPlanProgress msg :
  drifts (onActionPlanProgress msg : RunM unit) (inr tt).
Proof.
  eapply drifts_bind; [apply drifts_setCurrentTask | apply drifts_addLog].
Qed.

Lemma drifts_runTimers now :
  drifts (withStorage browser (runTimers (host_write browser) now) : RunM unit)
         (inr tt).
Proof.
  intros a. unfold withStorage.
  destruct (runTimers_safe (host_write browser) now (localStorage a)) as [w' ->].
  eexists. split; [reflexivity |].
  unfold taskDrift. cbn. repeat split; try done.
  apply Forall2_sameButTask_refl.
Qed.

Lemma drifts_await {P R} (o : Outcome P R) (cb : P → RunM unit) :
  (∀ p, drifts (cb p) (inr tt)) → drifts (await browser o cb) (settled o).
Proof.
  intros Hcb a.
  assert (Hrest : drifts
            (withStorage browser (runTimers (host_write browser) (clock a)) ;;
             forEach (reports o)
               (fun r => modify (map_clock (fun _ => clock a + r.1)) ;; cb r.2) ;;
             modify (map_clock (fun _ => clock a + elapsed o)) ;;
             match settled o with
             | inl e => throw e
             | inr r => ret r
             end) (settled o)).
  { eapply drifts_bind; [apply drifts_runTimers |].
    eapply drifts_bind.
    { apply drifts_forEach. intros p.
      eapply drifts_bind; [apply drifts_map_clock | apply Hcb]. }
    eapply drifts_bind; [apply drifts_map_clock |].
    destruct (settled o); [apply drifts_throw | apply drifts_ret]. }
  destruct (Hrest a) as (a' & Ha' & Hd). exists a'. split; [| done].
  rewrite <- Ha'. reflexivity.
Qed.

Lemma drifts_deliverPending_from a :
  ∃ a', deliverPending browser a = (inr tt, a') ∧ taskDrift a a'.
Proof.
  unfold deliverPending.
  destruct (drifts_forEach (fun r => onAnalysisReport browser r : RunM unit)
              (pendingReports a) drifts_onAnalysisReport
              (map_pendingReports (fun _ => []) a)) as (a' & Ha' & Hd).
  exists a'. split.
  - rewrite <- Ha'. reflexivity.
  - eapply taskDrift_trans; [| exact Hd].
    unfold taskDrift. cbn. repeat split; try done.
    apply Forall2_sameButTask_refl.
Qed.

(** *** A failing run *)

Lemma startRun_run a : startRun a = (inr tt, (startRun a).2).
Proof. reflexivity. Qed.

Lemma handleSubmit_run data a config href :
  sitemapUrl data ≠ [] →
  aiConfig a = Some config →
  URL_href browser (sitemapUrl data) = Some href →
  handleSubmit browser services data a
  = (try_catch (runPipeline browser services config data href
                  (competitorUrlsOf browser data))
               handleFailure ;;
     deliverPending browser) (startRun a).2.
Proof.
  intros Hurl Hcfg Hhref. unfold handleSubmit.
  destruct (sitemapUrl data) as [| c u]; [done |].
  unfold mbind, M_bind. unfold bind at 1. unfold gets.
  rewrite Hcfg, Hhref. cbn zeta.
  unfold bind at 1. by rewrite startRun_run.
Qed.


(** *** Running a stage step by step *)

Lemma runs_bind {A B} (m : RunM A) (k : A → RunM B) a x a1 r a2 :
  m a = (inr x, a1) → k x a1 = (r, a2) → (m ≫= k) a = (r, a2).
Proof. intros Hm Hk. unfold mbind, M_bind, bind. by rewrite Hm. Qed.

Lemma runs_bind_throw {A B} (m : RunM A) (k : A → RunM B) a e a1 :
  m a = (inl e, a1) → (m ≫= k) a = (inl e, a1).
Proof. intros Hm. unfold mbind, M_bind, bind. by rewrite Hm. Qed.

Lemma keepsReplayed_refl (l : list PipelineStage) : keepsReplayed l l.
Proof. apply Forall_Forall2_diag, Forall_forall. by intros s _. Qed.

Lemma keepsReplayed_trans (l1 l2 l3 : list PipelineStage) :
  keepsReplayed l1 l2 → keepsReplayed l2 l3 → keepsReplayed l1 l3.
Proof.
  unfold keepsReplayed. intros H12. revert l3.
  induction H12 as [| s1 s2 l1 l2 [Hid Hs] _ IH]; intros l3 H23.
  - by inversion H23.
  - inversion H23 as [| ? s3 ? l3' [Hid' Hs'] H23']; subst. constructor.
    + split; [congruence |]. intros Hin.
      destruct (Hs Hin) as [E1 E2].
      destruct (Hs' ltac:(by rewrite Hid)) as [E3 E4].
      split; congruence.
    + by apply IH.
Qed.

Lemma keepsReplayed_sameButTask (l l' : list PipelineStage) :
  Forall2 sameButTask l l' → keepsReplayed l l'.
Proof.
  intros H. eapply Forall2_impl; [exact H |].
  intros s s' (Hid & _ & _ & Hst & Hpr & _). done.
Qed.

Lemma keepsReplayed_updateStage stageId u (l : list PipelineStage) :
  stageId ∉ replayedStages →
  keepsReplayed l
    (map (fun s => if decide (id s = stageId) then applyStageUpdate s u else s) l).
Proof.
  intros Hid. unfold keepsReplayed.
  induction l as [| s l IH]; constructor; [| done].
  destruct (decide (id s = stageId)) as [<- | ?]; [| done].
  split; [done |]. intros Hin. by destruct Hid.
Qed.

Lemma replayed_keeps (l0 l l' : list PipelineStage) :
  replayed l0 l → keepsReplayed l l' → replayed l0 l'.
Proof.
  unfold replayed, keepsReplayed. intros H0. revert l'.
  induction H0 as [| s0 s l0 l [Hid Hs] _ IH]; intros l' Hk.
  - by inversion Hk.
  - inversion Hk as [| ? s' ? l'' [Hid' Hs'] Hk']; subst. constructor.
    + split; [congruence |]. intros Hin.
      destruct (Hs Hin) as [Hst Hpr].
      destruct (Hs' ltac:(by rewrite Hid)) as [E3 E4].
      split; congruence.
    + by apply IH.
Qed.

Lemma replayed_failStage (l0 l : list PipelineStage) :
  replayed l0 l → replayed l0 (map failStage l).
Proof.
  unfold replayed. induction 1 as [| s0 s l0 l [Hid Hs] _ IH]; [constructor |].
  cbn [map]. constructor; [| done].
  destruct (decide (status s = Status.running)) as [Hrun | Hrun].
  - split; [by destruct (failStage_running s Hrun) as (_ & -> & _) |].
    intros Hin. destruct (Hs Hin) as [Hst _]. congruence.
  - by rewrite failStage_not_running.
Qed.

Lemma actionplan_not_replayed : lit "actionplan" ∉ replayedStages.
Proof.
  unfold replayedStages. vm_compute. intros H.
  repeat (apply elem_of_cons in H as [H | H]; [discriminate |]).
  by apply elem_of_nil in H.
Qed.

Lemma summary_not_replayed : lit "summary" ∉ replayedStages.
Proof.
  unfold replayedStages. vm_compute. intros H.
  repeat (apply elem_of_cons in H as [H | H]; [discriminate |]).
  by apply elem_of_nil in H.
Qed.

(** Stage 6: one call of the action plan collaborator, on the results
    given; the plan is added to the partial results when it comes. *)
Lemma actionPlanStage_effect config sw seo announce task done a :
  let o := createActionPlan services config sw seo in
  ∃ a', actionPlanStage browser services config sw seo announce task done a
        = (settled o, a')
        ∧ calls a' = calls a ++ [CallCreateActionPlan sw seo]
        ∧ keepsReplayed (pipelineStages a) (pipelineStages a')
        ∧ sitewideAnalysis (partialResults a') = sitewideAnalysis (partialResults a)
        ∧ seoAnalysis (partialResults a') = seoAnalysis (partialResults a)
        ∧ urlsDiscovered (partialResults a') = urlsDiscovered (partialResults a)
        ∧ executiveSummary (partialResults a') = executiveSummary (partialResults a)
        ∧ actionPlan (partialResults a')
          = match settled o with
            | inr plan => Some plan
            | inl _ => actionPlan (partialResults a)
            end.
Proof.
  intros o. unfold actionPlanStage. fold o.
  set (a1 := (recordCall (CallCreateActionPlan sw seo)
                (markRunning (lit "actionplan") task
                   (addLog announce LogType.ai (Some (lit "actionplan")) a).2).2).2).
  destruct (drifts_await o onActionPlanProgress drifts_onActionPlanProgress a1)
    as (a2 & Hawait & (_ & _ & _ & _ & _ & _ & Hst & _ & Hpart & _ & _ & Hcalls)).
  assert (Hk1 : keepsReplayed (pipelineStages a) (pipelineStages a2)).
  { eapply keepsReplayed_trans; [| by apply keepsReplayed_sameButTask].
    subst a1. cbn. apply keepsReplayed_updateStage, actionplan_not_replayed. }
  destruct (settled o) as [e | plan] eqn:Hsettled.
  - exists a2. split.
    + eapply runs_bind; [reflexivity |].
      eapply runs_bind; [reflexivity |].
      eapply runs_bind; [reflexivity |].
      eapply runs_bind_throw. exact Hawait.
    + rewrite Hcalls, Hpart. subst a1. cbn. done.
  - eexists. split.
    + eapply runs_bind; [reflexivity |].
      eapply runs_bind; [reflexivity |].
      eapply runs_bind; [reflexivity |].
      eapply runs_bind; [exact Hawait |].
      eapply runs_bind; [reflexivity |].
      eapply runs_bind; [reflexivity |].
      eapply runs_bind; [reflexivity |].
      reflexivity.
    + cbn. rewrite Hcalls, Hpart. subst a1. cbn.
      split; [done |]. split; [| done].
      eapply keepsReplayed_trans; [exact Hk1 |].
      apply keepsReplayed_updateStage, actionplan_not_replayed.
Qed.

(** Stage 7: one call of the summary collaborator, on the results given. *)
Lemma summaryStage_effect config sw seo task a :
  let o := generateExecutiveSummary services config sw seo in
  ∃ a', summaryStage browser services config sw seo task a = (settled o, a')
        ∧ calls a' = calls a ++ [CallGenerateExecutiveSummary sw seo]
        ∧ keepsReplayed (pipelineStages a) (pipelineStages a')
        ∧ sitewideAnalysis (partialResults a') = sitewideAnalysis (partialResults a)
        ∧ seoAnalysis (partialResults a') = seoAnalysis (partialResults a)
        ∧ urlsDiscovered (partialResults a') = urlsDiscovered (partialResults a)
        ∧ actionPlan (partialResults a') = actionPlan (partialResults a)
        ∧ executiveSummary (partialResults a')
          = match settled o with
            | inr summary => Some summary
            | inl _ => executiveSummary (partialResults a)
            end.
Proof.
  intros o. unfold summaryStage. fold o.
  set (a1 := (recordCall (CallGenerateExecutiveSummary sw seo)
                (markRunning (lit "summary") task
                   (addLog (lit "Synthesizing executive summary...") LogType.ai
                           (Some (lit "summary")) a).2).2).2).
  destruct (drifts_await o (fun _ => ret tt : RunM unit) (fun _ => drifts_ret tt) a1)
    as (a2 & Hawait & (_ & _ & _ & _ & _ & _ & Hst & _ & Hpart & _ & _ & Hcalls)).
  assert (Hk1 : keepsReplayed (pipelineStages a) (pipelineStages a2)).
  { eapply keepsReplayed_trans; [| by apply keepsReplayed_sameButTask].
    subst a1. cbn. apply keepsReplayed_updateStage, summary_not_replayed. }
  destruct (settled o) as [e | summary] eqn:Hsettled.
  - exists a2. split.
    + eapply runs_bind; [reflexivity |].
      eapply runs_bind; [reflexivity |].
      eapply runs_bind; [reflexivity |].
      eapply runs_bind_throw. exact Hawait.
    + rewrite Hcalls, Hpart. subst a1. cbn. done.
  - eexists. split.
    + eapply runs_bind; [reflexivity |].
      eapply runs_bind; [reflexivity |].
      eapply runs_bind; [reflexivity |].
      eapply runs_bind; [exact Hawait |].
      eapply runs_bind; [reflexivity |].
      eapply runs_bind; [reflexivity |].
      eapply runs_bind; [reflexivity |].
      reflexivity.
    + cbn. rewrite Hcalls, Hpart. subst a1. cbn.
      split; [done |]. split; [| done].
      eapply keepsReplayed_trans; [exact Hk1 |].
      apply keepsReplayed_updateStage, summary_not_replayed.
Qed.

(** A storage call changes the storage only. *)
Lemma withStorage_frame {A} (m : Effect.M (world SA SR) exn A) a :
  let out := withStorage browser m a in
  calls out.2 = calls a
  ∧ pipelineStages out.2 = pipelineStages a
  ∧ partialResults out.2 = partialResults a
  ∧ clock out.2 = clock a
  ∧ pendingReports out.2 = pendingReports a.
Proof.
  cbn zeta. unfold withStorage.
  by destruct (m (localStorage a)) as [[e | x] w].
Qed.

Lemma saveAnalysis_effect data competitorUrls sw seo sources plan summary a :
  let out := saveAnalysis browser data competitorUrls sw seo sources plan summary a in
  calls out.2 = calls a
  ∧ pipelineStages out.2 = pipelineStages a
  ∧ partialResults out.2 = partialResults a.
Proof.
  cbn zeta. unfold saveAnalysis. munfold. unfold Date_now, gets.
  unfold setAnalysisHistory, modify.
  set (a1 := map_analysisHistory _ a).
  set (m := setItem _ _ _).
  pose proof (withStorage_frame m a1) as (Hc & Hs & Hp & _).
  destruct (withStorage browser m a1) as [[e | []] a2];
    subst a1; cbn in *; rewrite ?Hc, ?Hs, ?Hp; done.
Qed.

(** The four stage updates of the fast path. *)
Lemma completeIf_spec stageId now s :
  let s' := if decide (id s = stageId) then applyStageUpdate s (completedAt now)
            else s in
  id s' = id s
  ∧ (id s = stageId → status s' = Status.complete ∧ progress s' = inject_Z 100)
  ∧ (status s = Status.complete ∧ progress s = inject_Z 100 →
     status s' = Status.complete ∧ progress s' = inject_Z 100).
Proof. cbn zeta. by destruct (decide (id s = stageId)). Qed.

Lemma replayed_complete4 now l :
  let mark := fun stageId (s : PipelineStage) =>
                if decide (id s = stageId) then applyStageUpdate s (completedAt now)
                else s in
  replayed l (map (mark (lit "content"))
                (map (mark (lit "technical"))
                   (map (mark (lit "competitor")) (map (mark (lit "rank")) l)))).
Proof.
  intros mark. unfold replayed.
  induction l as [| s l IH]; [constructor |].
  cbn [map]. constructor; [| exact IH].
  pose proof (completeIf_spec (lit "rank") now s) as (I1 & H1 & _).
  fold (mark (lit "rank") s) in I1, H1.
  set (s1 := mark (lit "rank") s) in *.
  pose proof (completeIf_spec (lit "competitor") now s1) as (I2 & H2 & K2).
  fold (mark (lit "competitor") s1) in I2, H2, K2.
  set (s2 := mark (lit "competitor") s1) in *.
  pose proof (completeIf_spec (lit "technical") now s2) as (I3 & H3 & K3).
  fold (mark (lit "technical") s2) in I3, H3, K3.
  set (s3 := mark (lit "technical") s2) in *.
  pose proof (completeIf_spec (lit "content") now s3) as (I4 & H4 & K4).
  fold (mark (lit "content") s3) in I4, H4, K4.
  set (s4 := mark (lit "content") s3) in *.
  split; [congruence |].
  unfold replayedStages. rewrite !elem_of_cons.
  intros [E | [E | [E | [E | E%elem_of_nil]]]]; [| | | | done].
  - apply K4, K3, K2, H1, E.
  - apply K4, K3, H2. congruence.
  - apply K4, H3. congruence.
  - apply H4. congruence.
Qed.

Lemma replayed_markComplete a :
  replayed (pipelineStages a)
           (pipelineStages (forEach replayedStages markComplete a).2).
Proof. exact (replayed_complete4 (clock a) (pipelineStages a)). Qed.

(** *** The crawl stage *)

Lemma map_id_update stageId u (l : list PipelineStage) :
  map id (map (fun s => if decide (id s = stageId) then applyStageUpdate s u else s) l)
  = map id l.
Proof. rewrite map_map. apply map_ext. intros s. by destruct (decide _). Qed.

Lemma keeps_bind {A B} (m : RunM A) (k : A → RunM B) :
  (∀ a, keepsCallsAndIds a (m a).2) →
  (∀ x a, keepsCallsAndIds a (k x a).2) →
  ∀ a, keepsCallsAndIds a ((m ≫= k) a).2.
Proof.
  intros Hm Hk a. unfold mbind, M_bind, bind. specialize (Hm a).
  destruct (m a) as [[e | x] a1]; [done |].
  specialize (Hk x a1). destruct Hm as [Hc Hi], Hk as [Hc' Hi'].
  cbn in *. split; congruence.
Qed.

Lemma keeps_forEach {P} (cb : P → RunM unit) (l : list P) :
  (∀ p a, keepsCallsAndIds a (cb p a).2) →
  ∀ a, keepsCallsAndIds a (forEach l cb a).2.
Proof.
  intros Hcb. induction l as [| p l IH]; [by intros a |].
  cbn [forEach]. apply keeps_bind; [apply Hcb | by intros _].
Qed.

Lemma keeps_onCrawlProgress p a :
  keepsCallsAndIds a (onCrawlProgress p a).2.
Proof. split; [reflexivity |]. cbn. apply map_id_update. Qed.

Lemma keeps_await {P R} (o : Outcome P R) (cb : P → RunM unit) :
  (∀ p a, keepsCallsAndIds a (cb p a).2) →
  ∀ a, keepsCallsAndIds a (await browser o cb a).2.
Proof.
  intros Hcb. unfold await.
  apply keeps_bind; [by intros a |]. intros start.
  apply keeps_bind.
  { intros a. pose proof (withStorage_frame
                            (runTimers (host_write browser) start) a)
      as (Hc & Hs & _).
    split; [exact Hc | by rewrite Hs]. }
  intros _. apply keeps_bind.
  { apply keeps_forEach. intros p.
    apply keeps_bind; [by intros a | intros _; apply Hcb]. }
  intros _. apply keeps_bind; [by intros a |]. intros _ a.
  by destruct (settled o).
Qed.

Lemma bind_run_eq {A B} (m : RunM A) (k : A → RunM B) a x a1 :
  m a = (inr x, a1) → (m ≫= k) a = k x a1.
Proof. intros Hm. unfold mbind, M_bind, bind. by rewrite Hm. Qed.

(** Stage 1 calls the crawler, once, and nothing else. *)
Lemma crawlStage_effect href a :
  let out := crawlStage browser services href a in
  calls out.2 = calls a ++ [CallCrawlSitemap href]
  ∧ map id (pipelineStages out.2) = map id (pipelineStages a).
Proof.
  cbn zeta. unfold crawlStage.
  erewrite bind_run_eq; [| reflexivity].
  erewrite bind_run_eq; [| reflexivity].
  erewrite bind_run_eq; [| reflexivity].
  match goal with
  | |- context [(?m ≫= ?k) ?s] =>
      assert (Htail : keepsCallsAndIds s ((m ≫= k) s).2)
  end.
  { apply keeps_bind; [apply keeps_await, keeps_onCrawlProgress |].
    intros urls a'. split; [reflexivity |]. cbn. apply map_id_update. }
  destruct Htail as [-> ->]. split; [reflexivity |].
  cbn. apply map_id_update.
Qed.

(** *** A crawl that finds nothing *)

(** When the crawl returns no URL the run fails with the message of the
    empty crawl: the application is in the error state and no
    collaborator is called after the crawler. *)
Theorem handleSubmit_empty_crawl data a0 config href a1 :
  sitemapUrl data ≠ [] →
  aiConfig a0 = Some config →
  URL_href browser (sitemapUrl data) = Some href →
  crawlStage browser services href (startRun a0).2 = (inr [], a1) →
  let out := handleSubmit browser services data a0 in
  out.1 = inr tt
  ∧ appState out.2 = AppState.error
  ∧ error out.2
    = Some (lit "Crawl complete, but no URLs were found. Your sitemap might be empty or in a format that could not be parsed.")
  ∧ calls out.2 = calls a0 ++ [CallCrawlSitemap href].
Proof.
  intros Hurl Hcfg Hhref Hcrawl out. subst out.
  rewrite (handleSubmit_run data a0 config href) by done.
  pose proof (crawlStage_effect href (startRun a0).2) as [Hc1 _].
  rewrite Hcrawl in Hc1. cbn [snd] in Hc1.
  set (e := ErrorObject (lit "Crawl complete, but no URLs were found. Your sitemap might be empty or in a format that could not be parsed.")).
  assert (Hrun : runPipeline browser services config data href
                   (competitorUrlsOf browser data) (startRun a0).2 = (inl e, a1)).
  { unfold runPipeline, mbind, M_bind, bind. by rewrite Hcrawl. }
  assert (Hstep : (try_catch (runPipeline browser services config data href
                                (competitorUrlsOf browser data))
                             handleFailure ;;
                   deliverPending browser) (startRun a0).2
                  = deliverPending browser (handleFailure e a1).2).
  { unfold mbind, M_bind, bind, try_catch. by rewrite Hrun. }
  rewrite Hstep, handleFailure_run. cbn [snd].
  set (aH := map_appState _ _).
  destruct (drifts_deliverPending_from aH)
    as (a2 & -> & (Herr & _ & _ & Hst & _ & _ & _ & _ & _ & _ & _ & Hcalls)).
  cbn [fst snd]. rewrite Hst, Herr, Hcalls. subst aH. cbn.
  by rewrite Hc1.
Qed.

(** *** The fast path *)

Lemma replayed_all (l l' : list PipelineStage) :
  replayed l l' →
  map id l' = map id l
  ∧ ∀ s, s ∈ l' → id s ∈ replayedStages →
         status s = Status.complete ∧ progress s = inject_Z 100.
Proof.
  unfold replayed. induction 1 as [| s s' l l' [Hid Hs] _ [IHi IHs]].
  - split; [done |]. by intros s Hin%elem_of_nil.
  - split; [cbn; congruence |].
    intros x [-> | Hin]%elem_of_cons Hx; [| by apply IHs].
    apply Hs. by rewrite <- Hid.
Qed.

Lemma cachedPath_effect config data competitorUrls urls
    (cached : SA * SR) a :
  let plan := settled (createActionPlan services config cached.1 cached.2) in
  let summary := settled (generateExecutiveSummary services config cached.1 cached.2) in
  ∃ r a', cachedPath browser services config data competitorUrls urls cached a = (r, a')
    ∧ calls a'
      = calls a ++ CallCreateActionPlan cached.1 cached.2
          :: match plan with
             | inr _ => [CallGenerateExecutiveSummary cached.1 cached.2]
             | inl _ => []
             end
    ∧ replayed (pipelineStages a) (pipelineStages a')
    ∧ sitewideAnalysis (partialResults a') = Some cached.1
    ∧ seoAnalysis (partialResults a') = Some cached.2
    ∧ urlsDiscovered (partialResults a') = Some (Z.of_nat (length urls))
    ∧ actionPlan (partialResults a')
      = match plan with inr p => Some p | inl _ => None end
    ∧ executiveSummary (partialResults a')
      = match plan, summary with
        | inr _, inr s => Some s
        | _, _ => None
        end.
Proof.
  intros plan summary. unfold cachedPath.
  erewrite bind_run_eq; [| reflexivity].
  erewrite bind_run_eq; [| reflexivity].
  erewrite bind_run_eq; [| reflexivity].
  match goal with
  | |- context [(_ ≫= _) ?s] => set (a1 := s)
  end.
  assert (Hr1 : replayed (pipelineStages a) (pipelineStages a1))
    by exact (replayed_complete4 (clock a) (pipelineStages a)).
  assert (Hc1 : calls a1 = calls a) by reflexivity.
  assert (Hp1 : partialResults a1
                = {| sitewideAnalysis := Some cached.1;
                     seoAnalysis := Some cached.2;
                     executiveSummary := None; actionPlan := None;
                     urlsDiscovered := Some (Z.of_nat (length urls));
                     urlsAnalyzed := None |}) by reflexivity.
  clearbody a1.
  destruct (actionPlanStage_effect config cached.1 cached.2
              (lit "Generating fresh action plan from cache...")
              (lit "Creating implementation roadmap...")
              (lit "Action plan generated") a1)
    as (a2 & Hplan & Hc2 & Hk2 & Hsw2 & Hseo2 & Hud2 & Hes2 & Hap2).
  fold plan in Hplan, Hap2.
  destruct plan as [e | p] eqn:Eplan.
  { exists (inl e), a2. split; [by apply runs_bind_throw |].
    rewrite Hc2, Hc1, Hsw2, Hseo2, Hud2, Hes2, Hap2, Hp1. cbn.
    repeat split; try done. by eapply replayed_keeps. }
  destruct (summaryStage_effect config cached.1 cached.2
              (lit "Creating 80/20 analysis...") a2)
    as (a3 & Hsum & Hc3 & Hk3 & Hsw3 & Hseo3 & Hud3 & Hap3 & Hes3).
  fold summary in Hsum, Hes3.
  assert (Hr3 : replayed (pipelineStages a) (pipelineStages a3))
    by (eapply replayed_keeps; [eapply replayed_keeps |]; eauto).
  destruct summary as [e | s] eqn:Esummary.
  { exists (inl e), a3. split.
    - eapply runs_bind; [exact Hplan |]. by apply runs_bind_throw.
    - rewrite Hc3, Hc2, Hc1, Hsw3, Hseo3, Hud3, Hes3, Hap3,
        Hsw2, Hseo2, Hud2, Hes2, Hap2, Hp1. cbn.
      rewrite <- (assoc_L (++)). done. }
  pose proof (saveAnalysis_effect data competitorUrls cached.1 cached.2 [] p s a3)
    as (Hc4 & Hs4 & Hp4).
  destruct (saveAnalysis browser data competitorUrls cached.1 cached.2 [] p s a3)
    as [r a4] eqn:Esave.
  cbn in Hc4, Hs4, Hp4.
  exists r, a4. split.
  - eapply runs_bind; [exact Hplan |]. eapply runs_bind; [exact Hsum |]. exact Esave.
  - rewrite Hc4, Hs4, Hp4, Hc3, Hc2, Hc1, Hsw3, Hseo3, Hud3, Hes3, Hap3,
      Hsw2, Hseo2, Hud2, Hap2, Hp1. cbn.
    rewrite <- (assoc_L (++)). done.
Qed.

(** After a crawl that found URLs, a hit of the lookup leads to the fast
    path; up to there nothing is called and no stage changes. *)
Lemma analysisStages_hit config data competitorUrls urls (cached : SA * SR) a :
  urls ≠ [] →
  (getAnalysis (URL_hostname browser) (clock a) (url data) urls (localStorage a)).1
  = inr (Some cached) →
  ∃ a', analysisStages browser services config data competitorUrls urls a
        = cachedPath browser services config data competitorUrls urls cached a'
        ∧ calls a' = calls a
        ∧ pipelineStages a' = pipelineStages a.
Proof.
  intros Hne Hhit. destruct urls as [| u urls]; [done |].
  unfold analysisStages.
  erewrite bind_run_eq; [| reflexivity].
  erewrite bind_run_eq; [| reflexivity].
  erewrite bind_run_eq; [| reflexivity].
  erewrite bind_run_eq; [| reflexivity].
  match goal with
  | |- context [(withStorage _ ?m ≫= _) ?s] =>
      pose proof (withStorage_frame m s) as (Hc & Hs & _);
      assert (Hrun : (withStorage browser m s).1 = inr (Some cached))
  end.
  { unfold withStorage. cbn.
    destruct (getAnalysis _ _ _ _ _) as [[e | r] w]; cbn in *; congruence. }
  match goal with
  | |- context [(withStorage _ ?m ≫= _) ?s] =>
      destruct (withStorage browser m s) as [r a'] eqn:E
  end.
  cbn in Hrun, Hc, Hs. subst r.
  exists a'. split; [| done].
  erewrite bind_run_eq; [| exact E]. reflexivity.
Qed.

Lemma try_catch_handleFailure (m : RunM unit) a r a3 :
  m a = (r, a3) →
  ∃ aT, try_catch m handleFailure a = (inr tt, aT)
        ∧ calls aT = calls a3
        ∧ partialResults aT = partialResults a3
        ∧ (pipelineStages aT = pipelineStages a3
           ∨ pipelineStages aT = map failStage (pipelineStages a3)).
Proof.
  intros Hm. unfold try_catch. rewrite Hm. destruct r as [e | []].
  - rewrite handleFailure_run. eexists. split; [reflexivity |]. cbn. auto.
  - exists a3. auto.
Qed.

(** C4, amended: in a run whose crawl found URLs and whose lookup then
    returns a cached pair, the collaborators called are the crawler and
    then the action plan generator on the cached pair, followed, when the
    action plan call returns, by the summary generator on the cached pair;
    the ranker and the analysis collaborators are not called.  At the end
    of the run the stage list has the seven stages, those of rank,
    competitor, technical and content are complete at 100, and the partial
    results hold the cached site-wide and per-page payloads, the action
    plan if its call returned and the summary if both calls returned. *)
Theorem handleSubmit_cache_hit data a0 config href urls a1 (cached : SA * SR) :
  sitemapUrl data ≠ [] →
  aiConfig a0 = Some config →
  URL_href browser (sitemapUrl data) = Some href →
  crawlStage browser services href (startRun a0).2 = (inr urls, a1) →
  urls ≠ [] →
  (getAnalysis (URL_hostname browser) (clock a1) (url data) urls (localStorage a1)).1
  = inr (Some cached) →
  let out := handleSubmit browser services data a0 in
  let plan := settled (createActionPlan services config cached.1 cached.2) in
  let summary := settled (generateExecutiveSummary services config cached.1 cached.2) in
  out.1 = inr tt
  ∧ calls out.2
    = calls a0 ++ CallCrawlSitemap href
        :: CallCreateActionPlan cached.1 cached.2
        :: match plan with
           | inr _ => [CallGenerateExecutiveSummary cached.1 cached.2]
           | inl _ => []
           end
  ∧ map id (pipelineStages out.2) = map id initialStages
  ∧ (∀ s, s ∈ pipelineStages out.2 → id s ∈ replayedStages →
          status s = Status.complete ∧ progress s = inject_Z 100)
  ∧ sitewideAnalysis (partialResults out.2) = Some cached.1
  ∧ seoAnalysis (partialResults out.2) = Some cached.2
  ∧ actionPlan (partialResults out.2)
    = match plan with inr p => Some p | inl _ => None end
  ∧ executiveSummary (partialResults out.2)
    = match plan, summary with
      | inr _, inr s => Some s
      | _, _ => None
      end.
Proof.
  intros Hurl Hcfg Hhref Hcrawl Hne Hhit out plan summary. subst out.
  rewrite (handleSubmit_run data a0 config href) by done.
  pose proof (crawlStage_effect href (startRun a0).2) as [Hc1 Hi1].
  rewrite Hcrawl in Hc1, Hi1. cbn [snd] in Hc1, Hi1.
  destruct (analysisStages_hit config data (competitorUrlsOf browser data)
              urls cached a1 Hne Hhit) as (aJ & Hstages & HcJ & HsJ).
  destruct (cachedPath_effect config data (competitorUrlsOf browser data)
              urls cached aJ)
    as (r & a3 & Hpath & Hc3 & Hr3 & Hsw & Hseo & _ & Hap & Hes).
  fold plan in Hc3, Hap, Hes. fold summary in Hes.
  assert (Hpipe : runPipeline browser services config data href
                    (competitorUrlsOf browser data) (startRun a0).2 = (r, a3)).
  { unfold runPipeline. erewrite bind_run_eq; [| exact Hcrawl].
    by rewrite Hstages. }
  destruct (try_catch_handleFailure _ _ _ _ Hpipe) as (aT & HT & HcT & HpT & HsT).
  assert (HrT : replayed (pipelineStages a1) (pipelineStages aT)).
  { rewrite <- HsJ. destruct HsT as [-> | ->]; [done |].
    by apply replayed_failStage. }
  destruct (drifts_deliverPending_from aT)
    as (a4 & Hd & (_ & _ & _ & _ & _ & _ & Hst4 & _ & Hp4 & _ & _ & Hc4)).
  erewrite runs_bind; [| exact HT | exact Hd]. cbn [fst snd].
  apply keepsReplayed_sameButTask in Hst4.
  destruct (replayed_all _ _ (replayed_keeps _ _ _ HrT Hst4)) as [Hids Hall].
  split; [done |]. split.
  { rewrite Hc4, HcT, Hc3, HcJ, Hc1. cbn. by rewrite <- (assoc_L (++)). }
  split; [by rewrite Hids, Hi1 |]. split; [exact Hall |].
  rewrite Hp4, HpT. done.
Qed.

End PipelineFacts.

(** ** Reasoning about a run, step by step *)

Section RunLogic.
Context {SA SR ES AP GS AC AT Loc : Type}.
Context (browser : Browser SA SR ES AP GS AT Loc).
Implicit Types (a : App SA SR ES AP GS AC AT Loc) (e : thrown).
Implicit Types (P I : App SA SR ES AP GS AC AT Loc → Prop).
Implicit Types (E : thrown → App SA SR ES AP GS AC AT Loc → Prop).
Abbreviation RunM := (Effect.M (App SA SR ES AP GS AC AT Loc) thrown).

Lemma triple_ret {A} (x : A) P (Q : A → _ → Prop) E :
  (∀ a, P a → Q x a) → triple P (ret x) Q E.
Proof. intros H a Ha. by apply H. Qed.

Lemma triple_ret_keep {A} (x : A) P E : triple P (ret x : RunM A) (fun _ => P) E.
Proof. by intros a Ha. Qed.

Lemma triple_throw {A} e P (Q : A → _ → Prop) E :
  (∀ a, P a → E e a) → triple P (throw e) Q E.
Proof. intros H a Ha. by apply H. Qed.

Lemma triple_gets {A} (f : _ → A) P (Q : A → _ → Prop) E :
  (∀ a, P a → Q (f a) a) → triple P (gets f) Q E.
Proof. intros H a Ha. by apply H. Qed.

Lemma triple_modify f P (Q : unit → _ → Prop) E :
  (∀ a, P a → Q tt (f a)) → triple P (modify f) Q E.
Proof. intros H a Ha. by apply H. Qed.

Lemma triple_bind {A B} (m : RunM A) (k : A → RunM B) P (Q' : A → _ → Prop)
    (Q : B → _ → Prop) E :
  triple P m Q' E → (∀ x, triple (Q' x) (k x) Q E) → triple P (m ≫= k) Q E.
Proof.
  intros Hm Hk a Ha. specialize (Hm a Ha).
  unfold mbind, M_bind, bind. destruct (m a) as [[e | x] a1]; [done |].
  by apply Hk.
Qed.

Lemma triple_conseq {A} (m : RunM A) P P' (Q Q' : A → _ → Prop) E E' :
  triple P' m Q' E' →
  (∀ a, P a → P' a) → (∀ x a, Q' x a → Q x a) → (∀ e a, E' e a → E e a) →
  triple P m Q E.
Proof.
  intros Hm HP HQ HE a Ha. specialize (Hm a (HP a Ha)).
  destruct (m a) as [[e | x] a1]; auto.
Qed.

Lemma triple_try_catch {A} (m : RunM A) (h : thrown → RunM A) P
    (Q : A → _ → Prop) E E' :
  triple P m Q E' → (∀ e, triple (E' e) (h e) Q E) → triple P (try_catch m h) Q E.
Proof.
  intros Hm Hh a Ha. specialize (Hm a Ha).
  unfold try_catch. destruct (m a) as [[e | x] a1]; [by apply Hh | done].
Qed.

Lemma triple_forEach {X} (l : list X) (body : X → RunM unit) I E :
  (∀ x, triple I (body x) (fun _ => I) E) →
  triple I (forEach l body) (fun _ => I) E.
Proof.
  intros Hbody. induction l as [| x l IH]; [by intros a Ha |].
  cbn [forEach]. eapply triple_bind; [apply Hbody | intros []; exact IH].
Qed.

Lemma triple_withStorage {A} (m : Effect.M (world SA SR) exn A) P
    (Q : A → _ → Prop) E :
  (∀ a, P a →
        match m (localStorage a) with
        | (inr x, w) => Q x (map_localStorage (fun _ => w) a)
        | (inl x, w) =>
            E (ErrorObject (DOMException_message browser x))
              (map_localStorage (fun _ => w) a)
        end) →
  triple P (withStorage browser m) Q E.
Proof.
  intros H a Ha. specialize (H a Ha). unfold withStorage.
  by destruct (m (localStorage a)) as [[x | x] w].
Qed.

(** The rules for an invariant. *)
Lemma invariant_ret {A} (x : A) I : invariant I (ret x : RunM A).
Proof. by apply triple_ret. Qed.

Lemma invariant_throw {A} e I : invariant I (throw e : RunM A).
Proof. by apply triple_throw. Qed.

Lemma invariant_gets {A} (f : _ → A) I : invariant I (gets f : RunM A).
Proof. by apply triple_gets. Qed.

Lemma invariant_modify f I : (∀ a, I a → I (f a)) → invariant I (modify f : RunM unit).
Proof. intros H. by apply triple_modify. Qed.

Lemma invariant_bind {A B} (m : RunM A) (k : A → RunM B) I :
  invariant I m → (∀ x, invariant I (k x)) → invariant I (m ≫= k).
Proof. intros Hm Hk. eapply triple_bind; [exact Hm | exact Hk]. Qed.

Lemma invariant_try_catch {A} (m : RunM A) (h : thrown → RunM A) I :
  invariant I m → (∀ e, invariant I (h e)) → invariant I (try_catch m h).
Proof. intros Hm Hh. eapply triple_try_catch; [exact Hm | exact Hh]. Qed.

Lemma invariant_forEach {X} (l : list X) (body : X → RunM unit) I :
  (∀ x, invariant I (body x)) → invariant I (forEach l body).
Proof. apply triple_forEach. Qed.

Lemma invariant_withStorage {A} (m : Effect.M (world SA SR) exn A) I :
  (∀ a w, I a → I (map_localStorage (fun _ => w) a)) →
  invariant I (withStorage browser m).
Proof.
  intros H. apply triple_withStorage. intros a Ha.
  destruct (m (localStorage a)) as [[x | x] w]; by apply H.
Qed.

(** [await]: an invariant of the callbacks that the clock and the
    storage do not matter to holds afterwards, and a result is the one
    the call settled with. *)
Lemma triple_await {R X} (o : Outcome R X) (cb : R → RunM unit) I :
  (∀ a w, I a → I (map_localStorage (fun _ => w) a)) →
  (∀ a t, I a → I (map_clock (fun _ => t) a)) →
  (∀ p, invariant I (cb p)) →
  triple I (await browser o cb)
         (fun r a => I a ∧ settled o = inr r) (fun _ => I).
Proof.
  intros Hst Hclock Hcb. unfold await, Date_now.
  eapply triple_bind; [apply invariant_gets |]. intros start. cbn beta.
  eapply triple_bind; [by apply invariant_withStorage |]. intros ?. cbn beta.
  eapply triple_bind.
  { apply invariant_forEach. intros r.
    apply invariant_bind; [apply invariant_modify; intros; by apply Hclock |].
    intros ?. cbn beta. apply Hcb. }
  intros ?. cbn beta.
  eapply triple_bind; [apply invariant_modify; intros; by apply Hclock |].
  intros ?. cbn beta. destruct (settled o) as [e | r].
  - by apply triple_throw.
  - by apply triple_ret.
Qed.

Lemma invariant_await {R X} (o : Outcome R X) (cb : R → RunM unit) I :
  (∀ a w, I a → I (map_localStorage (fun _ => w) a)) →
  (∀ a t, I a → I (map_clock (fun _ => t) a)) →
  (∀ p, invariant I (cb p)) →
  invariant I (await browser o cb).
Proof.
  intros Hst Hclock Hcb.
  eapply triple_conseq; [by apply triple_await | done | by intros x a [? _] | done].
Qed.

(** A computation that keeps [I] fits between any two steps. *)
Lemma triple_invariant {A} (m : RunM A) I E :
  invariant I m → (∀ e a, I a → E e a) → triple I m (fun _ => I) E.
Proof.
  intros Hm HE. eapply triple_conseq; [exact Hm | done | done | exact HE].
Qed.

End RunLogic.

(** The head of a computation, to take it apart. *)
Ltac head_of t :=
  lazymatch t with
  | ?f _ => head_of f
  | _ => t
  end.

(** [invariant I m] for a computation built from the steps of the
    pipeline; [leaf] proves that the primitive steps keep [I]. *)
Ltac keep_invariant leaf :=
  cbn beta zeta;
  lazymatch goal with
  | |- invariant _ (match ?x with _ => _ end) => destruct x; keep_invariant leaf
  | |- invariant _ ?m =>
      let h := head_of m in
      lazymatch h with
      | @mbind =>
          apply invariant_bind; [keep_invariant leaf | intros ?; keep_invariant leaf]
      | @ret => apply invariant_ret
      | @throw => apply invariant_throw
      | @gets => apply invariant_gets
      | @modify => apply invariant_modify; leaf
      | @try_catch =>
          apply invariant_try_catch; [keep_invariant leaf | intros ?; keep_invariant leaf]
      | @forEach => apply invariant_forEach; intros ?; keep_invariant leaf
      | @withStorage => apply invariant_withStorage; leaf
      | @await =>
          apply invariant_await; [leaf | leaf | intros ?; keep_invariant leaf]
      | _ => unfold h; keep_invariant leaf
      end
  end.

(** A primitive step keeps a statement about fields it does not write. *)
Ltac untouched := intros; cbn; assumption.

(** ** Every run *)

Section PipelineRuns.
Context {SA SR ES AP GS AC AT Loc : Type}.
Context (browser : Browser SA SR ES AP GS AT Loc).
Context (services : Services SA SR ES AP GS AC AT Loc).
Implicit Types (a : App SA SR ES AP GS AC AT Loc) (e : thrown).
Abbreviation RunM := (Effect.M (App SA SR ES AP GS AC AT Loc) thrown).

Implicit Types (ids : list jsstring) (t : list (call SA SR)).
Implicit Types (pr : PartialResults SA SR ES AP).

(** *** The stages *)

Lemma stagesDone_weaken ids a : stagesDone ids a → stagesDone [] a.
Proof. intros [Hids _]. split; [done |]. by intros s _ ?%elem_of_nil. Qed.

Lemma stagesDone_updateStage ids x u a :
  x ∉ ids ∨ (set_status u = None ∧ set_progress u = None) →
  stagesDone ids a →
  stagesDone ids
    (map_pipelineStages
       (map (fun s => if decide (id s = x) then applyStageUpdate s u else s)) a).
Proof.
  intros Hside [Hids Hdone]. split; cbn.
  - by rewrite map_id_update.
  - intros s' Hin Hid.
    apply list_elem_of_In, in_map_iff in Hin as (s & <- & Hin%list_elem_of_In).
    destruct (decide (id s = x)) as [Hx | Hx]; [| by apply Hdone].
    cbn in Hid. destruct Hside as [Hnin | [Hst Hpr]].
    + destruct Hnin. by rewrite <- Hx.
    + cbn. rewrite Hst, Hpr. cbn. by apply Hdone.
Qed.

Lemma stagesDone_complete ids x now a :
  stagesDone ids a →
  stagesDone (x :: ids)
    (map_pipelineStages
       (map (fun s => if decide (id s = x)
                      then applyStageUpdate s (completedAt now) else s)) a).
Proof.
  intros [Hids Hdone]. split; cbn.
  - by rewrite map_id_update.
  - intros s' Hin Hid.
    apply list_elem_of_In, in_map_iff in Hin as (s & <- & Hin%list_elem_of_In).
    destruct (decide (id s = x)) as [Hx | Hx]; [done |].
    apply Hdone; [done |].
    by apply elem_of_cons in Hid as [? | ?].
Qed.

(** When every stage of the definitions is done, every stage is. *)
Lemma stagesDone_all ids a :
  (∀ x, x ∈ map id initialStages → x ∈ ids) →
  stagesDone ids a →
  map id (pipelineStages a) = map id initialStages
  ∧ Forall (fun s => status s = Status.complete ∧ progress s = inject_Z 100)
           (pipelineStages a).
Proof.
  intros Hall [Hids Hdone]. split; [done |].
  apply Forall_forall. intros s Hin. apply Hdone; [done |].
  apply Hall. rewrite <- Hids. apply list_elem_of_In, in_map.
  by apply list_elem_of_In.
Qed.

(** *** The steps that move a run on *)

Lemma triple_total {A} (m : RunM A) I E :
  invariant I m → (∀ a, ∃ x a', m a = (inr x, a')) → triple I m (fun _ => I) E.
Proof.
  intros Hm Htot a Ha. specialize (Hm a Ha).
  destruct (Htot a) as (x & a' & Heq). by rewrite Heq in *.
Qed.

Lemma triple_post {A} (m : RunM A) P (Q Q' : A → _ → Prop) E :
  triple P m Q' E → (∀ x a, Q' x a → Q x a) → triple P m Q E.
Proof. intros Hm HQ. eapply triple_conseq; [exact Hm | done | exact HQ | done]. Qed.

Lemma triple_pure {A} (m : RunM A) P (φ : Prop) (Q : A → _ → Prop) E :
  (φ → triple P m Q E) → triple (fun a => P a ∧ φ) m Q E.
Proof. intros H a [Ha Hφ]. by apply H. Qed.

Lemma triple_of_sum {A} (r : thrown + A) P E :
  (∀ e a, P a → E e a) →
  triple P (match r with inl e => throw e | inr x => ret x end : RunM A)
         (fun x a => P a ∧ r = inr x) E.
Proof. intros HE a Ha. destruct r as [e | x]; cbn; auto. Qed.

Lemma triple_gets_keep {A} (f : _ → A) P E :
  triple P (gets f : RunM A) (fun _ => P) E.
Proof. by apply triple_gets. Qed.

Lemma triple_await_to {R X} (o : Outcome R X) (cb : R → RunM unit)
    (I : App SA SR ES AP GS AC AT Loc → Prop) E :
  (∀ a w, I a → I (map_localStorage (fun _ => w) a)) →
  (∀ a (now : Z), I a → I (map_clock (fun _ => now) a)) →
  (∀ p, invariant I (cb p)) →
  (∀ e a, I a → E e a) →
  triple I (await browser o cb) (fun r a => I a ∧ settled o = inr r) E.
Proof.
  intros Hst Hclock Hcb HE.
  eapply triple_conseq; [by apply triple_await | done | done | exact HE].
Qed.

Lemma recordCall_At c0 h0 ids t pr c E :
  triple (At c0 h0 ids t pr) (recordCall c : RunM unit)
         (fun _ => At c0 h0 ids (t ++ [c]) pr) E.
Proof.
  apply triple_modify. intros a (Hs & Hc & Hp & Hh & He).
  split; [exact Hs |]. split; [| done].
  cbn. by rewrite Hc, <- app_assoc.
Qed.

Lemma markComplete_At c0 h0 ids t pr x E :
  triple (At c0 h0 ids t pr) (markComplete x : RunM unit)
         (fun _ => At c0 h0 (x :: ids) t pr) E.
Proof.
  unfold markComplete, Date_now.
  eapply triple_bind; [apply triple_gets_keep |]. intros now. cbn beta.
  apply triple_modify. intros a (Hs & Hc & Hp & Hh & He).
  split; [by apply stagesDone_complete | done].
Qed.

Lemma setPartialResults_At c0 h0 ids t pr f E :
  triple (At c0 h0 ids t pr) (setPartialResults f : RunM unit)
         (fun _ => At c0 h0 ids t (f pr)) E.
Proof.
  apply triple_modify. intros a (Hs & Hc & Hp & Hh & He).
  split; [exact Hs |]. split; [exact Hc |]. split; [| done].
  cbn. by rewrite Hp.
Qed.

End PipelineRuns.

(** The side condition of a stage update: the stage is not yet done. *)
Ltac not_in_ids :=
  let H := fresh in
  intros H;
  repeat (apply elem_of_cons in H as [H | H]; [by vm_compute in H |]);
  by apply elem_of_nil in H.

(** The primitive steps that keep a point of a run: they write other
    fields, or the task line of a stage, or a stage that is not done. *)
Ltac at_leaf :=
  intros;
  lazymatch goal with
  | H : At _ _ _ _ _ _ |- _ =>
      let Hs := fresh in
      destruct H as (Hs & ? & ? & ? & ?);
      split;
      [ first [ exact Hs
              | apply stagesDone_updateStage;
                [first [right; split; reflexivity | left; not_in_ids] | exact Hs] ]
      | repeat split; assumption ]
  end.

(** An exception at a point of a run leaves a failed run. *)
Ltac at_exc :=
  intros;
  lazymatch goal with
  | H : At _ _ _ _ _ _ |- _ =>
      let Hs := fresh in let Hc := fresh in let He := fresh in
      destruct H as (Hs & Hc & ? & ? & He);
      split; [exact (stagesDone_weaken _ _ Hs) |];
      split; [exact He |];
      eexists _, _; split; [exact Hc | first [eassumption | cbn [app]; constructor]]
  end.

(** One step, then the rest. *)
Ltac run_step special keep exc :=
  first
    [ solve [special]
    | solve [eapply triple_post;
             [apply triple_invariant; [keep | exc] | intros ? ? ?; eassumption]]
    | solve [eapply triple_post;
             [apply triple_total; [keep | intros; eexists _, _; reflexivity]
             | intros ? ? ?; eassumption]] ].

Ltac run_triple special keep exc :=
  cbn beta zeta;
  lazymatch goal with
  | |- triple (fun a => @?P a ∧ ?φ) _ _ _ =>
      apply triple_pure; intros ?; run_triple special keep exc
  | |- triple _ ?m _ _ =>
      let h := head_of m in
      lazymatch h with
      | @mbind =>
          eapply triple_bind;
          [run_triple special keep exc | intros ?; run_triple special keep exc]
      | @ret =>
          first [ solve [special]
                | apply triple_ret_keep
                | apply triple_ret; intros ? ?;
                  first [eassumption | split; [eassumption | assumption]] ]
      | @throw => apply triple_throw; exc
      | @forEach => cbn [forEach]; run_triple special keep exc
      | _ => first [run_step special keep exc | unfold h; run_triple special keep exc]
      end
  end.

(** The last step of a run that went through: what [saveAnalysis] leaves,
    with the results of the plan and summary calls at hand, is the state
    of a run that succeeded. *)
Ltac run_published :=
  let Hs := fresh in let Hc := fresh in let Hp := fresh in let He := fresh in
  let Hst := fresh in let h := fresh in
  intros [] ? (Hs & Hc & Hp & He & Hst & h & ? & ? & ? & ? & ? & ? & ?);
  split; [exact Hs |]; split; [exact Hst |]; split; [exact He |]; split;
  [ eexists; split; [exact Hc | cbn [app]; constructor]
  | eexists _, _, _, _, h; rewrite Hp; cbn;
    repeat (split; [eassumption || reflexivity |]); assumption ].

Section PipelinePaths.
Context {SA SR ES AP GS AC AT Loc : Type}.
Context (browser : Browser SA SR ES AP GS AT Loc).
Context (services : Services SA SR ES AP GS AC AT Loc).
Implicit Types (a : App SA SR ES AP GS AC AT Loc) (e : thrown).
Implicit Types (ids : list jsstring) (t : list (call SA SR)).
Implicit Types (pr : PartialResults SA SR ES AP).
Abbreviation RunM := (Effect.M (App SA SR ES AP GS AC AT Loc) thrown).

Lemma crawlStage_At href competitorUrls c0 h0 :
  triple (At c0 h0 [] [] emptyResults)
         (crawlStage browser services href)
         (fun urls =>
            At c0 h0 [lit "crawl"] [CallCrawlSitemap href]
               {| sitewideAnalysis := None; seoAnalysis := None;
                  executiveSummary := None; actionPlan := None;
                  urlsDiscovered := Some (Z.of_nat (length urls));
                  urlsAnalyzed := None |})
         (fun _ => Failed c0 href competitorUrls).
Proof.
  run_triple
    ltac:(first [ apply recordCall_At | apply markComplete_At
                | apply setPartialResults_At
                | apply triple_await_to;
                  [at_leaf | at_leaf | intros ?; keep_invariant at_leaf | at_exc] ])
    ltac:(keep_invariant at_leaf) at_exc.
Qed.

(** The five stages done when the plan is made, on both paths. *)
Let beforePlan : list jsstring :=
  [lit "content"; lit "technical"; lit "competitor"; lit "rank"; lit "crawl"].

Lemma actionPlanStage_At href competitorUrls c0 h0 config sw seo announce task done
    t pr fin fin' :
  run_trace href competitorUrls fin t →
  run_trace href competitorUrls fin' (t ++ [CallCreateActionPlan sw seo]) →
  triple (At c0 h0 beforePlan t pr)
         (actionPlanStage browser services config sw seo announce task done)
         (fun plan a =>
            At c0 h0 (lit "actionplan" :: beforePlan)
               (t ++ [CallCreateActionPlan sw seo])
               {| sitewideAnalysis := sitewideAnalysis pr;
                  seoAnalysis := seoAnalysis pr;
                  executiveSummary := executiveSummary pr;
                  actionPlan := Some plan;
                  urlsDiscovered := urlsDiscovered pr;
                  urlsAnalyzed := urlsAnalyzed pr |} a
            ∧ settled (createActionPlan services config sw seo) = inr plan)
         (fun _ => Failed c0 href competitorUrls).
Proof.
  intros Ht Ht'. subst beforePlan.
  run_triple
    ltac:(first [ apply recordCall_At | apply markComplete_At
                | apply setPartialResults_At
                | apply triple_await_to;
                  [at_leaf | at_leaf | intros ?; keep_invariant at_leaf | at_exc] ])
    ltac:(keep_invariant at_leaf) at_exc.
Qed.

Lemma summaryStage_At href competitorUrls c0 h0 config sw seo task t pr fin fin' :
  run_trace href competitorUrls fin t →
  run_trace href competitorUrls fin' (t ++ [CallGenerateExecutiveSummary sw seo]) →
  triple (At c0 h0 (lit "actionplan" :: beforePlan) t pr)
         (summaryStage browser services config sw seo task)
         (fun summary a =>
            At c0 h0 allDone (t ++ [CallGenerateExecutiveSummary sw seo])
               {| sitewideAnalysis := sitewideAnalysis pr;
                  seoAnalysis := seoAnalysis pr;
                  executiveSummary := Some summary;
                  actionPlan := actionPlan pr;
                  urlsDiscovered := urlsDiscovered pr;
                  urlsAnalyzed := urlsAnalyzed pr |} a
            ∧ settled (generateExecutiveSummary services config sw seo) = inr summary)
         (fun _ => Failed c0 href competitorUrls).
Proof.
  intros Ht Ht'. subst beforePlan. unfold allDone.
  run_triple
    ltac:(first [ apply recordCall_At | apply markComplete_At
                | apply setPartialResults_At
                | apply triple_await_to;
                  [at_leaf | at_leaf | intros ?; keep_invariant at_leaf | at_exc] ])
    ltac:(keep_invariant at_leaf) at_exc.
Qed.

Lemma awaitAnalyses_At href competitorUrls c0 h0 ids t pr fin o :
  run_trace href competitorUrls fin t →
  triple (At c0 h0 ids t pr) (awaitAnalyses browser o)
         (fun both a => At c0 h0 ids t pr a ∧ analyses_settled o = inr both)
         (fun _ => Failed c0 href competitorUrls).
Proof.
  intros Ht. unfold awaitAnalyses.
  apply triple_try_catch with (E' := fun _ => At c0 h0 ids t pr).
  - apply triple_await_to.
    + at_leaf.
    + at_leaf.
    + intros r. keep_invariant at_leaf.
    + intros; assumption.
  - intros e. eapply triple_bind.
    + apply triple_modify with (Q := fun _ => At c0 h0 ids t pr). at_leaf.
    + intros ?. apply triple_throw. at_exc.
Qed.

(** The end of both paths: the new analysis heads the history, cut to
    ten, and is selected; a history that could not be written to the
    storage ends the run. *)
Lemma saveAnalysis_At href competitorUrls c0 h0 ids t pr fin data sw seo sources
    plan summary :
  run_trace href competitorUrls fin t →
  triple (At c0 h0 ids t pr)
         (saveAnalysis browser data competitorUrls sw seo sources plan summary)
         (fun _ a =>
            stagesDone ids a ∧ calls a = c0 ++ t ∧ partialResults a = pr
            ∧ error a = None ∧ appState a = AppState.results
            ∧ ∃ h, analysisHistory a = take 10 (h :: h0)
                   ∧ selectedAnalysisId a = Some (h_id h)
                   ∧ h_sitemapUrl h = url data
                   ∧ h_sitewideAnalysis h = sw ∧ h_analysis h = seo
                   ∧ h_actionPlan h = plan ∧ h_executiveSummary h = summary)
         (fun _ => Failed c0 href competitorUrls).
Proof.
  intros Ht a (Hs & Hc & Hp & Hh & He).
  unfold saveAnalysis. unfold mbind, M_bind, bind.
  unfold Date_now, gets, setAnalysisHistory, setSelectedAnalysisId, setAppState, modify.
  cbn beta iota zeta. unfold withStorage.
  destruct (setItem _ _ _ _) as [[e | []] w]; cbn.
  - split; [exact (stagesDone_weaken _ _ Hs) |]. split; [exact He |].
    eexists _, _. split; [exact Hc | exact Ht].
  - split; [exact Hs |]. repeat (split; [assumption || reflexivity |]).
    eexists. rewrite Hh. repeat (split; [reflexivity |]). reflexivity.
Qed.

Lemma cachedPath_Succeeded href c0 h0 config data competitorUrls urls cached pr :
  triple (At c0 h0 [lit "crawl"] [CallCrawlSitemap href] pr)
         (cachedPath browser services config data competitorUrls urls cached)
         (fun _ => Succeeded services c0 h0 config data href competitorUrls)
         (fun _ => Failed c0 href competitorUrls).
Proof.
  run_triple
    ltac:(first [ apply recordCall_At | apply markComplete_At
                | apply setPartialResults_At
                | eapply actionPlanStage_At; cbn [app]; constructor
                | eapply summaryStage_At; cbn [app]; constructor
                | eapply triple_post;
                  [ eapply saveAnalysis_At; cbn [app]; constructor | run_published ] ])
    ltac:(keep_invariant at_leaf) at_exc.
Qed.

Lemma fullPath_Succeeded href c0 h0 config data competitorUrls urls pr :
  triple (At c0 h0 [lit "crawl"] [CallCrawlSitemap href] pr)
         (fullPath browser services config data competitorUrls urls)
         (fun _ => Succeeded services c0 h0 config data href competitorUrls)
         (fun _ => Failed c0 href competitorUrls).
Proof.
  run_triple
    ltac:(first [ apply recordCall_At | apply markComplete_At
                | apply setPartialResults_At
                | apply triple_of_sum; at_exc
                | eapply awaitAnalyses_At; cbn [app]; constructor
                | eapply actionPlanStage_At; cbn [app]; constructor
                | eapply summaryStage_At; cbn [app]; constructor
                | eapply triple_post;
                  [ eapply saveAnalysis_At; cbn [app]; constructor | run_published ] ])
    ltac:(keep_invariant at_leaf) at_exc.
Qed.

Lemma analysisStages_Succeeded href c0 h0 config data competitorUrls urls pr :
  triple (At c0 h0 [lit "crawl"] [CallCrawlSitemap href] pr)
         (analysisStages browser services config data competitorUrls urls)
         (fun _ => Succeeded services c0 h0 config data href competitorUrls)
         (fun _ => Failed c0 href competitorUrls).
Proof.
  unfold analysisStages. destruct urls as [| u urls].
  { apply triple_throw. at_exc. }
  set (l := u :: urls).
  run_triple
    ltac:(first [ apply cachedPath_Succeeded | apply fullPath_Succeeded
                | lazymatch goal with
                  | |- triple _ (match ?c with _ => _ end) _ _ =>
                      destruct c;
                      [apply cachedPath_Succeeded | apply fullPath_Succeeded]
                  end ])
    ltac:(keep_invariant at_leaf) at_exc.
Qed.

(** The body of the [try] block: a run that returns has succeeded, and a
    run that throws has made the first calls of one of the two paths and
    set no error. *)
Lemma runPipeline_Succeeded href c0 h0 config data competitorUrls :
  triple (At c0 h0 [] [] emptyResults)
         (runPipeline browser services config data href competitorUrls)
         (fun _ => Succeeded services c0 h0 config data href competitorUrls)
         (fun _ => Failed c0 href competitorUrls).
Proof.
  unfold runPipeline. eapply triple_bind.
  - apply crawlStage_At.
  - intros urls. apply analysisStages_Succeeded.
Qed.

End PipelinePaths.

(** ** A whole run of [handleSubmit] *)

Section SubmitFacts.
Context {SA SR ES AP GS AC AT Loc : Type}.
Context (browser : Browser SA SR ES AP GS AT Loc).
Context (services : Services SA SR ES AP GS AC AT Loc).

Local Abbreviation RunM := (Effect.M (App SA SR ES AP GS AC AT Loc) thrown).

Implicit Types a : App SA SR ES AP GS AC AT Loc.
Implicit Types data : WizardSubmitData AT Loc.

Lemma startRun_At a :
  At (calls a) (analysisHistory a) [] [] emptyResults (startRun a).2.
Proof.
  split; [| split; [| done]].
  - split; [reflexivity |]. by intros s _ ?%elem_of_nil.
  - cbn. by rewrite app_nil_r.
Qed.

Lemma sameButTask_ids (l l' : list PipelineStage) :
  Forall2 sameButTask l l' → map id l' = map id l.
Proof.
  induction 1 as [| s s' l l' (Hid & _) _ IH]; [done |]. cbn. by rewrite Hid, IH.
Qed.

Lemma sameButTask_Forall (P : Status.t → Q → Prop) (l l' : list PipelineStage) :
  Forall2 sameButTask l l' →
  Forall (fun s => P (status s) (progress s)) l →
  Forall (fun s => P (status s) (progress s)) l'.
Proof.
  induction 1 as [| s s' l l' (_ & _ & _ & Hst & Hpr & _) _ IH]; [done |].
  intros [Hs Hl]%Forall_cons. constructor; [by rewrite Hst, Hpr | by apply IH].
Qed.

Lemma Published_drift config data h0 a a' :
  taskDrift a a' → Published services config data h0 a → Published services config data h0 a'.
Proof.
  intros (_ & Hh & Hsel & _ & _ & _ & _ & _ & Hp & _) (sw & seo & plan & summary & h & H).
  exists sw, seo, plan, summary, h. by rewrite Hp, Hh, Hsel.
Qed.

Lemma allDone_covers x : x ∈ map id initialStages → x ∈ allDone.
Proof.
  intros Hx. cbn in Hx. unfold allDone.
  repeat (apply elem_of_cons in Hx as [-> | Hx]; [set_solver |]).
  by apply elem_of_nil in Hx.
Qed.

(** The two ends of the [try] block, its handler and the late reports,
    from the state in which a run starts. *)
Lemma run_outcome config data href competitorUrls c0 h0 a :
  At c0 h0 [] [] emptyResults a →
  let out := (try_catch (runPipeline browser services config data href competitorUrls)
                handleFailure ;; deliverPending browser) a in
  out.1 = inr tt
  ∧ map id (pipelineStages out.2) = map id initialStages
  ∧ ((appState out.2 = AppState.results ∧ error out.2 = None
      ∧ Forall (fun s => status s = Status.complete ∧ progress s = inject_Z 100)
               (pipelineStages out.2)
      ∧ (∃ t, calls out.2 = c0 ++ t ∧ run_trace href competitorUrls true t)
      ∧ Published services config data h0 out.2)
     ∨ (appState out.2 = AppState.error ∧ is_Some (error out.2)
        ∧ Forall (fun s => status s ≠ Status.running) (pipelineStages out.2)
        ∧ ∃ fin t, calls out.2 = c0 ++ t ∧ run_trace href competitorUrls fin t)).
Proof.
  intros HAt out.
  pose proof (runPipeline_Succeeded browser services href c0 h0
                config data competitorUrls a HAt) as Hrun.
  assert (Hout : out = match runPipeline browser services config data href competitorUrls a with
                       | (inl e, a1) => deliverPending browser (handleFailure e a1).2
                       | (inr _, a1) => deliverPending browser a1
                       end).
  { subst out. unfold mbind, M_bind, bind, try_catch.
    destruct (runPipeline browser services config data href competitorUrls a)
      as [[e | []] a1]; [| done].
    by rewrite handleFailure_run. }
  rewrite Hout. clear Hout out.
  destruct (runPipeline browser services config data href competitorUrls a)
    as [[e | []] a1].
  - destruct Hrun as ((Hids & _) & _ & Htrace).
    rewrite handleFailure_run. cbn [snd].
    set (aH := map_appState _ _).
    destruct (drifts_deliverPending_from browser aH) as (a2 & -> & Hd).
    pose proof Hd as (Herr & _ & _ & Hst & _ & _ & Hstages & _ & _ & _ & _ & Hcalls).
    cbn [fst snd]. split; [done |]. split.
    { rewrite (sameButTask_ids _ _ Hstages). etrans; [| exact Hids]. subst aH. cbn.
      rewrite map_map. apply map_ext. intros s.
      unfold failStage. by destruct (status s). }
    right. split; [by rewrite Hst |]. split; [by rewrite Herr |]. split.
    + apply (sameButTask_Forall (fun st _ => st ≠ Status.running) _ _ Hstages).
      subst aH. cbn. apply Forall_forall. intros s' Hin.
      apply list_elem_of_In, in_map_iff in Hin as (s & <- & _).
      unfold failStage. by destruct (status s) eqn:E; cbn; rewrite ?E.
    + by rewrite Hcalls.
  - destruct Hrun as (Hs & Hst & He & Htrace & Hpub).
    destruct (drifts_deliverPending_from browser a1) as (a2 & -> & Hd).
    pose proof Hd as (Herr & _ & _ & Hst' & _ & _ & Hstages & _ & _ & _ & _ & Hcalls).
    cbn [fst snd]. split; [done |].
    destruct (stagesDone_all allDone a1 allDone_covers Hs) as [Hids Hall].
    split; [by rewrite (sameButTask_ids _ _ Hstages) |].
    left. split; [by rewrite Hst' |]. split; [by rewrite Herr |]. split.
    + exact (sameButTask_Forall
               (fun st p => st = Status.complete ∧ p = inject_Z 100) _ _ Hstages Hall).
    + split; [by rewrite Hcalls |]. by eapply Published_drift.
Qed.

(** The two ends of a run that passed the checks of its input. *)
Lemma handleSubmit_outcome data a0 config href :
  sitemapUrl data ≠ [] →
  aiConfig a0 = Some config →
  URL_href browser (sitemapUrl data) = Some href →
  let out := handleSubmit browser services data a0 in
  let competitorUrls := competitorUrlsOf browser data in
  out.1 = inr tt
  ∧ map id (pipelineStages out.2) = map id initialStages
  ∧ ((appState out.2 = AppState.results ∧ error out.2 = None
      ∧ Forall (fun s => status s = Status.complete ∧ progress s = inject_Z 100)
               (pipelineStages out.2)
      ∧ (∃ t, calls out.2 = calls a0 ++ t ∧ run_trace href competitorUrls true t)
      ∧ Published services config data (analysisHistory a0) out.2)
     ∨ (appState out.2 = AppState.error ∧ is_Some (error out.2)
        ∧ Forall (fun s => status s ≠ Status.running) (pipelineStages out.2)
        ∧ ∃ fin t, calls out.2 = calls a0 ++ t ∧ run_trace href competitorUrls fin t)).
Proof.
  intros Hurl Hcfg Hhref out competitorUrls. subst out.
  rewrite (handleSubmit_run browser services data a0 config href) by done.
  exact (run_outcome config data href competitorUrls (calls a0) (analysisHistory a0)
           (startRun a0).2 (startRun_At a0)).
Qed.

(** What [handleSubmit] does with an input it refuses. *)
Lemma handleSubmit_refused data a0 :
  sitemapUrl data = [] ∨ aiConfig a0 = None ∨ URL_href browser (sitemapUrl data) = None →
  ∃ message state,
    handleSubmit browser services data a0
    = (inr tt, map_appState (fun _ => state) (map_error (fun _ => Some message) a0))
    ∧ (state = AppState.error ∨ state = AppState.configure_ai).
Proof.
  intros Hrefused. unfold handleSubmit.
  destruct (sitemapUrl data) as [| c u] eqn:Hurl.
  { eexists _, _. split; [reflexivity | by left]. }
  unfold mbind, M_bind. unfold bind at 1. unfold gets.
  destruct (aiConfig a0) as [config |] eqn:Hcfg.
  - destruct (URL_href browser (c :: u)) as [href |] eqn:Hhref.
    + by destruct Hrefused as [? | [? | ?]].
    + eexists _, _. split; [reflexivity | by left].
  - eexists _, _. split; [reflexivity | by right].
Qed.

Lemma refused_or_started data a0 :
  (sitemapUrl data = [] ∨ aiConfig a0 = None
   ∨ URL_href browser (sitemapUrl data) = None)
  ∨ (∃ config href, sitemapUrl data ≠ [] ∧ aiConfig a0 = Some config
                    ∧ URL_href browser (sitemapUrl data) = Some href).
Proof.
  destruct (sitemapUrl data) as [| c u] eqn:Hurl; [by left; left |].
  destruct (aiConfig a0) as [config |]; [| by left; right; left].
  destruct (URL_href browser (c :: u)) as [href |] eqn:Hhref; [| by left; right; right].
  right. by exists config, href.
Qed.

(** [handleSubmit] never throws and never leaves the application loading:
    whatever the input, the state and the collaborators, it returns, and
    the application then shows the results with no error set, or shows an
    error or the provider configuration with an error message set. *)
Theorem handleSubmit_settles data a0 :
  let out := handleSubmit browser services data a0 in
  out.1 = inr tt
  ∧ ((appState out.2 = AppState.results ∧ error out.2 = None)
     ∨ ((appState out.2 = AppState.error ∨ appState out.2 = AppState.configure_ai)
        ∧ is_Some (error out.2))).
Proof.
  intros out. subst out.
  destruct (refused_or_started data a0) as [Hrefused | (config & href & Hurl & Hcfg & Hhref)].
  - destruct (handleSubmit_refused data a0 Hrefused) as (message & state & -> & Hstate).
    cbn. split; [done |]. right. split; [done | by eexists].
  - destruct (handleSubmit_outcome data a0 config href Hurl Hcfg Hhref)
      as (Hret & _ & [(Hst & He & _) | (Hst & He & _)]).
    + split; [done |]. by left.
    + split; [done |]. right. split; [by left | done].
Qed.


(** When a submission ends with the results shown, every stage of the
    pipeline is complete, and the run has published what it shows:
    the site-wide and per-page analyses, the plan and the summary the
    collaborators returned for them are in the partial results and in a
    new analysis that heads the history, cut to ten entries, and is the
    selected one. *)
Theorem handleSubmit_results_published data a0 config :
  aiConfig a0 = Some config →
  let out := handleSubmit browser services data a0 in
  appState out.2 = AppState.results →
  map id (pipelineStages out.2) = map id initialStages
  ∧ Forall (fun s => status s = Status.complete) (pipelineStages out.2)
  ∧ Published services config data (analysisHistory a0) out.2.
Proof.
  intros Hcfg out. subst out.
  destruct (refused_or_started data a0) as [Hrefused | (config' & href & Hurl & Hcfg' & Hhref)].
  - destruct (handleSubmit_refused data a0 Hrefused) as (message & state & -> & Hstate).
    cbn. intros ->. by destruct Hstate.
  - assert (config' = config) as -> by congruence.
    destruct (handleSubmit_outcome data a0 config href Hurl Hcfg Hhref)
      as (_ & Hids & [(_ & _ & Hall & _ & Hpub) | (Hst & _)]).
    + intros _. split; [done |]. split; [| done].
      eapply Forall_impl; [exact Hall |]. by intros s [? _].
    + intros Hres. rewrite Hres in Hst. discriminate.
Qed.

(** A submission that passes the checks of its input leaves no stage
    running, however it ends, and the stage list has the seven stages of
    the definitions, in their order. *)
Theorem handleSubmit_no_stage_left_running data a0 config href :
  sitemapUrl data ≠ [] →
  aiConfig a0 = Some config →
  URL_href browser (sitemapUrl data) = Some href →
  let out := handleSubmit browser services data a0 in
  map id (pipelineStages out.2) = map id initialStages
  ∧ Forall (fun s => status s ≠ Status.running) (pipelineStages out.2).
Proof.
  intros Hurl Hcfg Hhref out. subst out.
  destruct (handleSubmit_outcome data a0 config href Hurl Hcfg Hhref)
    as (_ & Hids & [(_ & _ & Hall & _) | (_ & _ & Hnone & _)]).
  - split; [done |]. eapply Forall_impl; [exact Hall |].
    intros s [-> _]. discriminate.
  - done.
Qed.

(** A submission that is refused (no sitemap URL, no provider
    configured, or a URL that does not parse) changes the error message
    and the shown state only: no collaborator is called, and the stages,
    the log, the partial results, the history and the storage are
    untouched. *)
Theorem handleSubmit_refusal_touches_nothing data a0 :
  sitemapUrl data = [] ∨ aiConfig a0 = None ∨ URL_href browser (sitemapUrl data) = None →
  let out := handleSubmit browser services data a0 in
  out.1 = inr tt
  ∧ is_Some (error out.2)
  ∧ appState out.2 = (match sitemapUrl data, aiConfig a0 with
                      | _ :: _, None => AppState.configure_ai
                      | _, _ => AppState.error
                      end)
  ∧ calls out.2 = calls a0
  ∧ pipelineStages out.2 = pipelineStages a0
  ∧ activityLog out.2 = activityLog a0
  ∧ partialResults out.2 = partialResults a0
  ∧ analysisHistory out.2 = analysisHistory a0
  ∧ selectedAnalysisId out.2 = selectedAnalysisId a0
  ∧ localStorage out.2 = localStorage a0.
Proof.
  intros Hrefused out. subst out. unfold handleSubmit.
  destruct (sitemapUrl data) as [| c u] eqn:Hurl.
  { cbn. repeat split; first [done | by eexists]. }
  unfold mbind, M_bind. unfold bind at 1. unfold gets.
  destruct (aiConfig a0) as [config |] eqn:Hcfg.
  - destruct (URL_href browser (c :: u)) as [href |] eqn:Hhref.
    + by destruct Hrefused as [? | [? | ?]].
    + cbn. rewrite ?Hcfg. repeat split; first [done | by eexists].
  - cbn. rewrite ?Hcfg. repeat split; first [done | by eexists].
Qed.

End SubmitFacts.

(** ** The statements on concrete runs *)

Import Scenario.

(** *** Store, then lookup *)



(** *** The lookup on an expired entry and on a text that does not parse *)



(** *** Quota recovery *)

(** On a storage with six entries and no room for a seventh, the store
    is refused, removes five entries and is accepted at the retry. *)
Lemma setAnalysis_quota_recovery_witness :
  map (fun op => match op with
                 | OpSetItem _ _ r => Some r
                 | OpRemoveItem _ => None
                 end)
      (issued sixEntries
              (setAnalysis smallHost hostnameOf 2000 site pages 11 22 None sixEntries).2)
  = [Some QuotaExceeded; None; None; None; None; None; Some Accepted].
Proof.
  destruct (proj2 (setAnalysis_quota_recovery smallHost hostnameOf 2000 site pages
                     11 22 None sixEntries)) as (Hops & _).
  - vm_compute. reflexivity.
  - rewrite Hops. vm_compute. reflexivity.
Defined.

(** *** The size limit *)

Lemma storeAll_keeps_most_recent_witness :
  (storeAll acceptingHost hostnameOf manyStores emptyStorage).1 = inr tt
  ∧ Z.of_nat (length (scan (store (storeAll acceptingHost hostnameOf manyStores
                                             emptyStorage).2)))
    = MAX_CACHE_SIZE.
Proof.
  destruct (storeAll_keeps_most_recent acceptingHost hostnameOf
              (fun _ _ _ => eq_refl) manyStores emptyStorage)
    as (Hret & Hkept & _).
  - reflexivity.
  - reflexivity.
  - vm_compute. lia.
  - apply (bool_decide_unpack _). vm_compute. exact I.
  - vm_compute. lia.
  - split; [exact Hret | exact Hkept].
Defined.

(** *** The entry counter *)


(** *** The failure handler *)

Lemma handleFailure_changes_only_running_witness :
  length (pipelineStages
            (handleFailure (ErrorObject (lit "The model is overloaded."))
                           (afterPipeline servicesPlanFails)).2)
  = length (pipelineStages (afterPipeline servicesPlanFails)).
Proof.
  refine (proj2 (proj2 (handleFailure_changes_only_running
                          (ErrorObject (lit "The model is overloaded."))
                          (afterPipeline servicesPlanFails) 5
                          (default (stageDefinition [] [] [])
                             (pipelineStages (afterPipeline servicesPlanFails) !! 5%nat))
                          _))).
  vm_compute. reflexivity.
Defined.

(** *** A failing run *)


(** *** The fast path *)

Lemma handleSubmit_cache_hit_witness :
  calls (handleSubmit browser services wizardData warmApp).2
  = [CallCrawlSitemap (sitemapUrl wizardData); CallCreateActionPlan 11 22;
     CallGenerateExecutiveSummary 11 22].
Proof.
  refine (proj1 (proj2 (handleSubmit_cache_hit browser services wizardData warmApp
                          1 (sitemapUrl wizardData) pages (afterCrawl services)
                          (11, 22) _ _ _ _ _ _))).
  - vm_compute. discriminate.
  - reflexivity.
  - reflexivity.
  - vm_compute. reflexivity.
  - vm_compute. discriminate.
  - vm_compute. reflexivity.
Defined.

(** C4, the claim as stated fails: the lookup after the crawl returns the
    cached pair, the action plan call is rejected, and the summary
    generator is never called: its stage is still pending when the run has
    ended. *)
Lemma handleSubmit_cache_hit_plan_fails_counterexample :
  (getAnalysis hostnameOf (clock (afterCrawl servicesPlanFails)) (url wizardData) pages
     (localStorage (afterCrawl servicesPlanFails))).1
  = inr (Some (11, 22))
  ∧ calls (handleSubmit browser servicesPlanFails wizardData warmApp).2
    = [CallCrawlSitemap (sitemapUrl wizardData); CallCreateActionPlan 11 22]
  ∧ map (fun s => (id s, status s))
        (pipelineStages (handleSubmit browser servicesPlanFails wizardData warmApp).2)
    = [(lit "crawl", Status.complete); (lit "rank", Status.complete);
       (lit "competitor", Status.complete); (lit "technical", Status.complete);
       (lit "content", Status.complete); (lit "actionplan", Status.error);
       (lit "summary", Status.pending)].
Proof. vm_compute. repeat split. Qed.

(** *** Further statements *)

Lemma generateUrlsHash_same_set_witness :
  generateUrlsHash pages
  = generateUrlsHash [lit "https://a.com/2"; lit "https://a.com/1"].
Proof.
  apply (generateUrlsHash_same_set pages [lit "https://a.com/2"; lit "https://a.com/1"]).
  - apply (bool_decide_unpack _). vm_compute. exact I.
  - apply (bool_decide_unpack _). vm_compute. exact I.
  - intros u. unfold pages. rewrite !elem_of_cons. tauto.
Defined.

Lemma cleanupExpiredEntries_throttled_witness :
  cleanupExpiredEntries acceptingHost 1000 emptyStorage = (inr tt, emptyStorage).
Proof.
  apply (cleanupExpiredEntries_throttled acceptingHost 1000 emptyStorage).
  vm_compute. reflexivity.
Defined.

Lemma handleSubmit_empty_crawl_witness :
  appState (handleSubmit browser servicesEmptyCrawl wizardData warmApp).2
  = AppState.error.
Proof.
  refine (proj1 (proj2 (handleSubmit_empty_crawl browser servicesEmptyCrawl wizardData
                          warmApp 1 (sitemapUrl wizardData)
                          (afterCrawl servicesEmptyCrawl) _ _ _ _))).
  - vm_compute. discriminate.
  - reflexivity.
  - reflexivity.
  - vm_compute. reflexivity.
Defined.

(** *** The maintenance of the cache *)


Lemma enforceCacheLimit_effect_witness :
  length (scan (store crowdedStorage)) = 51%nat
  ∧ length (scan (store (enforceCacheLimit acceptingHost 2000 crowdedStorage).2)) = 50%nat.
Proof.
  split; [vm_compute; reflexivity |].
  refine (proj1 (proj2 (proj2 (enforceCacheLimit_effect acceptingHost 2000 crowdedStorage _))
                   _ _)).
  - apply (bool_decide_unpack _). vm_compute. exact I.
  - vm_compute. reflexivity.
  - vm_compute. lia.
Defined.

Lemma cache_keeps_foreign_keys_witness :
  store (clearCache acceptingHost 2000 None mixedStorage).2 !! Pipeline.HISTORY_STORAGE_KEY
  = Some (OtherText (lit "[]")).
Proof.
  destruct (cache_keeps_foreign_keys acceptingHost hostnameOf Pipeline.HISTORY_STORAGE_KEY
              2000 site pages 11 22 None None mixedStorage)
    as (_ & _ & _ & Hclear & _).
  - vm_compute. reflexivity.
  - rewrite Hclear. vm_compute. reflexivity.
Defined.

Lemma getStats_reports_witness :
  ∃ s, getStats (fun _ => 120) (fun _ => 60) mixedStorage = (inr s, mixedStorage)
       ∧ stat_entries s = 3.
Proof.
  destruct (getStats_reports (fun _ => 120) (fun _ => 60) mixedStorage)
    as (s & Hrun & Hcount & _).
  - apply (bool_decide_unpack _). vm_compute. exact I.
  - intros k ts Hin. apply list_elem_of_In in Hin.
    assert (Hall : forallb (fun x => 0 <? x.2) (scan (store mixedStorage)) = true).
    { vm_compute. reflexivity. }
    rewrite forallb_forall in Hall. specialize (Hall _ Hin). cbn [snd] in Hall. lia.
  - exists s. split; [exact Hrun |]. rewrite Hcount. vm_compute. reflexivity.
Defined.

(** *** Whole runs *)

Lemma handleSubmit_results_published_witness :
  Forall (fun s => status s = Status.complete)
         (pipelineStages (handleSubmit browser services wizardData warmApp).2).
Proof.
  refine (proj1 (proj2 (handleSubmit_results_published browser services wizardData warmApp
                          1 _ _))).
  - reflexivity.
  - vm_compute. reflexivity.
Defined.

Lemma handleSubmit_no_stage_left_running_witness :
  Forall (fun s => status s ≠ Status.running)
         (pipelineStages (handleSubmit browser servicesPlanFails wizardData warmApp).2).
Proof.
  refine (proj2 (handleSubmit_no_stage_left_running browser servicesPlanFails wizardData
                   warmApp 1 (sitemapUrl wizardData) _ _ _)).
  - vm_compute. discriminate.
  - reflexivity.
  - reflexivity.
Defined.

Lemma handleSubmit_refusal_touches_nothing_witness :
  calls (handleSubmit browser services blankData warmApp).2 = calls warmApp.
Proof.
  refine (proj1 (proj2 (proj2 (proj2 (handleSubmit_refusal_touches_nothing
                                        browser services blankData warmApp _))))).
  left. reflexivity.
Defined.
